(** * TcpHyblaI: a shallow embedding of the congestion controller

    Source: [tcp-hybla-i.cc] / [tcp-hybla-i.h] (class [ns3::TcpHyblaI]).

    Number model.
    - [uint32_t] values are integers of [Z] in [0, 2^32); every unsigned
      operation of the source is written with its reduction modulo 2^32.
    - [double] values are real numbers of [R]: the arithmetic of the source
      is read exactly, without the rounding of binary64.  What leaves the
      finite numbers (a division by zero) or the defined behaviour of C++
      (a cast out of range, an integer division by zero, a failed
      [NS_ASSERT]) is a [Fault].
    - [ns3::Time] durations are real numbers of nanoseconds.  The product of
      a [Time] and a double, which ns-3 returns in whole ticks, is not part
      of the sources: it is a parameter of [PktsAcked].
    - Module [Binary64] runs the scaling factor and the two growth steps on
      the primitive binary64 floats, where rounding is visible.

    Module [Driver] embeds the trace callbacks of the simulation driver
    ([tcp-variants.cc]), and module [Http] the request-line computations of
    the file server ([ServerThreads.java], [ClientThreads.java]). *)

From Stdlib Require Import ZArith Reals Lra Lia Psatz Bool.
From Stdlib Require Floats Uint63.
From Stdlib Require Ascii String List.

(* ------------------------------------------------------------------ *)
(** ** Outcomes of a call *)

Inductive fault : Set :=
| AssertionFailed   (* NS_ASSERT does not hold *)
| DivisionByZero    (* integer division by zero *)
| NotFinite         (* double division by zero: the quotient is no finite number *)
| CastOutOfRange.   (* static_cast<uint32_t> of a double outside the range of uint32_t *)

Inductive outcome (A : Type) : Type :=
| Ok (a : A)
| Fault (f : fault).

Arguments Ok {A} a.
Arguments Fault {A} f.

Definition bind {A B : Type} (c : outcome A) (k : A -> outcome B) : outcome B :=
  match c with
  | Ok a => k a
  | Fault f => Fault f
  end.

Declare Scope outcome_scope.
Delimit Scope outcome_scope with outcome.
Notation "x <- c ;; k" := (bind c (fun x => k))
  (at level 61, c at next level, right associativity) : outcome_scope.

(** [NS_ASSERT (b)] *)
Definition NS_ASSERT (b : bool) : outcome unit :=
  if b then Ok tt else Fault AssertionFailed.

(* ------------------------------------------------------------------ *)
(** ** uint32_t *)

Module U32.
Definition modulus : Z := 2 ^ 32.
Definition max_value : Z := modulus - 1.
Definition wrap (z : Z) : Z := z mod modulus.
Definition add (a b : Z) : Z := wrap (a + b).
Definition sub (a b : Z) : Z := wrap (a - b).
Definition mul (a b : Z) : Z := wrap (a * b).
(** unsigned division; by zero it is undefined *)
Definition div (a b : Z) : outcome Z :=
  if (b =? 0)%Z then Fault DivisionByZero else Ok (a / b)%Z.
Definition in_range (z : Z) : Prop := (0 <= z < modulus)%Z.
End U32.

(* ------------------------------------------------------------------ *)
(** ** double *)

Local Open Scope R_scope.

(** [a / b] on doubles; a zero divisor gives an infinity or a NaN. *)
Definition ddiv (a b : R) : outcome R :=
  if Req_dec_T b 0 then Fault NotFinite else Ok (a / b).

(** [std::max (a, b)] is [(a < b) ? b : a]. *)
Definition std_max (a b : R) : R := if Rlt_dec a b then b else a.

(** [std::min (a, b)] on uint32_t is [(b < a) ? b : a]. *)
Definition std_min (a b : Z) : Z := if (b <? a)%Z then b else a.

(** Truncation toward zero, the value kept by a conversion from double to
    an integer type. *)
Definition Rtrunc (x : R) : Z :=
  if Rle_dec 0 x then Int_part x else (- Int_part (- x))%Z.

(** [static_cast<uint32_t> (x)]: the truncated value when uint32_t can
    hold it, undefined otherwise. *)
Definition to_uint32 (x : R) : outcome Z :=
  let z := Rtrunc x in
  if ((0 <=? z) && (z <? U32.modulus))%Z then Ok z else Fault CastOutOfRange.

(* ------------------------------------------------------------------ *)
(** ** ns3::Time

    A duration, counted in nanoseconds (the default resolution of ns-3). *)

Definition Time : Type := R.

Definition Seconds (s : R) : Time := s * 1000000000.
Definition MilliSeconds (ms : Z) : Time := IZR ms * 1000000.
Definition IsZero (t : Time) : {t = 0} + {t <> 0} := Req_dec_T t 0.
(** [GetSeconds] returns a double. *)
Definition GetSeconds (t : Time) : R := t / 1000000000.
(** [GetMilliSeconds] returns an int64_t: the whole milliseconds of [t]. *)
Definition GetMilliSeconds (t : Time) : Z := Rtrunc (t / 1000000).

(* ------------------------------------------------------------------ *)
(** ** ns3::TcpSocketState: the fields the controller reads and writes *)

Record TcpSocketState : Type := mkTcb {
  m_cWnd : Z;            (* uint32_t, bytes *)
  m_ssThresh : Z;        (* uint32_t, bytes *)
  m_segmentSize : Z;     (* uint32_t, bytes *)
  m_bytesInFlight : Z;   (* uint32_t, bytes *)
  m_minRtt : Time;
  m_srtt : Time;
  m_nextTxSequence : Z;  (* SequenceNumber32 *)
  m_lastAckedSeq : Z     (* SequenceNumber32 *)
}.

Definition set_cWnd (w : Z) (tcb : TcpSocketState) : TcpSocketState :=
  mkTcb w (m_ssThresh tcb) (m_segmentSize tcb) (m_bytesInFlight tcb)
        (m_minRtt tcb) (m_srtt tcb) (m_nextTxSequence tcb) (m_lastAckedSeq tcb).

(** Every uint32_t field holds a uint32_t, and a segment has a size. *)
Definition valid_snapshot (tcb : TcpSocketState) : Prop :=
  U32.in_range (m_cWnd tcb) /\ U32.in_range (m_ssThresh tcb) /\
  U32.in_range (m_segmentSize tcb) /\ U32.in_range (m_bytesInFlight tcb) /\
  U32.in_range (m_nextTxSequence tcb) /\ U32.in_range (m_lastAckedSeq tcb) /\
  (0 < m_segmentSize tcb)%Z.

(** [TcpSocketState::GetCwndInSegments]: [m_cWnd / m_segmentSize]. *)
Definition GetCwndInSegments (tcb : TcpSocketState) : outcome Z :=
  U32.div (m_cWnd tcb) (m_segmentSize tcb).

(* ------------------------------------------------------------------ *)
(** ** ns3::TcpHyblaI: the private members *)

Record TcpHyblaI : Type := mkHyblaI {
  m_sRtt : Time;              (* smoothed RTT *)
  m_alpha : R;                (* smoothing factor for sRtt *)
  m_inFlightThresh : R;       (* threshold for in_flight to cwnd ratio *)
  m_rtoScalingFactor : R;     (* factor to scale increments if RTO is large *)
  m_rRtt : Time;              (* reference RTT *)
  m_rho : R;                  (* rho parameter *)
  m_cWndCnt : R               (* cWnd integer-to-float counter *)
}.

Definition set_sRtt (t : Time) (h : TcpHyblaI) : TcpHyblaI :=
  mkHyblaI t (m_alpha h) (m_inFlightThresh h) (m_rtoScalingFactor h)
           (m_rRtt h) (m_rho h) (m_cWndCnt h).
Definition set_rho (r : R) (h : TcpHyblaI) : TcpHyblaI :=
  mkHyblaI (m_sRtt h) (m_alpha h) (m_inFlightThresh h) (m_rtoScalingFactor h)
           (m_rRtt h) r (m_cWndCnt h).
Definition set_cWndCnt (c : R) (h : TcpHyblaI) : TcpHyblaI :=
  mkHyblaI (m_sRtt h) (m_alpha h) (m_inFlightThresh h) (m_rtoScalingFactor h)
           (m_rRtt h) (m_rho h) c.

(** [TcpHyblaI::TcpHyblaI ()] *)
Definition TcpHyblaI_new : TcpHyblaI :=
  mkHyblaI (Seconds 0) 0.9 0.8 1 (MilliSeconds 50) 1 0.

(** The three attributes of [GetTypeId], each within its checker:
    Alpha in [0, 1], InFlightThreshold any double, RtoScalingFactor at least 0. *)
Definition configure (alpha thresh k : R) (h : TcpHyblaI) : TcpHyblaI :=
  mkHyblaI (m_sRtt h) alpha thresh k (m_rRtt h) (m_rho h) (m_cWndCnt h).

(** [TcpHyblaI::Fork]: [CopyObject], the copy constructor. *)
Definition Fork (h : TcpHyblaI) : TcpHyblaI :=
  mkHyblaI (m_sRtt h) (m_alpha h) (m_inFlightThresh h) (m_rtoScalingFactor h)
           (m_rRtt h) (m_rho h) (m_cWndCnt h).

Local Open Scope outcome_scope.

(* ------------------------------------------------------------------ *)
(** ** TcpHyblaI::HyblaIRecalcParam *)

Definition effectiveRtt (h : TcpHyblaI) (tcb : TcpSocketState) : Time :=
  if IsZero (m_sRtt h) then m_minRtt tcb else m_sRtt h.

Definition candidateRho (h : TcpHyblaI) (tcb : TcpSocketState) : outcome R :=
  ddiv (IZR (GetMilliSeconds (effectiveRtt h tcb)))
       (IZR (GetMilliSeconds (m_rRtt h))).

Definition HyblaIRecalcParam (h : TcpHyblaI) (tcb : TcpSocketState)
  : outcome TcpHyblaI :=
  c <- candidateRho h tcb ;;
  let rho := std_max c 1 in
  _ <- NS_ASSERT (if Rlt_dec 0 rho then true else false) ;;
  Ok (set_rho rho h).

(* ------------------------------------------------------------------ *)
(** ** TcpHyblaI::PktsAcked

    The socket state is passed along and returned: the function holds a
    pointer to it.

    [m_sRtt * m_alpha] and [rtt * (1.0 - m_alpha)] multiply a [Time] by a
    double.  [operator*] of [ns3::Time] is not part of these sources; it is
    the parameter [mul] of [smooth] and [PktsAcked].  A [Time] holds a whole
    number of ticks, so the operator returns the product made whole:
    [nearest_product] and [truncated_product] are the two ways of doing
    so, [exact_product] keeps the fraction of a tick, as the formula of the
    specification does.  The sum of two [Time]s is exact. *)

Definition exact_product (t : Time) (a : R) : Time := t * a.
Definition nearest_product (t : Time) (a : R) : Time := IZR (Int_part (t * a + / 2)).
Definition truncated_product (t : Time) (a : R) : Time := IZR (Rtrunc (t * a)).

(** A product made of whole ticks, and a product that is within [e] ticks
    of the exact one. *)
Definition whole_ticks (mul : Time -> R -> Time) : Prop :=
  forall t a, exists z : Z, mul t a = IZR z.
Definition accurate (e : R) (mul : Time -> R -> Time) : Prop :=
  forall t a, Rabs (mul t a - t * a) <= e.

Definition smooth (mul : Time -> R -> Time) (h : TcpHyblaI) (rtt : Time) : Time :=
  if Req_dec_T (m_sRtt h) (Seconds 0) then rtt
  else mul (m_sRtt h) (m_alpha h) + mul rtt (1 - m_alpha h).

Definition PktsAcked (mul : Time -> R -> Time) (h : TcpHyblaI) (tcb : TcpSocketState)
           (segmentsAcked : Z) (rtt : Time)
  : outcome (TcpSocketState * TcpHyblaI) :=
  let h1 := set_sRtt (smooth mul h rtt) h in
  if Req_dec_T rtt (m_minRtt tcb) then
    h2 <- HyblaIRecalcParam h1 tcb ;;
    Ok (tcb, h2)
  else Ok (tcb, h1).

(* ------------------------------------------------------------------ *)
(** ** TcpHyblaI::ComputeScalingFactor *)

Definition inflightRatio (tcb : TcpSocketState) : outcome R :=
  let cwndInBytes := IZR (m_cWnd tcb) in
  let inFlight := IZR (m_bytesInFlight tcb) in
  if Rlt_dec 0 cwndInBytes then ddiv inFlight cwndInBytes else Ok 0.

Definition rtoRatio (h : TcpHyblaI) (tcb : TcpSocketState) : outcome R :=
  let srttSeconds := GetSeconds (m_srtt tcb) in
  let computedRto := srttSeconds * 2 in
  r <- (if IsZero (m_sRtt h) then Ok 1
        else ddiv computedRto (GetSeconds (m_sRtt h))) ;;
  Ok (std_max r 1).

(** [outstanding] is the difference of two [SequenceNumber32] stored in a
    uint32_t: the difference modulo 2^32. *)
Definition outstandingFactor (tcb : TcpSocketState) : outcome R :=
  let outstanding := U32.sub (m_nextTxSequence tcb) (m_lastAckedSeq tcb) in
  segs <- GetCwndInSegments tcb ;;
  Ok (if (U32.mul segs 2 <? outstanding)%Z then 0.9 else 1).

Definition inflightFactor (h : TcpHyblaI) (ratio : R) : R :=
  if Rlt_dec (m_inFlightThresh h) ratio
  then std_max (1 - (ratio - m_inFlightThresh h) * 0.5) 0.5
  else 1.

Definition rtoFactor (h : TcpHyblaI) (ratio : R) : outcome R :=
  ddiv 1 (1 + (ratio - 1) * m_rtoScalingFactor h).

Definition ComputeScalingFactor (h : TcpHyblaI) (tcb : TcpSocketState)
  : outcome R :=
  ir <- inflightRatio tcb ;;
  rr <- rtoRatio h tcb ;;
  osf <- outstandingFactor tcb ;;
  let iff := inflightFactor h ir in
  rf <- rtoFactor h rr ;;
  let finalFactor := iff * rf * osf in
  Ok (std_max finalFactor 0.5).

(* ------------------------------------------------------------------ *)
(** ** TcpHyblaI::SlowStart

    [std::pow (2, m_rho)] is [Rpower 2 (m_rho)].  The doubles are read as
    exact reals, so the product that is cast is the exact one;
    [Binary64.SlowStart] is the same step on rounded doubles. *)

Definition SlowStart (h : TcpHyblaI) (tcb : TcpSocketState) (segmentsAcked : Z)
  : outcome (TcpSocketState * Z) :=
  _ <- NS_ASSERT (m_cWnd tcb <=? m_ssThresh tcb)%Z ;;
  if (1 <=? segmentsAcked)%Z then
    let increment := Rpower 2 (m_rho h) - 1 in
    scale <- ComputeScalingFactor h tcb ;;
    let increment := increment * scale in
    incr <- to_uint32 (increment * IZR (m_segmentSize tcb)) ;;
    Ok (set_cWnd (std_min (U32.add (m_cWnd tcb) incr) (m_ssThresh tcb)) tcb,
        (segmentsAcked - 1)%Z)
  else Ok (tcb, 0%Z).

(* ------------------------------------------------------------------ *)
(** ** TcpHyblaI::CongestionAvoidance

    [std::pow (m_rho, 2)] is the square of [m_rho].  The [while] loop runs
    once per acknowledged segment; [n] counts the iterations left.  The
    doubles are read as exact reals, so the counter is the exact sum and the
    product that is cast is the exact one; [Binary64.CongestionAvoidance] is
    the same step on rounded doubles. *)

Fixpoint accumulate (h : TcpHyblaI) (tcb : TcpSocketState) (n : nat) (cnt : R)
  : outcome R :=
  match n with
  | O => Ok cnt
  | S n' =>
      segCwnd <- GetCwndInSegments tcb ;;
      increment <- ddiv (m_rho h ^ 2) (IZR segCwnd) ;;
      accumulate h tcb n' (cnt + increment)
  end.

Definition CongestionAvoidance (h : TcpHyblaI) (tcb : TcpSocketState)
           (segmentsAcked : Z)
  : outcome (TcpSocketState * TcpHyblaI) :=
  cnt <- accumulate h tcb (Z.to_nat segmentsAcked) (m_cWndCnt h) ;;
  if Rle_dec 1 cnt then
    inc <- to_uint32 cnt ;;
    let h' := set_cWndCnt (cnt - IZR inc) h in
    scale <- ComputeScalingFactor h' tcb ;;
    scaledInc <- to_uint32 (IZR inc * scale * IZR (m_segmentSize tcb)) ;;
    Ok (set_cWnd (U32.add (m_cWnd tcb) scaledInc) tcb, h')
  else Ok (tcb, set_cWndCnt cnt h).

(** The attributes stay within their checkers ([MakeDoubleChecker]). *)
Definition valid_config (h : TcpHyblaI) : Prop :=
  0 <= m_alpha h <= 1 /\ 0 <= m_rtoScalingFactor h.

(** The names of the specification for what one iteration of the loop
    computes: segmentsInWindow, and the credit rho^2 / segmentsInWindow. *)
Definition segmentsInWindow (tcb : TcpSocketState) : Z :=
  (m_cWnd tcb / m_segmentSize tcb)%Z.
Definition credit (h : TcpHyblaI) (tcb : TcpSocketState) : R :=
  m_rho h ^ 2 / IZR (segmentsInWindow tcb).

(** The closed form of the accumulation, in the words of the
    specification: the counter plus [segmentsAcked * rho^2 / segmentsInWindow]. *)
Definition accumulate_closed_form (h : TcpHyblaI) (segmentsInWindow : Z)
           (segmentsAcked : nat) (cnt : R) : R :=
  cnt + INR segmentsAcked * m_rho h ^ 2 / IZR segmentsInWindow.

(** The controllers a connection can hold: a fresh one, one whose
    attributes were set, a copy, and what [PktsAcked] (whatever the product
    of a [Time] and a double returns) and [CongestionAvoidance] leave.
    [SlowStart] writes no member. *)
Inductive reachable : TcpHyblaI -> Prop :=
| reach_new : reachable TcpHyblaI_new
| reach_configure (h : TcpHyblaI) (alpha thresh k : R) :
    reachable h -> 0 <= alpha <= 1 -> 0 <= k ->
    reachable (configure alpha thresh k h)
| reach_Fork (h : TcpHyblaI) : reachable h -> reachable (Fork h)
| reach_PktsAcked (mul : Time -> R -> Time) (h h' : TcpHyblaI)
                  (tcb tcb' : TcpSocketState) (n : Z) (rtt : Time) :
    reachable h -> valid_snapshot tcb ->
    PktsAcked mul h tcb n rtt = Ok (tcb', h') -> reachable h'
| reach_CongestionAvoidance (h h' : TcpHyblaI) (tcb tcb' : TcpSocketState) (n : Z) :
    reachable h -> valid_snapshot tcb ->
    CongestionAvoidance h tcb n = Ok (tcb', h') -> reachable h'.

(* ------------------------------------------------------------------ *)
(** ** The growth steps on binary64

    The accumulation loop, the scaling factor and the two growth steps with
    the arithmetic of a C++ [double]: every sum, product and quotient is
    rounded to the nearest binary64 value.  [std::pow (x, 2)] is taken as
    [x * x]; a uint32_t converts exactly.  What the sources do not hold is
    an argument: the double that [std::pow (2, m_rho)] returns and the
    doubles that [GetSeconds] returns. *)

Module Binary64.
Import Floats.
Local Open Scope float_scope.

Definition of_uint32 (z : Z) : float := PrimFloat.of_uint63 (Uint63.of_Z z).

(** The doubles [0.0] and [1.0]. *)
Definition zero : float := 0.
Definition one : float := 1.

Definition increment (rho : float) (segCwnd : Z) : float :=
  (rho * rho) / of_uint32 segCwnd.

Fixpoint accumulate (rho : float) (segCwnd : Z) (n : nat) (cnt : float) : float :=
  match n with
  | O => cnt
  | S n' => accumulate rho segCwnd n' (cnt + increment rho segCwnd)
  end.

(** The closed form, in the words of the specification. *)
Definition accumulate_closed_form (rho : float) (segCwnd : Z) (n : nat) (cnt : float)
  : float :=
  cnt + of_uint32 (Z.of_nat n) * (rho * rho) / of_uint32 segCwnd.

(** The same, multiplying the credit of one segment. *)
Definition accumulate_closed_form_credit (rho : float) (segCwnd : Z) (n : nat)
           (cnt : float) : float :=
  cnt + of_uint32 (Z.of_nat n) * increment rho segCwnd.

(** The test of [CongestionAvoidance] on the counter: [m_cWndCnt >= 1.0]. *)
Definition grows (cnt : float) : bool := 1 <=? cnt.

(** The doubles of the literals [2], [0.5] and [0.9], and of the default
    attributes [InFlightThreshold] = 0.8 and [RtoScalingFactor] = 1.0. *)
Definition two : float := 2.
Definition half : float := 0.5.
Definition nine_tenths : float := 0x1.ccccccccccccdp-1.
Definition default_inFlightThresh : float := 0x1.999999999999ap-1.
Definition default_rtoScalingFactor : float := 1.

(** [std::max (a, b)] is [(a < b) ? b : a]. *)
Definition std_max (a b : float) : float := if a <? b then b else a.

(** [static_cast<uint32_t> (x)]: the integer part of [x] when uint32_t can
    hold it.  A double of 1 or more is [m * 2^e] with a mantissa [m] in
    [0.5, 1) that [normfr_mantissa] returns as the integer [m * 2^53]. *)
Definition to_uint32 (x : float) : outcome Z :=
  if (-1 <? x) && (x <? 4294967296) then
    if 1 <=? x then
      let (m, e) := Z.frexp x in
      Ok (Z.shiftr (Uint63.to_Z (normfr_mantissa m)) (53 - e))
    else Ok 0%Z
  else Fault CastOutOfRange.

(** [ComputeScalingFactor] on doubles.  [srttSeconds] is the double that
    [tcb->m_srtt.Get ().GetSeconds ()] returns, [sRttSeconds] the one that
    [m_sRtt.GetSeconds ()] returns, [None] when [m_sRtt.IsZero ()]; the
    other arguments are the attributes and the uint32_t fields of the
    socket. *)
Definition ComputeScalingFactor (inFlightThresh rtoScalingFactor srttSeconds : float)
           (sRttSeconds : option float)
           (cWnd segmentSize bytesInFlight nextTxSequence lastAckedSeq : Z)
  : outcome float :=
  let cwndInBytes := of_uint32 cWnd in
  let inFlight := of_uint32 bytesInFlight in
  let inflightRatio := if 0 <? cwndInBytes then inFlight / cwndInBytes else 0 in
  let computedRto := srttSeconds * 2 in
  let rtoRatio := match sRttSeconds with
                  | None => 1
                  | Some s => computedRto / s
                  end in
  let rtoRatio := std_max rtoRatio 1 in
  let outstanding := U32.sub nextTxSequence lastAckedSeq in
  segs <- U32.div cWnd segmentSize ;;
  let outstandingFactor :=
    if (U32.mul segs 2 <? outstanding)%Z then nine_tenths else 1 in
  let inflightFactor :=
    if inFlightThresh <? inflightRatio
    then std_max (1 - (inflightRatio - inFlightThresh) * half) half
    else 1 in
  let rtoFactor := 1 / (1 + (rtoRatio - 1) * rtoScalingFactor) in
  let finalFactor := inflightFactor * rtoFactor * outstandingFactor in
  Ok (std_max finalFactor half).

(** [SlowStart] on doubles: the new window and the returned count.
    [pow_2_rho] is the double that [std::pow (2, m_rho)] returns. *)
Definition SlowStart (pow_2_rho inFlightThresh rtoScalingFactor srttSeconds : float)
           (sRttSeconds : option float)
           (cWnd ssThresh segmentSize bytesInFlight nextTxSequence lastAckedSeq : Z)
           (segmentsAcked : Z)
  : outcome (Z * Z) :=
  _ <- NS_ASSERT (cWnd <=? ssThresh)%Z ;;
  if (1 <=? segmentsAcked)%Z then
    let increment := pow_2_rho - 1 in
    scale <- ComputeScalingFactor inFlightThresh rtoScalingFactor srttSeconds sRttSeconds
               cWnd segmentSize bytesInFlight nextTxSequence lastAckedSeq ;;
    let increment := increment * scale in
    incr <- to_uint32 (increment * of_uint32 segmentSize) ;;
    Ok (std_min (U32.add cWnd incr) ssThresh, (segmentsAcked - 1)%Z)
  else Ok (cWnd, 0%Z).

(** The product that [SlowStart] casts to uint32_t. *)
Definition SlowStart_product (pow_2_rho scale : float) (segmentSize : Z) : float :=
  (pow_2_rho - 1) * scale * of_uint32 segmentSize.

(** The [while] loop of [CongestionAvoidance]; [pow_rho_2] is the double
    that [std::pow (m_rho, 2)] returns. *)
Fixpoint loop (pow_rho_2 : float) (segCwnd : Z) (n : nat) (cnt : float) : float :=
  match n with
  | O => cnt
  | S n' => loop pow_rho_2 segCwnd n' (cnt + pow_rho_2 / of_uint32 segCwnd)
  end.

(** The counter when the loop of [CongestionAvoidance] has ended. *)
Definition counter (pow_rho_2 : float) (cWnd segmentSize segmentsAcked : Z)
           (cWndCnt : float) : outcome float :=
  if (0 <? segmentsAcked)%Z
  then segCwnd <- U32.div cWnd segmentSize ;;
       Ok (loop pow_rho_2 segCwnd (Z.to_nat segmentsAcked) cWndCnt)
  else Ok cWndCnt.

(** The product that [CongestionAvoidance] casts to uint32_t, and the
    counter it leaves. *)
Definition CongestionAvoidance_product (inc : Z) (scale : float) (segmentSize : Z) : float :=
  of_uint32 inc * scale * of_uint32 segmentSize.
Definition remainder (cnt : float) (inc : Z) : float := cnt - of_uint32 inc.

(** [CongestionAvoidance] on doubles: the new window and the new counter. *)
Definition CongestionAvoidance (pow_rho_2 inFlightThresh rtoScalingFactor srttSeconds : float)
           (sRttSeconds : option float)
           (cWnd segmentSize bytesInFlight nextTxSequence lastAckedSeq : Z)
           (segmentsAcked : Z) (cWndCnt : float)
  : outcome (Z * float) :=
  cnt <- counter pow_rho_2 cWnd segmentSize segmentsAcked cWndCnt ;;
  if 1 <=? cnt then
    inc <- to_uint32 cnt ;;
    let cnt := cnt - of_uint32 inc in
    scale <- ComputeScalingFactor inFlightThresh rtoScalingFactor srttSeconds sRttSeconds
               cWnd segmentSize bytesInFlight nextTxSequence lastAckedSeq ;;
    scaledInc <- to_uint32 (of_uint32 inc * scale * of_uint32 segmentSize) ;;
    Ok (U32.add cWnd scaledInc, cnt)
  else Ok (cWnd, cnt).
End Binary64.

(* ------------------------------------------------------------------ *)
(** ** States used in the examples *)

(** Nothing in flight, nothing outstanding, no RTT measured. *)
Definition tcb_quiet (cwnd ssthresh mss : Z) : TcpSocketState :=
  mkTcb cwnd ssthresh mss 0 0 0 0 0.

(** A window 296 bytes below 2^32, in slow start (the threshold is the
    largest uint32_t) and in congestion avoidance. *)
Definition tcb_large_slow_start : TcpSocketState := tcb_quiet 4294967000 4294967295 1000.
Definition tcb_large_avoidance : TcpSocketState := tcb_quiet 4294967000 65535 1000.

(** A fresh controller with a given counter. *)
Definition hybla_counter (c : R) : TcpHyblaI := set_cWndCnt c TcpHyblaI_new.

(** A busy connection: 9000 of 10000 bytes in flight, a smoothed RTT of
    100 ms on both sides, 25000 sequence numbers outstanding. *)
Definition tcb_busy : TcpSocketState :=
  mkTcb 10000 65535 1000 9000 (MilliSeconds 100) (MilliSeconds 100) 30000 5000.
Definition hybla_100ms : TcpHyblaI := set_sRtt (MilliSeconds 100) TcpHyblaI_new.

(** A socket in slow start with 23300 of 25000 bytes in flight, no RTT
    measured, nothing outstanding. *)
Definition tcb_rounding : TcpSocketState := mkTcb 25000 65535 1000 23300 0 0 0 0.

(** A controller with alpha = 0.75 (a binary64 value, as 1 - alpha is) whose
    smoothed RTT is an odd number of nanoseconds. *)
Definition hybla_odd_tick : TcpHyblaI :=
  configure 0.75 0.8 1 (set_sRtt 100000001 TcpHyblaI_new).

(** A fresh controller whose smoothed RTT is 149.999999 ms. *)
Definition hybla_149ms : TcpHyblaI := set_sRtt 149999999 TcpHyblaI_new.

(** A controller with a reference RTT of half a millisecond, and a socket
    whose minimum RTT is 0.3 ms. *)
Definition hybla_short_reference : TcpHyblaI := mkHyblaI 0 0.9 0.8 1 500000 1 0.
Definition tcb_short_rtt : TcpSocketState := mkTcb 10000 65535 1000 0 300000 0 0 0.

(** The same socket with another amount of data in flight. *)
Definition set_bytesInFlight (b : Z) (tcb : TcpSocketState) : TcpSocketState :=
  mkTcb (m_cWnd tcb) (m_ssThresh tcb) (m_segmentSize tcb) b
        (m_minRtt tcb) (m_srtt tcb) (m_nextTxSequence tcb) (m_lastAckedSeq tcb).

(* ------------------------------------------------------------------ *)
(** ** The simulation driver: trace contexts and trace files

    Source: [tcp-variants.cc].  The driver connects trace sources of the
    sender's socket to callbacks that append lines to per-node streams.

    - [std::size_t] and [unsigned long] are 64 bits wide (LP64): positions
      are integers of [Z] reduced modulo 2^64, and [npos] is 2^64 - 1.
    - A [std::map] read with [operator[]] is a total function: a key that
      was never written holds the value-initialised element ([false], the
      null pointer, [0]).
    - A stream is the list of the lines written so far; the null
      [Ptr<OutputStreamWrapper>] is [None].
    - What ends the call is a [Failed]: an exception of the standard
      library, or the dereference of a null stream pointer. *)

Module Driver.
Import Ascii String List.
Import ListNotations.
Local Open Scope string_scope.
Local Open Scope Z_scope.

Inductive failure : Set :=
| invalid_argument   (* std::invalid_argument: no conversion could be performed *)
| out_of_range       (* std::out_of_range *)
| null_stream.       (* a null Ptr<OutputStreamWrapper> is dereferenced *)

Inductive result (A : Type) : Type :=
| Done (a : A)
| Failed (e : failure).

Arguments Done {A} a.
Arguments Failed {A} e.

Definition and_then {A B : Type} (c : result A) (k : A -> result B) : result B :=
  match c with
  | Done a => k a
  | Failed e => Failed e
  end.

Declare Scope result_scope.
Notation "x <- c ;; k" := (and_then c (fun x => k))
  (at level 61, c at next level, right associativity) : result_scope.
Local Open Scope result_scope.

(** *** std::size_t and std::string *)

Definition size_modulus : Z := 2 ^ 64.
Definition npos : Z := size_modulus - 1.
Definition size_t (z : Z) : Z := z mod size_modulus.
Definition size (s : string) : Z := Z.of_nat (String.length s).

(** [s.find_first_of(c, pos)]: the first position [i >= pos] with
    [s[i] == c], [npos] when there is none; [i] counts the characters
    already passed. *)
Fixpoint find_first_of_at (s : string) (c : ascii) (pos i : Z) : Z :=
  match s with
  | EmptyString => npos
  | String a s' =>
      if (pos <=? i) && Ascii.eqb a c then i
      else find_first_of_at s' c pos (i + 1)
  end.

Definition find_first_of (s : string) (c : ascii) (pos : Z) : Z :=
  find_first_of_at s c pos 0.

(** [s.substr(pos, n)]: throws when [pos > size()], otherwise the characters
    [pos, pos + min(n, size() - pos)). *)
Definition substr (s : string) (pos n : Z) : result string :=
  if size s <? pos then Failed out_of_range
  else Done (substring (Z.to_nat pos) (Z.to_nat (Z.min n (size s - pos))) s).

(** *** std::stoul and std::to_string *)

Definition isspace (a : ascii) : bool :=
  let n := N_of_ascii a in
  (n =? 32)%N || ((9 <=? n)%N && (n <=? 13)%N).

Definition isdigit (a : ascii) : bool :=
  let n := N_of_ascii a in
  (48 <=? n)%N && (n <=? 57)%N.

Definition digit_value (a : ascii) : Z := Z.of_N (N_of_ascii a) - 48.

Fixpoint skip_spaces (s : string) : string :=
  match s with
  | String a s' => if isspace a then skip_spaces s' else s
  | EmptyString => s
  end.

(** The value of the longest prefix of decimal digits, after [acc]. *)
Fixpoint digits_value (s : string) (acc : Z) : Z :=
  match s with
  | String a s' =>
      if isdigit a then digits_value s' (10 * acc + digit_value a) else acc
  | EmptyString => acc
  end.

Definition starts_with_digit (s : string) : bool :=
  match s with
  | String a _ => isdigit a
  | EmptyString => false
  end.

(** [std::stoul(s)], base 10, through [strtoul]: white space, an optional
    sign, then digits.  No digit: [std::invalid_argument]; a magnitude above
    [ULONG_MAX]: [std::out_of_range]; a minus sign negates in
    [unsigned long]. *)
Definition stoul (s : string) : result Z :=
  let s1 := skip_spaces s in
  let '(negative, s2) :=
    match s1 with
    | String "-" r => (true, r)
    | String "+" r => (false, r)
    | _ => (false, s1)
    end in
  if starts_with_digit s2 then
    let v := digits_value s2 0 in
    if npos <? v then Failed out_of_range
    else Done (if negative then size_t (- v) else v)
  else Failed invalid_argument.

Definition digit_char (d : Z) : ascii := ascii_of_N (Z.to_N (48 + d)).

(** The decimal digits of [n] before [acc], least significant digit first
    into the front; [fuel] bounds the number of digits. *)
Fixpoint to_string_digits (fuel : nat) (n : Z) (acc : string) : string :=
  match fuel with
  | O => acc
  | S fuel' =>
      let acc' := String (digit_char (n mod 10)) acc in
      if n / 10 =? 0 then acc' else to_string_digits fuel' (n / 10) acc'
  end.

(** [std::to_string(n)] for an unsigned [n]: at most 20 digits. *)
Definition to_string (n : Z) : string := to_string_digits 20 n "".

(** *** GetNodeIdFromContext *)

(** The [unsigned long] of [stoul] is returned as [uint32_t]. *)
Definition GetNodeIdFromContext (context : string) : result Z :=
  let n1 := find_first_of context "/" 1 in
  let n2 := find_first_of context "/" (size_t (n1 + 1)) in
  sub <- substr context (size_t (n1 + 1)) (size_t (n2 - n1 - 1)) ;;
  v <- stoul sub ;;
  Done (U32.wrap v).

(** The paths that the [Trace...] functions connect, which come back as the
    context of the callback: ["/NodeList/" + std::to_string(nodeId) + suffix]. *)
Definition trace_path (nodeId : Z) (suffix : string) : string :=
  "/NodeList/" ++ to_string nodeId ++ suffix.

Definition cwnd_path (nodeId : Z) : string :=
  trace_path nodeId "/$ns3::TcpL4Protocol/SocketList/0/CongestionWindow".

Definition ssthresh_path (nodeId : Z) : string :=
  trace_path nodeId "/$ns3::TcpL4Protocol/SocketList/0/SlowStartThreshold".

(** The string holds no [c]. *)
Fixpoint lacks (c : ascii) (s : string) : bool :=
  match s with
  | String a s' => negb (Ascii.eqb a c) && lacks c s'
  | EmptyString => true
  end.

(** The string holds decimal digits only. *)
Fixpoint digits_only (s : string) : bool :=
  match s with
  | String a s' => isdigit a && digits_only s'
  | EmptyString => true
  end.

(** *** The trace files of the window and of the threshold *)

Inductive line : Type :=
| Initial (value : Z)           (* "0.0 " << oldval *)
| Sample (now : R) (value : Z). (* Simulator::Now().GetSeconds() << " " << value *)

Definition stream_map : Type := Z -> option (list line).

Record traces : Type := mkTraces {
  firstCwnd : Z -> bool;
  firstSshThr : Z -> bool;
  cWndStream : stream_map;
  ssThreshStream : stream_map;
  cWndValue : Z -> Z;
  ssThreshValue : Z -> Z
}.

(** [m[k] = v] *)
Definition assign {A : Type} (m : Z -> A) (k : Z) (v : A) : Z -> A :=
  fun k' => if k' =? k then v else m k'.

(** [*m[nodeId]->GetStream() << l << std::endl] *)
Definition write (m : stream_map) (nodeId : Z) (l : line) : result stream_map :=
  match m nodeId with
  | Some ls => Done (assign m nodeId (Some (ls ++ [l])%list))
  | None => Failed null_stream
  end.

(** The maps before [main] touches them. *)
Definition no_traces : traces :=
  mkTraces (fun _ => false) (fun _ => false) (fun _ => None) (fun _ => None)
           (fun _ => 0) (fun _ => 0).

(** [main]: [firstCwnd[index + 1] = true; firstSshThr[index + 1] = true]. *)
Definition mark_first (nodeId : Z) (t : traces) : traces :=
  mkTraces (assign (firstCwnd t) nodeId true) (assign (firstSshThr t) nodeId true)
           (cWndStream t) (ssThreshStream t) (cWndValue t) (ssThreshValue t).

(** [TraceCwnd]: a new, empty file for the node. *)
Definition TraceCwnd (nodeId : Z) (t : traces) : traces :=
  mkTraces (firstCwnd t) (firstSshThr t)
           (assign (cWndStream t) nodeId (Some [])) (ssThreshStream t)
           (cWndValue t) (ssThreshValue t).

Definition TraceSsThresh (nodeId : Z) (t : traces) : traces :=
  mkTraces (firstCwnd t) (firstSshThr t)
           (cWndStream t) (assign (ssThreshStream t) nodeId (Some []))
           (cWndValue t) (ssThreshValue t).

Definition CwndTracer (now : R) (context : string) (oldval newval : Z)
    (t : traces) : result traces :=
  nodeId <- GetNodeIdFromContext context ;;
  first <- (if firstCwnd t nodeId
            then s <- write (cWndStream t) nodeId (Initial oldval) ;;
                 Done (assign (firstCwnd t) nodeId false, s)
            else Done (firstCwnd t, cWndStream t)) ;;
  s <- write (snd first) nodeId (Sample now newval) ;;
  let value := assign (cWndValue t) nodeId newval in
  if negb (firstSshThr t nodeId)
  then s' <- write (ssThreshStream t) nodeId (Sample now (ssThreshValue t nodeId)) ;;
       Done (mkTraces (fst first) (firstSshThr t) s s' value (ssThreshValue t))
  else Done (mkTraces (fst first) (firstSshThr t) s (ssThreshStream t)
                      value (ssThreshValue t)).

Definition SsThreshTracer (now : R) (context : string) (oldval newval : Z)
    (t : traces) : result traces :=
  nodeId <- GetNodeIdFromContext context ;;
  first <- (if firstSshThr t nodeId
            then s <- write (ssThreshStream t) nodeId (Initial oldval) ;;
                 Done (assign (firstSshThr t) nodeId false, s)
            else Done (firstSshThr t, ssThreshStream t)) ;;
  s <- write (snd first) nodeId (Sample now newval) ;;
  let value := assign (ssThreshValue t) nodeId newval in
  if negb (firstCwnd t nodeId)
  then s' <- write (cWndStream t) nodeId (Sample now (cWndValue t nodeId)) ;;
       Done (mkTraces (firstCwnd t) (fst first) s' s (cWndValue t) value)
  else Done (mkTraces (firstCwnd t) (fst first) (cWndStream t) s
                      (cWndValue t) value).

(** What the simulator runs: the scheduled connections of a node and the
    callbacks of the connected trace sources. *)
Inductive event : Type :=
| ConnectCwnd (nodeId : Z)
| ConnectSsThresh (nodeId : Z)
| CwndChange (now : R) (context : string) (oldval newval : Z)
| SsThreshChange (now : R) (context : string) (oldval newval : Z).

Definition fire (e : event) (t : traces) : result traces :=
  match e with
  | ConnectCwnd nodeId => Done (TraceCwnd nodeId t)
  | ConnectSsThresh nodeId => Done (TraceSsThresh nodeId t)
  | CwndChange now context oldval newval => CwndTracer now context oldval newval t
  | SsThreshChange now context oldval newval => SsThreshTracer now context oldval newval t
  end.

Fixpoint run (es : list event) (t : traces) : result traces :=
  match es with
  | [] => Done t
  | e :: es' => t' <- fire e t ;; run es' t'
  end.

(** A stream that holds the initial line and then samples only. *)
Definition is_sample (l : line) : bool :=
  match l with
  | Sample _ _ => true
  | Initial _ => false
  end.

Definition well_formed (ls : list line) : bool :=
  match ls with
  | Initial _ :: Sample _ _ :: rest => forallb is_sample rest
  | _ => false
  end.

(** The value of the last line. *)
Definition last_value (ls : list line) : option Z :=
  match last ls (Initial 0) with
  | Sample _ v => Some v
  | Initial _ => None
  end.

(** The event opens a file of the node again. *)
Definition reconnects (nodeId : Z) (e : event) : bool :=
  match e with
  | ConnectCwnd n | ConnectSsThresh n => n =? nodeId
  | _ => false
  end.

(** The event is a change reported with the node's own path. *)
Definition reported_by (nodeId : Z) (e : event) : bool :=
  match e with
  | CwndChange _ context _ _ => String.eqb context (cwnd_path nodeId)
  | SsThreshChange _ context _ _ => String.eqb context (ssthresh_path nodeId)
  | _ => false
  end.

(** The node whose map entries the event works on. *)
Definition target (e : event) : result Z :=
  match e with
  | ConnectCwnd n | ConnectSsThresh n => Done n
  | CwndChange _ context _ _ | SsThreshChange _ context _ _ =>
      GetNodeIdFromContext context
  end.

(** One file of a node: nothing before the first change, afterwards the
    initial line, then samples, the last of which holds the tracked value. *)
Definition file_invariant (first : bool) (file : option (list line)) (value : Z) : Prop :=
  exists ls, file = Some ls /\
    if first then ls = []
    else well_formed ls = true /\ last_value ls = Some value.

Definition trace_invariant (nodeId : Z) (t : traces) : Prop :=
  file_invariant (firstCwnd t nodeId) (cWndStream t nodeId) (cWndValue t nodeId) /\
  file_invariant (firstSshThr t nodeId) (ssThreshStream t nodeId) (ssThreshValue t nodeId).

(** Example: main has set the flags of nodes 1 and 2; node 1 is connected,
    reports a first window of 340 bytes and then a threshold change. *)
Definition flows_marked : traces := mark_first 2 (mark_first 1 no_traces).

Definition first_changes : list event :=
  [CwndChange 0 (cwnd_path 1) 0 340;
   SsThreshChange 1 (ssthresh_path 1) 4294967295 680;
   ConnectCwnd 2; ConnectSsThresh 2;
   CwndChange 2 (cwnd_path 2) 0 340].

End Driver.

(* ------------------------------------------------------------------ *)
(** ** The file server: request lines

    Source: [ServerThreads.java], [ClientThreads.java].  The string
    computations that [ServerThreads.run] makes on the request line, without
    the sockets and the file system.  Strings are sequences of 8-bit
    characters; [split] is [String.split] for a pattern of one literal
    character, [replace] is [String.replace] for a non-empty target. *)

Module Http.
Import Ascii String List.
Import ListNotations.
Local Open Scope string_scope.

Inductive exception : Set :=
| ArrayIndexOutOfBoundsException
| StringIndexOutOfBoundsException.

Inductive result (A : Type) : Type :=
| Returned (a : A)
| Thrown (e : exception).

Arguments Returned {A} a.
Arguments Thrown {A} e.

Definition backslash : string := String (ascii_of_nat 92) "".

(** *** java.lang.String *)

Definition startsWith (s prefix : string) : bool := String.prefix prefix s.

(** Some suffix of [s] is [suffix]. *)
Fixpoint endsWith (s suffix : string) : bool :=
  String.eqb s suffix ||
  match s with
  | String _ s' => endsWith s' suffix
  | EmptyString => false
  end.

Fixpoint contains (s : string) (c : ascii) : bool :=
  match s with
  | String a s' => Ascii.eqb a c || contains s' c
  | EmptyString => false
  end.

(** The substrings of [s] around every [c], empty ones included. *)
Fixpoint fields (s : string) (c : ascii) : list string :=
  match s with
  | EmptyString => [""]
  | String a s' =>
      if Ascii.eqb a c then "" :: fields s' c
      else match fields s' c with
           | f :: fs => String a f :: fs
           | [] => [String a ""]
           end
  end.

Fixpoint drop_trailing_empty (l : list string) : list string :=
  match l with
  | [] => []
  | x :: l' =>
      match drop_trailing_empty l' with
      | [] => if String.eqb x "" then [] else [x]
      | kept => x :: kept
      end
  end.

(** [s.split(c)]: the input alone when there is no match, otherwise the
    substrings around the matches without the trailing empty ones. *)
Definition split (s : string) (c : ascii) : list string :=
  if contains s c then drop_trailing_empty (fields s c) else [s].

(** [s.replace(target, replacement)], [target] not empty: every occurrence
    from the left; [skip] counts the characters of an occurrence that are
    still to be passed. *)
Fixpoint replace_from (s target replacement : string) (skip : nat) : string :=
  match s with
  | EmptyString => ""
  | String a s' =>
      match skip with
      | S k => replace_from s' target replacement k
      | O =>
          if String.prefix target s
          then replacement ++ replace_from s' target replacement (String.length target - 1)
          else String a (replace_from s' target replacement 0)
      end
  end.

Definition replace (s target replacement : string) : string :=
  replace_from s target replacement 0.

(** [s.substring(beginIndex)] *)
Definition substring_from (s : string) (beginIndex : nat) : result string :=
  if (String.length s <? beginIndex)%nat then Thrown StringIndexOutOfBoundsException
  else Returned (substring beginIndex (String.length s - beginIndex) s).

(** *** GET: the path of the request *)

(** The loop [for (i = 1; i < inputs.length - 1; i++)] over the elements
    after the first: the element before the last has its [" HTTP"] removed,
    the ones before it are followed by a backslash, the last is left out. *)
Fixpoint pathExtract (rest : list string) : string :=
  match rest with
  | [] => ""
  | [_] => ""
  | [x; _] => replace x " HTTP" ""
  | x :: rest' => x ++ backslash ++ pathExtract rest'
  end.

Definition extractedPath (httpRequestInput : string) : string :=
  pathExtract (tl (split httpRequestInput "/")).

(** A path component of a URL: no slash, no space. *)
Definition plain (c : string) : bool :=
  negb (contains c "/") && negb (contains c " ").

(** What [split] makes of the request line of a browser, after ["GET "]. *)
Fixpoint pieces (cs : list string) : list string :=
  match cs with
  | [] => [" HTTP"; "1.1"]
  | [x] => [x ++ " HTTP"; "1.1"]
  | x :: cs' => x :: pieces cs'
  end.

(** The name given to [new File(...)]. *)
Definition requested_file (rootPath httpRequestInput : string) : string :=
  let path := extractedPath httpRequestInput in
  if String.eqb path "" then rootPath
  else rootPath ++ backslash ++ (replace path "%20" " " ++ backslash).

(** The request line of a browser for the path components [cs]. *)
Definition get_request (cs : list string) : string :=
  "GET /" ++ String.concat "/" cs ++ " HTTP/1.1".

(** The [Content-Type] header of an existing file, by its name. *)
Definition content_type (name : string) : string :=
  if endsWith name "txt" then "text/html"
  else if endsWith name "jpg" || endsWith name "jpeg" then "image/jpeg"
  else if endsWith name "PNG" then "image/png"
  else "application/x-force-download".

(** *** UPLOAD *)

(** [ClientThreads.run]: the request line for [filename]. *)
Definition upload_request (filename : string) : string := "UPLOAD " ++ filename.

Definition valid_name (filename : string) : bool :=
  endsWith filename "txt" || endsWith filename "jpg" || endsWith filename "png" ||
  endsWith filename "jpeg" || endsWith filename "mp4".

Inductive upload_reply : Type :=
| valid (file : string)   (* "valid" is answered, the body goes to [file] *)
| invalid.                (* "invalid" is answered *)

(** The branch [httpRequestInput.startsWith("UPLOAD")]. *)
Definition upload (uploadPath httpRequestInput : string) : result upload_reply :=
  match nth_error (split httpRequestInput " ") 1 with
  | None => Thrown ArrayIndexOutOfBoundsException
  | Some filename =>
      if valid_name filename then
        match substring_from httpRequestInput 7 with
        | Returned name => Returned (valid (uploadPath ++ backslash ++ name))
        | Thrown e => Thrown e
        end
      else Returned invalid
  end.

(** A string of [n] spaces. *)
Fixpoint spaces (n : nat) : string :=
  match n with
  | O => ""
  | S n' => String " " (spaces n')
  end.

End Http.

(* ================================================================== *)
(** * Basic facts on the number model *)

(** Repeated steps: bounds of uint32_t, and the value of 2^32
    as a real. *)
Ltac u32_range := unfold U32.in_range, U32.max_value, U32.modulus in *; lia.
Ltac modulus_value :=
  unfold U32.modulus; replace (IZR (2 ^ 32)) with 4294967296 by (simpl; lra).

Lemma std_max_Rmax (a b : R) : std_max a b = Rmax a b.
Proof.
  unfold std_max, Rmax.
  destruct (Rlt_dec a b) as [Hlt | Hge]; destruct (Rle_dec a b) as [Hle | Hnle];
    try reflexivity; lra.
Qed.

Lemma std_max_lower_r (a b : R) : b <= std_max a b.
Proof. unfold std_max; destruct (Rlt_dec a b); lra. Qed.

Lemma std_max_lower_l (a b : R) : a <= std_max a b.
Proof. unfold std_max; destruct (Rlt_dec a b); lra. Qed.

Lemma std_max_upper (a b c : R) : a <= c -> b <= c -> std_max a b <= c.
Proof. unfold std_max; destruct (Rlt_dec a b); lra. Qed.

Lemma std_min_Zmin (a b : Z) : std_min a b = Z.min a b.
Proof. unfold std_min; destruct (Z.ltb_spec b a); lia. Qed.

Lemma ddiv_Ok (a b : R) : b <> 0 -> ddiv a b = Ok (a / b).
Proof. intro Hb; unfold ddiv; destruct (Req_dec_T b 0); [contradiction | reflexivity]. Qed.

Lemma ddiv_zero (a : R) : ddiv a 0 = Fault NotFinite.
Proof. unfold ddiv; destruct (Req_dec_T 0 0); [reflexivity | contradiction]. Qed.

Lemma Int_part_bounds (x : R) : IZR (Int_part x) <= x < IZR (Int_part x) + 1.
Proof. destruct (base_Int_part x); lra. Qed.

Lemma Int_part_unique (x : R) (z : Z) : IZR z <= x < IZR z + 1 -> Int_part x = z.
Proof. intros [H1 H2]; symmetry; apply Int_part_spec; lra. Qed.

Lemma Int_part_nonneg (x : R) : 0 <= x -> (0 <= Int_part x)%Z.
Proof.
  intro Hx. destruct (Int_part_bounds x) as [_ H].
  apply Z.lt_succ_r, lt_IZR. rewrite succ_IZR. lra.
Qed.

Lemma Int_part_IZR (z : Z) : Int_part (IZR z) = z.
Proof. apply Int_part_unique; lra. Qed.

Lemma Rtrunc_nonneg (x : R) : 0 <= x -> Rtrunc x = Int_part x.
Proof. intro Hx; unfold Rtrunc; destruct (Rle_dec 0 x); [reflexivity | contradiction]. Qed.

Lemma Rtrunc_IZR (z : Z) : Rtrunc (IZR z) = z.
Proof.
  unfold Rtrunc; destruct (Rle_dec 0 (IZR z)).
  - apply Int_part_IZR.
  - rewrite <- opp_IZR, Int_part_IZR; lia.
Qed.

(** The cast is defined on [0, 2^32) and keeps the integer part there. *)
Lemma to_uint32_floor (x : R) :
  0 <= x -> x < IZR U32.modulus -> to_uint32 x = Ok (Int_part x).
Proof.
  intros H0 H1. unfold to_uint32. rewrite Rtrunc_nonneg by assumption.
  pose proof (Int_part_nonneg x H0) as Hn.
  destruct (Int_part_bounds x) as [Hl _].
  assert (Int_part x < U32.modulus)%Z by (apply lt_IZR; lra).
  destruct (Z.leb_spec 0 (Int_part x)); [| lia].
  destruct (Z.ltb_spec (Int_part x) U32.modulus); [reflexivity | lia].
Qed.

Lemma to_uint32_range (x : R) (z : Z) : to_uint32 x = Ok z -> U32.in_range z.
Proof.
  unfold to_uint32, U32.in_range. intro H.
  destruct (Z.leb_spec 0 (Rtrunc x)); destruct (Z.ltb_spec (Rtrunc x) U32.modulus);
    simpl in H; inversion H; subst; lia.
Qed.

Lemma to_uint32_nonneg_inv (x : R) (z : Z) :
  0 <= x -> to_uint32 x = Ok z -> z = Int_part x.
Proof.
  intros Hx H. unfold to_uint32 in H. rewrite Rtrunc_nonneg in H by assumption.
  destruct ((0 <=? Int_part x) && (Int_part x <? U32.modulus))%Z; inversion H; reflexivity.
Qed.

Lemma Seconds_0 : Seconds 0 = 0.
Proof. unfold Seconds; lra. Qed.

Lemma bind_Ok_inv {A B : Type} (c : outcome A) (k : A -> outcome B) (b : B) :
  bind c k = Ok b -> exists a, c = Ok a /\ k a = Ok b.
Proof. destruct c as [a | f]; simpl; intro H; [eauto | discriminate]. Qed.

Tactic Notation "bind_inv" hyp(H) "as" ident(a) ident(Ha) :=
  apply bind_Ok_inv in H; destruct H as [a [Ha H]].

(* ================================================================== *)
(** * The scaling factor *)

Create HintDb hybla.
#[local] Hint Resolve std_max_lower_r std_max_lower_l std_max_upper : hybla.

Lemma product_le_1 (a b c : R) :
  0.5 <= a <= 1 -> 0 < b <= 1 -> (c = 0.9 \/ c = 1) -> 0 < a * b * c <= 1.
Proof. intros Ha Hb [Hc | Hc]; subst c; nra. Qed.

Section ScalingFactor.

Variable h : TcpHyblaI.
Variable tcb : TcpSocketState.

(** The two guarded quotients never fault. *)
Lemma inflightRatio_total : exists r, inflightRatio tcb = Ok r.
Proof.
  unfold inflightRatio. destruct (Rlt_dec 0 (IZR (m_cWnd tcb))) as [Hpos | Hn].
  - rewrite ddiv_Ok by lra. eauto.
  - eauto.
Qed.

Lemma rtoRatio_total : exists r, rtoRatio h tcb = Ok r /\ 1 <= r.
Proof.
  unfold rtoRatio. destruct (IsZero (m_sRtt h)) as [Hz | Hnz]; cbn [bind].
  - eexists; split; [reflexivity | auto with hybla].
  - rewrite ddiv_Ok by (unfold GetSeconds; lra). cbn [bind].
    eexists; split; [reflexivity | auto with hybla].
Qed.

Lemma inflightFactor_range (ratio : R) : 0.5 <= inflightFactor h ratio <= 1.
Proof.
  unfold inflightFactor. destruct (Rlt_dec (m_inFlightThresh h) ratio) as [Hgt | Hle].
  - split; [auto with hybla | apply std_max_upper; lra].
  - lra.
Qed.

(** What the attribute checker and the socket guarantee. *)
Hypothesis Hk : 0 <= m_rtoScalingFactor h.
Hypothesis Hs : m_segmentSize tcb <> 0%Z.

Lemma outstandingFactor_total :
  exists f, outstandingFactor tcb = Ok f /\ (f = 0.9 \/ f = 1).
Proof.
  unfold outstandingFactor, GetCwndInSegments, U32.div.
  destruct (Z.eqb_spec (m_segmentSize tcb) 0); [contradiction |]. cbn [bind].
  eexists; split; [reflexivity |].
  destruct (_ <? _)%Z; [left | right]; reflexivity.
Qed.

Lemma rtoFactor_total (ratio : R) :
  1 <= ratio -> exists f, rtoFactor h ratio = Ok f /\ 0 < f <= 1.
Proof.
  intro Hr. unfold rtoFactor.
  assert (Hd : 1 <= 1 + (ratio - 1) * m_rtoScalingFactor h) by nra.
  rewrite ddiv_Ok by lra. eexists; split; [reflexivity |].
  split.
  - apply Rdiv_lt_0_compat; lra.
  - apply (Rmult_le_reg_r (1 + (ratio - 1) * m_rtoScalingFactor h)); [lra |].
    unfold Rdiv. rewrite Rmult_assoc, Rinv_l by lra. lra.
Qed.

(** The decomposition of a call of [ComputeScalingFactor], shared by the
    statements below. *)
Lemma ComputeScalingFactor_factors :
  exists ir rr rf osf,
    inflightRatio tcb = Ok ir /\ rtoRatio h tcb = Ok rr /\
    rtoFactor h rr = Ok rf /\ outstandingFactor tcb = Ok osf /\
    0 < rf <= 1 /\ (osf = 0.9 \/ osf = 1) /\
    ComputeScalingFactor h tcb = Ok (std_max (inflightFactor h ir * rf * osf) 0.5).
Proof.
  destruct inflightRatio_total as [ir Hir].
  destruct rtoRatio_total as [rr [Hrr Hrr1]].
  destruct (rtoFactor_total rr Hrr1) as [rf [Hrf Hrfb]].
  destruct outstandingFactor_total as [osf [Hosf Hosfv]].
  exists ir, rr, rf, osf. repeat (split; [assumption |]).
  unfold ComputeScalingFactor. rewrite Hir, Hrr, Hosf; cbn [bind]. rewrite Hrf; reflexivity.
Qed.

End ScalingFactor.

(** C1. For every valid snapshot and every controller whose attributes are
    within their checkers, [ComputeScalingFactor] returns a value in
    [0.5, 1.0]: the product of inflightFactor, rtoFactor and
    outstandingFactor is at most 1.0, and the result is that product
    clamped below at 0.5. *)
Theorem ComputeScalingFactor_range (h : TcpHyblaI) (tcb : TcpSocketState) :
  valid_config h -> valid_snapshot tcb -> 0 < m_rRtt h ->
  exists ir rr rf osf,
    inflightRatio tcb = Ok ir /\ rtoRatio h tcb = Ok rr /\
    rtoFactor h rr = Ok rf /\ outstandingFactor tcb = Ok osf /\
    inflightFactor h ir * rf * osf <= 1 /\
    ComputeScalingFactor h tcb = Ok (Rmax (inflightFactor h ir * rf * osf) 0.5) /\
    0.5 <= Rmax (inflightFactor h ir * rf * osf) 0.5 <= 1.
Proof.
  intros [_ Hk] Hv _.
  assert (Hs : m_segmentSize tcb <> 0%Z) by (unfold valid_snapshot in Hv; lia).
  destruct (ComputeScalingFactor_factors h tcb Hk Hs)
    as (ir & rr & rf & osf & Hir & Hrr & Hrf & Hosf & Hrfb & Hosfv & Hc).
  exists ir, rr, rf, osf. repeat (split; [assumption |]).
  pose proof (product_le_1 _ _ _ (inflightFactor_range h ir) Hrfb Hosfv) as Hp.
  rewrite <- std_max_Rmax. split; [lra |]. split; [assumption |].
  split; [apply std_max_lower_r | apply std_max_upper; lra].
Qed.

Lemma valid_tcb_busy : valid_snapshot tcb_busy.
Proof. unfold valid_snapshot, U32.in_range, U32.modulus, tcb_busy; cbn; lia. Qed.

Lemma valid_hybla_100ms : valid_config hybla_100ms.
Proof. unfold valid_config, hybla_100ms; cbn; lra. Qed.

(** On the busy connection the three factors are 0.95, 0.5 and 0.9; their
    product 0.4275 is clamped to 0.5. *)
Example ComputeScalingFactor_busy : ComputeScalingFactor hybla_100ms tcb_busy = Ok 0.5.
Proof.
  assert (Hir : inflightRatio tcb_busy = Ok (9000 / 10000)).
  { unfold inflightRatio, tcb_busy; cbn [m_cWnd m_bytesInFlight].
    destruct (Rlt_dec 0 10000); [| lra]. apply ddiv_Ok. lra. }
  assert (Hrr : rtoRatio hybla_100ms tcb_busy = Ok 2).
  { unfold rtoRatio, hybla_100ms, tcb_busy, GetSeconds, MilliSeconds;
      cbn [m_sRtt m_srtt set_sRtt].
    destruct (IsZero (100 * 1000000)); [lra |].
    rewrite ddiv_Ok by lra. cbn [bind]. f_equal.
    unfold std_max.
    destruct (Rlt_dec (100 * 1000000 / 1000000000 * 2 / (100 * 1000000 / 1000000000)) 1);
      lra. }
  assert (Hosf : outstandingFactor tcb_busy = Ok 0.9) by reflexivity.
  assert (Hrf : rtoFactor hybla_100ms 2 = Ok (1 / 2)).
  { unfold rtoFactor, hybla_100ms; cbn [m_rtoScalingFactor set_sRtt TcpHyblaI_new].
    rewrite ddiv_Ok by lra. f_equal. lra. }
  unfold ComputeScalingFactor. rewrite Hir, Hrr, Hosf. cbn [bind]. rewrite Hrf. cbn [bind].
  f_equal. unfold inflightFactor, hybla_100ms;
    cbn [m_inFlightThresh set_sRtt TcpHyblaI_new].
  destruct (Rlt_dec 0.8 (9000 / 10000)); [| lra].
  unfold std_max.
  destruct (Rlt_dec (1 - (9000 / 10000 - 0.8) * 0.5) 0.5); [lra |].
  destruct (Rlt_dec ((1 - (9000 / 10000 - 0.8) * 0.5) * (1 / 2) * 0.9) 0.5); lra.
Qed.

Lemma ComputeScalingFactor_range_witness :
  exists ir rr rf osf,
    inflightRatio tcb_busy = Ok ir /\ rtoRatio hybla_100ms tcb_busy = Ok rr /\
    rtoFactor hybla_100ms rr = Ok rf /\ outstandingFactor tcb_busy = Ok osf /\
    inflightFactor hybla_100ms ir * rf * osf <= 1 /\
    ComputeScalingFactor hybla_100ms tcb_busy
    = Ok (Rmax (inflightFactor hybla_100ms ir * rf * osf) 0.5) /\
    0.5 <= Rmax (inflightFactor hybla_100ms ir * rf * osf) 0.5 <= 1.
Proof.
  apply (ComputeScalingFactor_range hybla_100ms tcb_busy).
  - exact valid_hybla_100ms.
  - exact valid_tcb_busy.
  - unfold hybla_100ms, TcpHyblaI_new, MilliSeconds; cbn [m_rRtt set_sRtt]. lra.
Defined.

(** C7. [ComputeScalingFactor] is total on the edge cases: with
    congestionWindow = 0 the in-flight ratio is 0 and with smoothedRtt = 0
    the RTO ratio is 1.0, no division by zero occurs, and the factor
    returned lies in [0.5, 1.0]. *)
Theorem ComputeScalingFactor_edge_cases (h : TcpHyblaI) (tcb : TcpSocketState) :
  valid_config h -> valid_snapshot tcb ->
  (m_cWnd tcb = 0%Z -> inflightRatio tcb = Ok 0) /\
  (m_sRtt h = 0 -> rtoRatio h tcb = Ok 1) /\
  (m_cWnd tcb = 0%Z \/ m_sRtt h = 0 ->
   exists f, ComputeScalingFactor h tcb = Ok f /\ 0.5 <= f <= 1).
Proof.
  intros [_ Hk] Hv.
  assert (Hs : m_segmentSize tcb <> 0%Z) by (unfold valid_snapshot in Hv; lia).
  split; [| split].
  - intro Hc. unfold inflightRatio. rewrite Hc.
    destruct (Rlt_dec 0 0) as [Hlt | _]; [lra | reflexivity].
  - intro Hz. unfold rtoRatio.
    destruct (IsZero (m_sRtt h)) as [_ | Hnz]; [| contradiction]. simpl.
    unfold std_max. destruct (Rlt_dec 1 1); [lra | reflexivity].
  - intros _.
    destruct (ComputeScalingFactor_factors h tcb Hk Hs)
      as (ir & rr & rf & osf & _ & _ & _ & _ & Hrfb & Hosfv & Hc).
    pose proof (product_le_1 _ _ _ (inflightFactor_range h ir) Hrfb Hosfv) as Hp.
    eexists; split; [exact Hc |].
    split; [apply std_max_lower_r | apply std_max_upper; lra].
Qed.

Lemma ComputeScalingFactor_edge_cases_witness :
  inflightRatio (tcb_quiet 0 65535 1000) = Ok 0 /\
  rtoRatio TcpHyblaI_new (tcb_quiet 0 65535 1000) = Ok 1 /\
  exists f, ComputeScalingFactor TcpHyblaI_new (tcb_quiet 0 65535 1000) = Ok f /\
            0.5 <= f <= 1.
Proof.
  destruct (ComputeScalingFactor_edge_cases TcpHyblaI_new (tcb_quiet 0 65535 1000))
    as (Hi & Hr & Hf).
  - unfold valid_config; cbn; lra.
  - unfold valid_snapshot, U32.in_range, U32.modulus; cbn; lia.
  - split; [apply Hi; reflexivity |].
    split; [apply Hr; cbn; unfold Seconds; lra |].
    apply Hf. left; reflexivity.
Defined.

(** A snapshot with nothing in flight and nothing outstanding, read by a
    controller that has no RTT sample yet: the factor is 1. *)
Lemma ComputeScalingFactor_quiet (h : TcpHyblaI) (tcb : TcpSocketState) :
  m_sRtt h = 0 -> 0 <= m_inFlightThresh h ->
  m_bytesInFlight tcb = 0%Z -> m_nextTxSequence tcb = m_lastAckedSeq tcb ->
  (0 <= m_cWnd tcb)%Z -> (0 < m_segmentSize tcb)%Z ->
  ComputeScalingFactor h tcb = Ok 1.
Proof.
  intros Hz Ht Hf Hseq Hc Hs.
  assert (Hir : inflightRatio tcb = Ok 0).
  { unfold inflightRatio. rewrite Hf.
    destruct (Rlt_dec 0 (IZR (m_cWnd tcb))); [| reflexivity].
    rewrite ddiv_Ok by lra. f_equal. unfold Rdiv. apply Rmult_0_l. }
  assert (Hrr : rtoRatio h tcb = Ok 1).
  { unfold rtoRatio. destruct (IsZero (m_sRtt h)); [| contradiction]. simpl.
    unfold std_max. destruct (Rlt_dec 1 1); [lra | reflexivity]. }
  assert (Hosf : outstandingFactor tcb = Ok 1).
  { unfold outstandingFactor, GetCwndInSegments, U32.div.
    destruct (Z.eqb_spec (m_segmentSize tcb) 0); [lia |]. simpl.
    rewrite Hseq. unfold U32.sub, U32.mul, U32.wrap. rewrite Z.sub_diag.
    change (0 mod U32.modulus)%Z with 0%Z.
    destruct (Z.ltb_spec ((m_cWnd tcb / m_segmentSize tcb * 2) mod U32.modulus) 0);
      [| reflexivity].
    pose proof (Z.mod_pos_bound (m_cWnd tcb / m_segmentSize tcb * 2) U32.modulus
                  ltac:(reflexivity)). lia. }
  assert (Hrf : rtoFactor h 1 = Ok 1).
  { unfold rtoFactor. rewrite ddiv_Ok by lra. f_equal. field. }
  unfold ComputeScalingFactor. rewrite Hir, Hrr, Hosf. simpl. rewrite Hrf. simpl.
  f_equal. unfold inflightFactor.
  destruct (Rlt_dec (m_inFlightThresh h) 0); [lra |].
  unfold std_max. destruct (Rlt_dec (1 * 1 * 1) 0.5); lra.
Qed.

Ltac quiet_scale :=
  apply ComputeScalingFactor_quiet; cbn;
  first [reflexivity | lia | lra | apply Seconds_0].

(** The scaling factor reads neither the counter nor rho. *)
Lemma ComputeScalingFactor_set_cWndCnt (c : R) (h : TcpHyblaI) (tcb : TcpSocketState) :
  ComputeScalingFactor (set_cWndCnt c h) tcb = ComputeScalingFactor h tcb.
Proof. reflexivity. Qed.

(* ================================================================== *)
(** * RTT smoothing and rho *)

Lemma GetMilliSeconds_MilliSeconds (z : Z) : GetMilliSeconds (MilliSeconds z) = z.
Proof.
  unfold GetMilliSeconds, MilliSeconds.
  replace (IZR z * 1000000 / 1000000) with (IZR z) by (field; lra).
  apply Rtrunc_IZR.
Qed.

Lemma GetMilliSeconds_floor (t : Time) (z : Z) :
  (0 <= z)%Z -> MilliSeconds z <= t < MilliSeconds z + MilliSeconds 1 ->
  GetMilliSeconds t = z.
Proof.
  unfold MilliSeconds, GetMilliSeconds. intros Hz [Hl Hu].
  assert (0 <= IZR z) by (apply IZR_le; assumption).
  rewrite Rtrunc_nonneg by lra. apply Int_part_unique. lra.
Qed.

Lemma GetMilliSeconds_pos (t : Time) : MilliSeconds 1 <= t -> (1 <= GetMilliSeconds t)%Z.
Proof.
  unfold MilliSeconds, GetMilliSeconds. intro Ht.
  rewrite Rtrunc_nonneg by lra.
  destruct (Int_part_bounds (t / 1000000)) as [_ Hu].
  assert (0 < IZR (Int_part (t / 1000000))) by lra.
  apply lt_0_IZR in H. lia.
Qed.

Lemma candidateRho_Ok (h : TcpHyblaI) (tcb : TcpSocketState) :
  GetMilliSeconds (m_rRtt h) <> 0%Z ->
  candidateRho h tcb =
  Ok (IZR (GetMilliSeconds (effectiveRtt h tcb)) / IZR (GetMilliSeconds (m_rRtt h))).
Proof.
  intro Hr. unfold candidateRho. apply ddiv_Ok.
  intro H0. apply eq_IZR in H0. contradiction.
Qed.

Lemma HyblaIRecalcParam_inv (h h' : TcpHyblaI) (tcb : TcpSocketState) :
  HyblaIRecalcParam h tcb = Ok h' ->
  exists c, candidateRho h tcb = Ok c /\ h' = set_rho (std_max c 1) h.
Proof.
  unfold HyblaIRecalcParam. intro H.
  bind_inv H as c Hc.
  bind_inv H as u Hu.
  inversion H; subst. eauto.
Qed.

Lemma HyblaIRecalcParam_Ok (h : TcpHyblaI) (tcb : TcpSocketState) (c : R) :
  candidateRho h tcb = Ok c ->
  HyblaIRecalcParam h tcb = Ok (set_rho (std_max c 1) h).
Proof.
  intro Hc. unfold HyblaIRecalcParam. rewrite Hc. simpl.
  pose proof (std_max_lower_r c 1).
  destruct (Rlt_dec 0 (std_max c 1)); [reflexivity | lra].
Qed.

Lemma PktsAcked_inv (mul : Time -> R -> Time) (h h' : TcpHyblaI)
      (tcb tcb' : TcpSocketState) (n : Z) (rtt : Time) :
  PktsAcked mul h tcb n rtt = Ok (tcb', h') ->
  tcb' = tcb /\
  (h' = set_sRtt (smooth mul h rtt) h \/
   rtt = m_minRtt tcb /\
   exists c, candidateRho (set_sRtt (smooth mul h rtt) h) tcb = Ok c /\
             h' = set_rho (std_max c 1) (set_sRtt (smooth mul h rtt) h)).
Proof.
  unfold PktsAcked. destruct (Req_dec_T rtt (m_minRtt tcb)) as [He | Hne]; intro H.
  - bind_inv H as h2 H2. inversion H; subst tcb' h'.
    apply HyblaIRecalcParam_inv in H2. destruct H2 as [c [Hc H2]].
    split; [reflexivity |]. right. split; [assumption |]. eauto.
  - inversion H; subst. split; [reflexivity | left; reflexivity].
Qed.

(** The call never faults for a reference RTT of a millisecond or more. *)
Lemma PktsAcked_total (mul : Time -> R -> Time) (h : TcpHyblaI)
      (tcb : TcpSocketState) (n : Z) (rtt : Time) :
  MilliSeconds 1 <= m_rRtt h ->
  exists h', PktsAcked mul h tcb n rtt = Ok (tcb, h').
Proof.
  intro Hr. unfold PktsAcked.
  destruct (Req_dec_T rtt (m_minRtt tcb)); [| eauto].
  erewrite HyblaIRecalcParam_Ok.
  - simpl; eauto.
  - apply candidateRho_Ok. simpl. apply GetMilliSeconds_pos in Hr. lia.
Qed.

Lemma smooth_cases (mul : Time -> R -> Time) (h : TcpHyblaI) (rtt : Time) :
  (m_sRtt h = 0 -> smooth mul h rtt = rtt) /\
  (m_sRtt h <> 0 ->
   smooth mul h rtt = mul (m_sRtt h) (m_alpha h) + mul rtt (1 - m_alpha h)).
Proof.
  unfold smooth. rewrite Seconds_0.
  destruct (Req_dec_T (m_sRtt h) 0); split; intros; try contradiction; reflexivity.
Qed.

Lemma Rabs_le_bounds (x b : R) : Rabs x <= b -> - b <= x <= b.
Proof. unfold Rabs. destruct (Rcase_abs x); lra. Qed.

(** Two products that are each within [e] of the exact ones add up to
    within [2 e] of the formula of the specification. *)
Lemma smooth_accurate (mul : Time -> R -> Time) (e : R) (s rtt alpha : R) :
  accurate e mul ->
  Rabs (mul s alpha + mul rtt (1 - alpha) - (alpha * s + (1 - alpha) * rtt)) <= 2 * e.
Proof.
  intros Hacc.
  pose proof (Hacc s alpha) as H1. pose proof (Hacc rtt (1 - alpha)) as H2.
  replace (mul s alpha + mul rtt (1 - alpha) - (alpha * s + (1 - alpha) * rtt))
    with ((mul s alpha - s * alpha) + (mul rtt (1 - alpha) - rtt * (1 - alpha)))
    by ring.
  eapply Rle_trans; [apply Rabs_triang | lra].
Qed.

Lemma nearest_product_whole : whole_ticks nearest_product.
Proof. intros t a. unfold nearest_product. eexists. reflexivity. Qed.

Lemma truncated_product_whole : whole_ticks truncated_product.
Proof. intros t a. unfold truncated_product. eexists. reflexivity. Qed.

Lemma exact_product_accurate : accurate 0 exact_product.
Proof.
  intros t a. unfold exact_product.
  replace (t * a - t * a) with 0 by ring. rewrite Rabs_R0. lra.
Qed.

Lemma nearest_product_accurate : accurate (/ 2) nearest_product.
Proof.
  intros t a. unfold nearest_product.
  pose proof (Int_part_bounds (t * a + / 2)) as [Hlo Hhi].
  apply Rabs_le. lra.
Qed.

Lemma nearest_product_IZR (t a : R) (z : Z) : t * a = IZR z -> nearest_product t a = IZR z.
Proof.
  intros H. unfold nearest_product. f_equal. rewrite H.
  apply Int_part_unique. lra.
Qed.

(** The value that [PktsAcked] stores. *)
Lemma PktsAcked_sRtt (mul : Time -> R -> Time) (h h' : TcpHyblaI)
      (tcb tcb' : TcpSocketState) (n : Z) (rtt : Time) :
  PktsAcked mul h tcb n rtt = Ok (tcb', h') -> m_sRtt h' = smooth mul h rtt.
Proof.
  intro H. apply PktsAcked_inv in H. destruct H as [_ [-> | (_ & c & _ & ->)]]; reflexivity.
Qed.

(** C5, as stated, fails on the ticks of [ns3::Time].  With alpha = 0.75, a
    smoothed RTT of 100000001 ns and a sample of 100000000 ns, the formula
    alpha * smoothedRtt + (1 - alpha) * sampleRtt is 100000000.75 ns; what
    [PktsAcked] stores is a sum of two whole numbers of ticks, whichever way
    the products are made whole: 100000001 ns when they are rounded to the
    nearest tick, 100000000 ns when they are truncated. *)
Lemma PktsAcked_whole_ticks_counterexample :
  m_sRtt hybla_odd_tick = 100000001 /\ m_alpha hybla_odd_tick = 0.75 /\
  0.75 * 100000001 + (1 - 0.75) * 100000000 = 100000000.75 /\
  (forall mul, whole_ticks mul ->
     exists h', PktsAcked mul hybla_odd_tick tcb_busy 1 100000000 = Ok (tcb_busy, h') /\
                m_sRtt h' <> 0.75 * 100000001 + (1 - 0.75) * 100000000) /\
  (exists h', PktsAcked nearest_product hybla_odd_tick tcb_busy 1 100000000
              = Ok (tcb_busy, h') /\ m_sRtt h' = 100000001) /\
  (exists h', PktsAcked truncated_product hybla_odd_tick tcb_busy 1 100000000
              = Ok (tcb_busy, h') /\ m_sRtt h' = 100000000).
Proof.
  assert (Hrun : forall mul, exists h',
             PktsAcked mul hybla_odd_tick tcb_busy 1 100000000 = Ok (tcb_busy, h') /\
             m_sRtt h' = mul 100000001 0.75 + mul 100000000 (1 - 0.75)).
  { intros mul.
    destruct (PktsAcked_total mul hybla_odd_tick tcb_busy 1 100000000) as [h' Hh'].
    - unfold hybla_odd_tick, configure, set_sRtt, TcpHyblaI_new. cbn [m_rRtt].
      unfold MilliSeconds. lra.
    - exists h'. split; [exact Hh'|].
      rewrite (PktsAcked_sRtt _ _ _ _ _ _ _ Hh').
      destruct (smooth_cases mul hybla_odd_tick 100000000) as [_ Hs].
      rewrite Hs; [reflexivity|].
      unfold hybla_odd_tick, configure, set_sRtt. cbn [m_sRtt]. lra. }
  split; [reflexivity|]. split; [reflexivity|]. split; [lra|].
  split; [|split].
  - intros mul Hw. destruct (Hrun mul) as (h' & Hh' & Hs).
    exists h'. split; [exact Hh'|]. rewrite Hs.
    destruct (Hw 100000001 0.75) as [z1 ->]. destruct (Hw 100000000 (1 - 0.75)) as [z2 ->].
    rewrite <- plus_IZR. intro E.
    assert (E4 : IZR (4 * (z1 + z2)) = IZR 400000003) by (rewrite mult_IZR; lra).
    apply eq_IZR in E4. lia.
  - destruct (Hrun nearest_product) as (h' & Hh' & Hs).
    exists h'. split; [exact Hh'|]. rewrite Hs.
    unfold nearest_product.
    rewrite (Int_part_unique (100000001 * 0.75 + / 2) 75000001) by lra.
    rewrite (Int_part_unique (100000000 * (1 - 0.75) + / 2) 25000000) by lra.
    lra.
  - destruct (Hrun truncated_product) as (h' & Hh' & Hs).
    exists h'. split; [exact Hh'|]. rewrite Hs.
    unfold truncated_product, Rtrunc.
    destruct (Rle_dec 0 (100000001 * 0.75)) as [_|Hn]; [|exfalso; apply Hn; lra].
    destruct (Rle_dec 0 (100000000 * (1 - 0.75))) as [_|Hn]; [|exfalso; apply Hn; lra].
    rewrite (Int_part_unique (100000001 * 0.75) 75000000) by lra.
    rewrite (Int_part_unique (100000000 * (1 - 0.75)) 25000000) by lra.
    lra.
Qed.

(** C5, amended. [PktsAcked] (AckObserver) returns whenever the reference
    RTT is a millisecond or more, and writes the RTT estimator only: with no
    sample yet (smoothedRtt zero) smoothedRtt becomes the sample itself,
    otherwise the sum of the two products smoothedRtt * alpha and
    sampleRtt * (1 - alpha) as the [Time] arithmetic returns them, which is
    within 2 e of alpha * smoothedRtt + (1 - alpha) * sampleRtt when each
    product is within e of the exact one (e = 1/2 tick for rounding, e = 0
    for the exact product).  The socket state, and so congestionWindow, is
    returned as it was, and so are the counter and the attributes; rho
    changes only by the recalculation that a sample equal to the minimum RTT
    triggers. *)
Theorem PktsAcked_smooths_rtt (mul : Time -> R -> Time) (h : TcpHyblaI)
        (tcb : TcpSocketState) (segmentsAcked : Z) (rtt : Time) :
  MilliSeconds 1 <= m_rRtt h ->
  exists h',
    PktsAcked mul h tcb segmentsAcked rtt = Ok (tcb, h') /\
    (m_sRtt h = 0 -> m_sRtt h' = rtt) /\
    (m_sRtt h <> 0 ->
     m_sRtt h' = mul (m_sRtt h) (m_alpha h) + mul rtt (1 - m_alpha h) /\
     forall e, accurate e mul ->
       Rabs (m_sRtt h' - (m_alpha h * m_sRtt h + (1 - m_alpha h) * rtt)) <= 2 * e) /\
    m_cWndCnt h' = m_cWndCnt h /\ m_alpha h' = m_alpha h /\
    m_inFlightThresh h' = m_inFlightThresh h /\
    m_rtoScalingFactor h' = m_rtoScalingFactor h /\ m_rRtt h' = m_rRtt h /\
    (rtt <> m_minRtt tcb -> m_rho h' = m_rho h).
Proof.
  intro Hr.
  destruct (PktsAcked_total mul h tcb segmentsAcked rtt Hr) as [h' Hh'].
  exists h'. split; [exact Hh'|].
  pose proof (PktsAcked_sRtt _ _ _ _ _ _ _ Hh') as Hs.
  destruct (smooth_cases mul h rtt) as [Hs0 Hs1].
  split; [intro H0; rewrite Hs; exact (Hs0 H0)|].
  split.
  - intro Hne. rewrite Hs, (Hs1 Hne). split; [reflexivity|].
    intros e Hacc. apply smooth_accurate, Hacc.
  - apply PktsAcked_inv in Hh'. destruct Hh' as [_ [-> | (Hmin & c & _ & ->)]];
      cbn [m_cWndCnt m_alpha m_inFlightThresh m_rtoScalingFactor m_rRtt m_rho
           set_rho set_sRtt];
      repeat split; try reflexivity; intro; contradiction.
Qed.

(** A first sample of 100 ms on a fresh controller, and a later sample of
    200 ms on a smoothed RTT of 100 ms with alpha = 0.9, the products
    rounded to the nearest tick: 90 ms + 20 ms. *)
Lemma PktsAcked_smooths_rtt_witness :
  (exists h', PktsAcked nearest_product TcpHyblaI_new tcb_busy 1 (MilliSeconds 100)
              = Ok (tcb_busy, h') /\ m_sRtt h' = MilliSeconds 100) /\
  (exists h', PktsAcked nearest_product hybla_100ms tcb_busy 1 (MilliSeconds 200)
              = Ok (tcb_busy, h') /\ m_sRtt h' = MilliSeconds 110).
Proof.
  split.
  - destruct (PktsAcked_smooths_rtt nearest_product TcpHyblaI_new tcb_busy 1
                (MilliSeconds 100)) as (h' & Hh' & H0 & _).
    + unfold TcpHyblaI_new, MilliSeconds; cbn [m_rRtt]; lra.
    + exists h'. split; [exact Hh'|]. apply H0. cbn [m_sRtt TcpHyblaI_new]. apply Seconds_0.
  - destruct (PktsAcked_smooths_rtt nearest_product hybla_100ms tcb_busy 1
                (MilliSeconds 200)) as (h' & Hh' & _ & H1 & _).
    + unfold hybla_100ms, TcpHyblaI_new, MilliSeconds; cbn [m_rRtt set_sRtt]; lra.
    + exists h'. split; [exact Hh'|].
      destruct H1 as [H1 _].
      * unfold hybla_100ms, MilliSeconds. cbn [m_sRtt set_sRtt]. lra.
      * rewrite H1. unfold hybla_100ms, TcpHyblaI_new. cbn [m_sRtt m_alpha set_sRtt].
        rewrite (nearest_product_IZR (MilliSeconds 100) 0.9 90000000)
          by (unfold MilliSeconds; lra).
        rewrite (nearest_product_IZR (MilliSeconds 200) (1 - 0.9) 20000000)
          by (unfold MilliSeconds; lra).
        unfold MilliSeconds. lra.
Defined.

(* ================================================================== *)
(** * The accumulation loop of CongestionAvoidance *)

Lemma iter_add_closed (x : R) (n : nat) (cnt : R) :
  Nat.iter n (fun c => c + x) cnt = cnt + INR n * x.
Proof.
  induction n as [| n IH].
  - simpl. lra.
  - rewrite S_INR. simpl. rewrite IH. lra.
Qed.

Lemma iter_add_shift (x : R) (n : nat) (cnt : R) :
  Nat.iter n (fun c => c + x) (cnt + x) = Nat.iter (S n) (fun c => c + x) cnt.
Proof. rewrite !iter_add_closed, S_INR. lra. Qed.

(** With a window of one segment or more the loop never faults, and adds
    the same increment once per acknowledged segment. *)
Lemma accumulate_iter (h : TcpHyblaI) (tcb : TcpSocketState) (n : nat) (cnt : R) :
  m_segmentSize tcb <> 0%Z -> (m_cWnd tcb / m_segmentSize tcb)%Z <> 0%Z ->
  accumulate h tcb n cnt =
  Ok (Nat.iter n (fun c => c + m_rho h ^ 2 / IZR (m_cWnd tcb / m_segmentSize tcb)) cnt).
Proof.
  intros Hs Hseg. revert cnt. induction n as [| n IH]; intro cnt.
  - reflexivity.
  - cbn [accumulate]. unfold GetCwndInSegments, U32.div.
    destruct (Z.eqb_spec (m_segmentSize tcb) 0); [contradiction |].
    cbn [bind]. rewrite ddiv_Ok by (intro H0; apply eq_IZR in H0; contradiction).
    cbn [bind]. rewrite IH. f_equal. apply iter_add_shift.
Qed.

Lemma accumulate_inv (h : TcpHyblaI) (tcb : TcpSocketState) (n : nat) (cnt c : R) :
  accumulate h tcb n cnt = Ok c ->
  n = O /\ c = cnt \/
  m_segmentSize tcb <> 0%Z /\ (m_cWnd tcb / m_segmentSize tcb)%Z <> 0%Z /\
  c = Nat.iter n (fun c => c + m_rho h ^ 2 / IZR (m_cWnd tcb / m_segmentSize tcb)) cnt.
Proof.
  destruct n as [| n].
  - simpl. intro H; inversion H. left; split; reflexivity.
  - intro H. right.
    assert (Hs : m_segmentSize tcb <> 0%Z).
    { intro Hz. cbn [accumulate] in H. unfold GetCwndInSegments, U32.div in H.
      rewrite Hz in H. simpl in H. discriminate. }
    assert (Hseg : (m_cWnd tcb / m_segmentSize tcb)%Z <> 0%Z).
    { intro Hz. cbn [accumulate] in H. unfold GetCwndInSegments, U32.div in H.
      destruct (Z.eqb_spec (m_segmentSize tcb) 0); [contradiction |].
      cbn [bind] in H. rewrite Hz, ddiv_zero in H. simpl in H. discriminate. }
    rewrite accumulate_iter in H by assumption. inversion H. auto.
Qed.

Lemma segments_nonneg (tcb : TcpSocketState) :
  valid_snapshot tcb -> (0 <= m_cWnd tcb / m_segmentSize tcb)%Z.
Proof.
  intros (Hc & _ & _ & _ & _ & _ & Hs). unfold U32.in_range in Hc.
  apply Z.div_pos; lia.
Qed.

Lemma increment_nonneg (h : TcpHyblaI) (tcb : TcpSocketState) :
  valid_snapshot tcb -> (m_cWnd tcb / m_segmentSize tcb)%Z <> 0%Z ->
  0 <= m_rho h ^ 2 / IZR (m_cWnd tcb / m_segmentSize tcb).
Proof.
  intros Hv Hseg. pose proof (segments_nonneg tcb Hv) as Hn.
  assert (0 < IZR (m_cWnd tcb / m_segmentSize tcb)) by (apply IZR_lt; lia).
  apply Rmult_le_pos; [apply pow2_ge_0 | apply Rlt_le, Rinv_0_lt_compat; assumption].
Qed.

Lemma accumulate_nondecreasing (h : TcpHyblaI) (tcb : TcpSocketState) (n : nat) (cnt c : R) :
  valid_snapshot tcb -> accumulate h tcb n cnt = Ok c -> cnt <= c.
Proof.
  intros Hv H. apply accumulate_inv in H. destruct H as [[_ Hc] | (Hs & Hseg & Hc)].
  - lra.
  - rewrite iter_add_closed in Hc. pose proof (increment_nonneg h tcb Hv Hseg).
    pose proof (pos_INR n). nra.
Qed.

(** What a returning call of [CongestionAvoidance] did. *)
Lemma CongestionAvoidance_inv (h h' : TcpHyblaI) (tcb tcb' : TcpSocketState) (n : Z) :
  CongestionAvoidance h tcb n = Ok (tcb', h') ->
  exists cnt, accumulate h tcb (Z.to_nat n) (m_cWndCnt h) = Ok cnt /\
    (cnt < 1 /\ tcb' = tcb /\ h' = set_cWndCnt cnt h \/
     1 <= cnt /\
     exists inc scale scaledInc,
       to_uint32 cnt = Ok inc /\ ComputeScalingFactor h tcb = Ok scale /\
       to_uint32 (IZR inc * scale * IZR (m_segmentSize tcb)) = Ok scaledInc /\
       tcb' = set_cWnd (U32.add (m_cWnd tcb) scaledInc) tcb /\
       h' = set_cWndCnt (cnt - IZR inc) h).
Proof.
  unfold CongestionAvoidance. intro H.
  bind_inv H as cnt Hacc.
  exists cnt. split; [assumption |].
  destruct (Rle_dec 1 cnt) as [Hge | Hlt].
  - right. split; [assumption |].
    bind_inv H as inc Hinc.
    bind_inv H as scale Hsc.
    bind_inv H as scaledInc Hsi.
    inversion H; subst. exists inc, scale, scaledInc.
    rewrite ComputeScalingFactor_set_cWndCnt in Hsc. auto.
  - left. inversion H; subst. split; [lra | auto].
Qed.

Lemma CongestionAvoidance_counter (h h' : TcpHyblaI) (tcb tcb' : TcpSocketState)
      (n : Z) (cnt : R) :
  0 <= m_cWndCnt h -> valid_snapshot tcb ->
  accumulate h tcb (Z.to_nat n) (m_cWndCnt h) = Ok cnt ->
  CongestionAvoidance h tcb n = Ok (tcb', h') ->
  0 <= m_cWndCnt h' < 1 /\
  (1 <= cnt -> m_cWndCnt h' = frac_part cnt) /\
  (cnt < 1 -> m_cWndCnt h' = cnt).
Proof.
  intros H0 Hv Hacc H. apply CongestionAvoidance_inv in H.
  destruct H as [cnt' [Hacc' H]]. rewrite Hacc in Hacc'. inversion Hacc'; subst cnt'.
  pose proof (accumulate_nondecreasing h tcb _ _ _ Hv Hacc) as Hmono.
  destruct H as [(Hlt & _ & Hh) | (Hge & inc & scale & scaledInc & Hinc & _ & _ & _ & Hh)];
    subst h'; cbn [m_cWndCnt set_cWndCnt].
  - repeat split; intros; lra.
  - apply to_uint32_nonneg_inv in Hinc; [| lra]. subst inc.
    destruct (Int_part_bounds cnt). unfold frac_part.
    repeat split; intros; lra.
Qed.

(* ================================================================== *)
(** * Invariants of the controller *)

Lemma reachable_invariant (h : TcpHyblaI) :
  reachable h ->
  m_rRtt h = MilliSeconds 50 /\ valid_config h /\ 1 <= m_rho h /\ 0 <= m_cWndCnt h < 1.
Proof.
  induction 1 as [| h alpha thresh k Hr IH Ha Hk | h Hr IH
                  | mul h h' tcb tcb' n rtt Hr IH Hv Hp | h h' tcb tcb' n Hr IH Hv Hc].
  - unfold TcpHyblaI_new, valid_config; cbn. repeat split; lra.
  - destruct IH as (H1 & H2 & H3 & H4). unfold valid_config, configure; cbn.
    repeat split; try assumption; lra.
  - destruct IH as (H1 & H2 & H3 & H4). unfold valid_config, Fork in *; cbn.
    repeat split; try assumption; lra.
  - destruct IH as (H1 & H2 & H3 & H4).
    apply PktsAcked_inv in Hp. destruct Hp as [_ [Hh | [_ [c [_ Hh]]]]]; subst h';
      unfold valid_config in *; cbn; repeat split; try assumption; try lra.
    apply std_max_lower_r.
  - destruct IH as (H1 & H2 & H3 & H4).
    pose proof Hc as Hc'. apply CongestionAvoidance_inv in Hc'.
    destruct Hc' as [cnt [Hacc Hcase]].
    pose proof (CongestionAvoidance_counter h h' tcb tcb' n cnt (proj1 H4) Hv Hacc Hc)
      as [Hcnt _].
    destruct Hcase as [(_ & _ & Hh) | (_ & inc & scale & scaledInc & _ & _ & _ & _ & Hh)];
      rewrite Hh in *; unfold valid_config in *; cbn in *; repeat split; try assumption; lra.
Qed.

(* ================================================================== *)
(** * rho *)

Lemma GetMilliSeconds_149 : GetMilliSeconds 149999999 = 149%Z.
Proof. apply GetMilliSeconds_floor; [lia | unfold MilliSeconds; lra]. Qed.

Lemma effectiveRtt_149 (tcb : TcpSocketState) : effectiveRtt hybla_149ms tcb = 149999999.
Proof.
  unfold effectiveRtt, hybla_149ms. cbn [m_sRtt set_sRtt].
  destruct (IsZero 149999999); [lra | reflexivity].
Qed.

Lemma candidateRho_149 (tcb : TcpSocketState) : candidateRho hybla_149ms tcb = Ok (149 / 50).
Proof.
  assert (Hr : GetMilliSeconds (m_rRtt hybla_149ms) = 50%Z)
    by apply GetMilliSeconds_MilliSeconds.
  rewrite candidateRho_Ok by (rewrite Hr; lia).
  rewrite Hr, effectiveRtt_149, GetMilliSeconds_149. reflexivity.
Qed.

Lemma candidateRho_short_reference :
  candidateRho hybla_short_reference tcb_short_rtt = Fault NotFinite.
Proof.
  unfold candidateRho.
  assert (Hr : GetMilliSeconds (m_rRtt hybla_short_reference) = 0%Z).
  { apply GetMilliSeconds_floor; [lia |].
    unfold MilliSeconds, hybla_short_reference; cbn [m_rRtt]. lra. }
  rewrite Hr. apply ddiv_zero.
Qed.

(** C10, as stated, fails: with a smoothed RTT of 149.999999 ms and the
    reference RTT of 50 ms the code computes 149 / 50 = 2.98, not the
    ratio 2.99999998 of the two durations. *)
Lemma candidateRho_full_precision_counterexample :
  candidateRho hybla_149ms (tcb_quiet 10000 65535 1000) = Ok (149 / 50) /\
  effectiveRtt hybla_149ms (tcb_quiet 10000 65535 1000) / m_rRtt hybla_149ms
  = 149999999 / 50000000 /\
  candidateRho hybla_149ms (tcb_quiet 10000 65535 1000)
  <> Ok (effectiveRtt hybla_149ms (tcb_quiet 10000 65535 1000) / m_rRtt hybla_149ms).
Proof.
  assert (He : effectiveRtt hybla_149ms (tcb_quiet 10000 65535 1000) / m_rRtt hybla_149ms
               = 149999999 / 50000000).
  { rewrite effectiveRtt_149. unfold hybla_149ms, TcpHyblaI_new, MilliSeconds.
    cbn [m_rRtt set_sRtt]. lra. }
  split; [apply candidateRho_149 | split; [exact He |]].
  rewrite candidateRho_149, He. intro H. inversion H. lra.
Qed.

(** C10, amended. For a reference RTT of a millisecond or more,
    [HyblaIRecalcParam] computes candidateRho as the quotient of the whole
    milliseconds of effectiveRtt by the whole milliseconds of the
    reference RTT: what is below a millisecond is dropped, so two inputs
    with the same whole milliseconds give the same candidateRho; it is
    effectiveRtt / referenceRtt when both are whole milliseconds. *)
Theorem candidateRho_whole_milliseconds (h : TcpHyblaI) (tcb : TcpSocketState) :
  MilliSeconds 1 <= m_rRtt h ->
  candidateRho h tcb =
  Ok (IZR (GetMilliSeconds (effectiveRtt h tcb)) / IZR (GetMilliSeconds (m_rRtt h))) /\
  (forall h2 tcb2,
      GetMilliSeconds (effectiveRtt h2 tcb2) = GetMilliSeconds (effectiveRtt h tcb) ->
      GetMilliSeconds (m_rRtt h2) = GetMilliSeconds (m_rRtt h) ->
      candidateRho h2 tcb2 = candidateRho h tcb) /\
  (forall e r, effectiveRtt h tcb = MilliSeconds e -> m_rRtt h = MilliSeconds r ->
               candidateRho h tcb = Ok (effectiveRtt h tcb / m_rRtt h)).
Proof.
  intro Hr. pose proof (GetMilliSeconds_pos _ Hr) as Hpos.
  assert (Hc : candidateRho h tcb =
               Ok (IZR (GetMilliSeconds (effectiveRtt h tcb)) /
                   IZR (GetMilliSeconds (m_rRtt h))))
    by (apply candidateRho_Ok; lia).
  split; [exact Hc | split].
  - intros h2 tcb2 He H2. unfold candidateRho. rewrite He, H2. reflexivity.
  - intros e r He Hrr. rewrite Hc, He, Hrr, !GetMilliSeconds_MilliSeconds.
    f_equal. unfold MilliSeconds.
    assert (IZR r <> 0).
    { rewrite Hrr, GetMilliSeconds_MilliSeconds in Hpos.
      intro H0. apply eq_IZR in H0. lia. }
    field. assumption.
Qed.

Lemma candidateRho_whole_milliseconds_witness :
  candidateRho hybla_149ms (tcb_quiet 10000 65535 1000) =
  Ok (IZR (GetMilliSeconds (effectiveRtt hybla_149ms (tcb_quiet 10000 65535 1000))) /
      IZR (GetMilliSeconds (m_rRtt hybla_149ms))).
Proof.
  apply (candidateRho_whole_milliseconds hybla_149ms (tcb_quiet 10000 65535 1000)).
  unfold hybla_149ms, TcpHyblaI_new, MilliSeconds; cbn [m_rRtt set_sRtt]. lra.
Defined.

(** C4, as stated, fails twice.  With a smoothed RTT of 149.999999 ms and
    the reference RTT of 50 ms rho becomes 2.98, not
    max (149.999999 / 50, 1.0) = 2.99999998.  With a reference RTT of
    0.5 ms, which is positive, and a minimum RTT of 0.3 ms the quotient is
    0 / 0: no rho at or above 1.0 comes out. *)
Lemma rho_recalculation_counterexample :
  (exists h', HyblaIRecalcParam hybla_149ms (tcb_quiet 10000 65535 1000) = Ok h' /\
              m_rho h' = 149 / 50 /\
              m_rho h' <> Rmax (effectiveRtt hybla_149ms (tcb_quiet 10000 65535 1000)
                                / m_rRtt hybla_149ms) 1) /\
  (0 < m_rRtt hybla_short_reference /\
   HyblaIRecalcParam hybla_short_reference tcb_short_rtt = Fault NotFinite).
Proof.
  split.
  - eexists. split; [apply HyblaIRecalcParam_Ok, candidateRho_149 |].
    cbn [m_rho set_rho].
    assert (Hm : std_max (149 / 50) 1 = 149 / 50)
      by (unfold std_max; destruct (Rlt_dec (149 / 50) 1); lra).
    rewrite Hm. split; [reflexivity |].
    rewrite effectiveRtt_149. unfold hybla_149ms, TcpHyblaI_new, MilliSeconds.
    cbn [m_rRtt set_sRtt]. unfold Rmax.
    destruct (Rle_dec (149999999 / (50 * 1000000)) 1); lra.
  - split.
    + unfold hybla_short_reference; cbn [m_rRtt]. lra.
    + unfold HyblaIRecalcParam. rewrite candidateRho_short_reference. reflexivity.
Qed.

(** C4, amended. rho is at least 1.0 in every reachable controller state:
    it starts at 1.0; a call of [HyblaIRecalcParam] that returns leaves
    rho = max (candidateRho, 1.0), at least 1.0, where candidateRho is the
    quotient of the whole milliseconds of effectiveRtt by those of the
    reference RTT, and the call returns whenever the reference RTT is a
    millisecond or more, so in every reachable state, where it is 50 ms;
    no other operation changes rho. *)
Theorem rho_at_least_one :
  m_rho TcpHyblaI_new = 1 /\
  (forall h, reachable h -> 1 <= m_rho h) /\
  (forall h tcb, MilliSeconds 1 <= m_rRtt h ->
     exists h', HyblaIRecalcParam h tcb = Ok h' /\
       m_rho h' = Rmax (IZR (GetMilliSeconds (effectiveRtt h tcb)) /
                        IZR (GetMilliSeconds (m_rRtt h))) 1) /\
  (forall h tcb h', HyblaIRecalcParam h tcb = Ok h' ->
     1 <= m_rho h' /\
     exists c, candidateRho h tcb = Ok c /\ m_rho h' = Rmax c 1) /\
  (forall h tcb, reachable h -> exists h', HyblaIRecalcParam h tcb = Ok h') /\
  (forall mul h tcb n rtt tcb' h',
     rtt <> m_minRtt tcb -> PktsAcked mul h tcb n rtt = Ok (tcb', h') ->
     m_rho h' = m_rho h) /\
  (forall h tcb n tcb' h',
     CongestionAvoidance h tcb n = Ok (tcb', h') -> m_rho h' = m_rho h) /\
  (forall h alpha thresh k, m_rho (configure alpha thresh k h) = m_rho h) /\
  (forall h, m_rho (Fork h) = m_rho h).
Proof.
  split; [reflexivity |]. split; [intros h Hr; apply (reachable_invariant h Hr) |].
  split; [| split; [| split; [| split; [| split; [| split]]]]].
  - intros h tcb Hr. apply GetMilliSeconds_pos in Hr.
    eexists. split.
    + apply HyblaIRecalcParam_Ok, candidateRho_Ok. lia.
    + cbn [m_rho set_rho]. apply std_max_Rmax.
  - intros h tcb h' H. apply HyblaIRecalcParam_inv in H. destruct H as [c [Hc Hh]].
    subst h'. cbn [m_rho set_rho]. split; [apply std_max_lower_r |].
    exists c. split; [assumption | apply std_max_Rmax].
  - intros h tcb Hr. destruct (reachable_invariant h Hr) as [Href _].
    eexists. apply HyblaIRecalcParam_Ok, candidateRho_Ok.
    rewrite Href, GetMilliSeconds_MilliSeconds. lia.
  - intros mul h tcb n rtt tcb' h' Hne H. apply PktsAcked_inv in H.
    destruct H as [_ [Hh | [Hmin _]]]; [subst h'; reflexivity | contradiction].
  - intros h tcb n tcb' h' H. apply CongestionAvoidance_inv in H.
    destruct H as [cnt [_ [(_ & _ & Hh) | (_ & inc & scale & scaledInc & _ & _ & _ & _ & Hh)]]];
      subst h'; reflexivity.
  - reflexivity.
  - reflexivity.
Qed.

(** The loop in the words of the specification: one credit per segment. *)
Lemma accumulate_credit (h : TcpHyblaI) (tcb : TcpSocketState) (n : nat) (cnt : R) :
  valid_snapshot tcb -> (1 <= segmentsInWindow tcb)%Z ->
  accumulate h tcb n cnt = Ok (Nat.iter n (fun c => c + credit h tcb) cnt).
Proof.
  intros Hv Hseg. unfold segmentsInWindow in Hseg.
  apply accumulate_iter; [unfold valid_snapshot in Hv |]; lia.
Qed.

(* ================================================================== *)
(** * The fractional counter *)

(** C9, as stated, fails on the doubles of the code.  From a counter of 0,
    with rho = 1 and a window of 10 segments, ten acknowledged segments
    add 1.0 / 10 ten times: the loop ends on 0.99999999999999989, below
    1.0, and the window does not grow; the closed form
    0 + 10 * 1.0 / 10 is 1.0, and the window would grow. *)
Lemma accumulate_binary64_counterexample :
  Binary64.accumulate Binary64.one 10 10 Binary64.zero
  <> Binary64.accumulate_closed_form Binary64.one 10 10 Binary64.zero /\
  Binary64.accumulate Binary64.one 10 10 Binary64.zero
  <> Binary64.accumulate_closed_form_credit Binary64.one 10 10 Binary64.zero /\
  Binary64.grows (Binary64.accumulate Binary64.one 10 10 Binary64.zero) = false /\
  Binary64.grows (Binary64.accumulate_closed_form Binary64.one 10 10 Binary64.zero) = true /\
  Binary64.grows (Binary64.accumulate_closed_form_credit Binary64.one 10 10 Binary64.zero)
  = true.
Proof.
  repeat split; vm_compute; try reflexivity; intro H; discriminate H.
Qed.

(** C9, amended. In exact arithmetic the loop of [CongestionAvoidance] and
    the closed form agree for every number of acknowledged segments: the
    window does not change during the loop, each iteration adds the same
    credit rho^2 / segmentsInWindow, and the counter ends on
    counter + segmentsAcked * rho^2 / segmentsInWindow. *)
Theorem accumulate_is_closed_form (h : TcpHyblaI) (tcb : TcpSocketState)
        (segmentsAcked : nat) (cnt : R) :
  valid_snapshot tcb -> (1 <= segmentsInWindow tcb)%Z ->
  accumulate h tcb segmentsAcked cnt =
  Ok (Nat.iter segmentsAcked (fun c => c + credit h tcb) cnt) /\
  accumulate h tcb segmentsAcked cnt =
  Ok (accumulate_closed_form h (segmentsInWindow tcb) segmentsAcked cnt).
Proof.
  intros Hv Hseg. rewrite (accumulate_credit h tcb segmentsAcked cnt Hv Hseg).
  split; [reflexivity |]. f_equal. rewrite iter_add_closed.
  unfold accumulate_closed_form, credit. lra.
Qed.

Lemma valid_tcb_quiet (cwnd ssthresh mss : Z) :
  U32.in_range cwnd -> U32.in_range ssthresh -> U32.in_range mss -> (0 < mss)%Z ->
  valid_snapshot (tcb_quiet cwnd ssthresh mss).
Proof.
  intros Hc Ht Hm Hp. unfold valid_snapshot, tcb_quiet; cbn.
  repeat split; try assumption; try apply Hc; try apply Ht; try apply Hm;
    unfold U32.in_range, U32.modulus; lia.
Qed.

Lemma accumulate_is_closed_form_witness :
  accumulate TcpHyblaI_new (tcb_quiet 10000 65535 1000) 10 0 =
  Ok (accumulate_closed_form TcpHyblaI_new
        (segmentsInWindow (tcb_quiet 10000 65535 1000)) 10 0).
Proof.
  apply (accumulate_is_closed_form TcpHyblaI_new (tcb_quiet 10000 65535 1000) 10 0).
  - apply valid_tcb_quiet; u32_range.
  - vm_compute. discriminate.
Defined.

(** C8. fractionalCreditCounter is non-negative in every reachable state
    and lies in [0, 1) at the end of every call of [CongestionAvoidance]:
    it starts at 0; when the accumulated counter reached 1.0 the call
    leaves its fractional part, otherwise the accumulated counter itself;
    no other operation writes it. *)
Theorem fractional_counter_invariant :
  m_cWndCnt TcpHyblaI_new = 0 /\
  (forall h, reachable h -> 0 <= m_cWndCnt h < 1) /\
  (forall h tcb n tcb' h' cnt,
      0 <= m_cWndCnt h -> valid_snapshot tcb ->
      accumulate h tcb (Z.to_nat n) (m_cWndCnt h) = Ok cnt ->
      CongestionAvoidance h tcb n = Ok (tcb', h') ->
      0 <= m_cWndCnt h' < 1 /\
      (1 <= cnt -> m_cWndCnt h' = frac_part cnt) /\
      (cnt < 1 -> m_cWndCnt h' = cnt)) /\
  (forall mul h tcb n rtt tcb' h',
      PktsAcked mul h tcb n rtt = Ok (tcb', h') -> m_cWndCnt h' = m_cWndCnt h) /\
  (forall h alpha thresh k, m_cWndCnt (configure alpha thresh k h) = m_cWndCnt h) /\
  (forall h, m_cWndCnt (Fork h) = m_cWndCnt h).
Proof.
  split; [reflexivity |]. split; [intros h Hr; apply (reachable_invariant h Hr) |].
  split; [| split; [| split]].
  - intros h tcb n tcb' h' cnt H0 Hv Hacc H.
    exact (CongestionAvoidance_counter h h' tcb tcb' n cnt H0 Hv Hacc H).
  - intros mul h tcb n rtt tcb' h' H. apply PktsAcked_inv in H.
    destruct H as [_ [Hh | [_ [c [_ Hh]]]]]; subst h'; reflexivity.
  - reflexivity.
  - reflexivity.
Qed.

(* ================================================================== *)
(** * The growth steps *)

Lemma U32_add_small (a b : Z) : (0 <= a + b <= U32.max_value)%Z -> U32.add a b = (a + b)%Z.
Proof.
  unfold U32.add, U32.wrap, U32.max_value. intro H. apply Z.mod_small. lia.
Qed.

Lemma IZR_modulus_bound (x : R) (m : Z) :
  (Int_part x <= m)%Z -> x < IZR m + 1.
Proof.
  intro H. destruct (Int_part_bounds x) as [_ Hu]. apply IZR_le in H. lra.
Qed.

Lemma ComputeScalingFactor_bounds (h : TcpHyblaI) (tcb : TcpSocketState) :
  valid_config h -> valid_snapshot tcb ->
  exists scale, ComputeScalingFactor h tcb = Ok scale /\ 0.5 <= scale <= 1.
Proof.
  intros [_ Hk] Hv.
  assert (Hs : m_segmentSize tcb <> 0%Z) by (unfold valid_snapshot in Hv; lia).
  destruct (ComputeScalingFactor_factors h tcb Hk Hs)
    as (ir & rr & rf & osf & _ & _ & _ & _ & Hrfb & Hosfv & Hc).
  pose proof (product_le_1 _ _ _ (inflightFactor_range h ir) Hrfb Hosfv) as Hp.
  eexists; split; [exact Hc |].
  split; [apply std_max_lower_r | apply std_max_upper; lra].
Qed.

Lemma CongestionAvoidance_below (h : TcpHyblaI) (tcb : TcpSocketState) (n : Z) (cnt : R) :
  accumulate h tcb (Z.to_nat n) (m_cWndCnt h) = Ok cnt -> cnt < 1 ->
  CongestionAvoidance h tcb n = Ok (tcb, set_cWndCnt cnt h).
Proof.
  intros Hacc Hlt. unfold CongestionAvoidance. rewrite Hacc. cbn [bind].
  destruct (Rle_dec 1 cnt); [lra | reflexivity].
Qed.

Lemma CongestionAvoidance_grow (h : TcpHyblaI) (tcb : TcpSocketState) (n : Z)
      (cnt scale : R) :
  accumulate h tcb (Z.to_nat n) (m_cWndCnt h) = Ok cnt ->
  1 <= cnt -> cnt < IZR U32.modulus ->
  ComputeScalingFactor h tcb = Ok scale ->
  0 <= IZR (Int_part cnt) * scale * IZR (m_segmentSize tcb) < IZR U32.modulus ->
  CongestionAvoidance h tcb n =
  Ok (set_cWnd (U32.add (m_cWnd tcb)
                  (Int_part (IZR (Int_part cnt) * scale * IZR (m_segmentSize tcb)))) tcb,
      set_cWndCnt (frac_part cnt) h).
Proof.
  intros Hacc Hge Hlt Hsc [Hx0 Hx1]. unfold CongestionAvoidance. rewrite Hacc. cbn [bind].
  destruct (Rle_dec 1 cnt); [| lra].
  rewrite (to_uint32_floor cnt) by lra. cbn [bind].
  rewrite ComputeScalingFactor_set_cWndCnt, Hsc. cbn [bind].
  rewrite to_uint32_floor by assumption. reflexivity.
Qed.

Lemma Int_part_ge_1 (x : R) : 1 <= x -> (1 <= Int_part x)%Z.
Proof.
  intro Hx. destruct (Int_part_bounds x) as [_ Hu].
  assert (0 < IZR (Int_part x)) by lra. apply lt_0_IZR in H. lia.
Qed.

(** A run of [CongestionAvoidance] on a window close to 2^32. *)
Lemma CongestionAvoidance_large_window :
  valid_snapshot tcb_large_avoidance /\
  (1 <= segmentsInWindow tcb_large_avoidance)%Z /\
  ComputeScalingFactor (hybla_counter 0.9999999) tcb_large_avoidance = Ok 1 /\
  accumulate (hybla_counter 0.9999999) tcb_large_avoidance 1 0.9999999
  = Ok (0.9999999 + 1 / 4294967) /\
  (m_cWnd tcb_large_avoidance +
   Int_part (IZR (Int_part (0.9999999 + 1 / 4294967)) * 1 *
             IZR (m_segmentSize tcb_large_avoidance)) = 4294968000)%Z /\
  exists h', CongestionAvoidance (hybla_counter 0.9999999) tcb_large_avoidance 1
             = Ok (set_cWnd 704 tcb_large_avoidance, h').
Proof.
  assert (Hv : valid_snapshot tcb_large_avoidance)
    by (apply valid_tcb_quiet; u32_range).
  assert (Hsc : ComputeScalingFactor (hybla_counter 0.9999999) tcb_large_avoidance = Ok 1).
  { quiet_scale. }
  assert (Hacc : accumulate (hybla_counter 0.9999999) tcb_large_avoidance 1 0.9999999
                 = Ok (0.9999999 + 1 / 4294967)).
  { rewrite accumulate_iter by (vm_compute; discriminate).
    f_equal. cbn [Nat.iter m_rho hybla_counter set_cWndCnt TcpHyblaI_new].
    change (m_cWnd tcb_large_avoidance / m_segmentSize tcb_large_avoidance)%Z
      with 4294967%Z.
    rewrite iter_add_closed. change (INR 1) with 1. lra. }
  assert (Hi : Int_part (0.9999999 + 1 / 4294967) = 1%Z)
    by (apply Int_part_unique; lra).
  assert (Hx : Int_part (IZR 1 * 1 * IZR (m_segmentSize tcb_large_avoidance)) = 1000%Z).
  { apply Int_part_unique. cbn [m_segmentSize tcb_large_avoidance tcb_quiet]. lra. }
  split; [exact Hv |]. split; [vm_compute; discriminate |].
  split; [exact Hsc |]. split; [exact Hacc |]. split.
  - rewrite Hi, Hx. reflexivity.
  - eexists.
    rewrite (CongestionAvoidance_grow (hybla_counter 0.9999999) tcb_large_avoidance 1
               (0.9999999 + 1 / 4294967) 1).
    + rewrite Hi, Hx. reflexivity.
    + exact Hacc.
    + lra.
    + modulus_value. lra.
    + exact Hsc.
    + rewrite Hi. cbn [m_segmentSize tcb_large_avoidance tcb_quiet].
      modulus_value. lra.
Qed.

(** ** The growth steps on binary64

    What a returning call computes, whatever the rounding of its doubles. *)

Lemma Binary64_SlowStart_inv
      (pow_2_rho inFlightThresh rtoScalingFactor srttSeconds : PrimFloat.float)
      (sRttSeconds : option PrimFloat.float)
      (cWnd ssThresh segmentSize bytesInFlight nextTxSequence lastAckedSeq : Z)
      (segmentsAcked w r : Z) :
  (1 <= segmentsAcked)%Z ->
  Binary64.SlowStart pow_2_rho inFlightThresh rtoScalingFactor srttSeconds sRttSeconds
    cWnd ssThresh segmentSize bytesInFlight nextTxSequence lastAckedSeq segmentsAcked
  = Ok (w, r) ->
  exists scale incr,
    Binary64.ComputeScalingFactor inFlightThresh rtoScalingFactor srttSeconds sRttSeconds
      cWnd segmentSize bytesInFlight nextTxSequence lastAckedSeq = Ok scale /\
    Binary64.to_uint32 (Binary64.SlowStart_product pow_2_rho scale segmentSize) = Ok incr /\
    w = Z.min ((cWnd + incr) mod U32.modulus) ssThresh /\
    (w <= ssThresh)%Z /\ r = (segmentsAcked - 1)%Z.
Proof.
  intros Hn H. unfold Binary64.SlowStart in H.
  destruct (Z.leb_spec cWnd ssThresh) as [Hp | Hp];
    cbn [NS_ASSERT bind] in H; [| discriminate].
  destruct (Z.leb_spec 1 segmentsAcked) as [_ | Hlt]; [| lia].
  bind_inv H as scale Hsc.
  bind_inv H as incr Hi.
  inversion H; subst w r. exists scale, incr.
  split; [exact Hsc |]. split; [exact Hi |].
  rewrite std_min_Zmin. unfold U32.add, U32.wrap.
  split; [reflexivity |]. split; [lia | reflexivity].
Qed.

Lemma Binary64_CongestionAvoidance_inv
      (pow_rho_2 inFlightThresh rtoScalingFactor srttSeconds : PrimFloat.float)
      (sRttSeconds : option PrimFloat.float)
      (cWnd segmentSize bytesInFlight nextTxSequence lastAckedSeq : Z)
      (segmentsAcked : Z) (cWndCnt : PrimFloat.float) (w : Z) (c : PrimFloat.float) :
  Binary64.CongestionAvoidance pow_rho_2 inFlightThresh rtoScalingFactor srttSeconds
    sRttSeconds cWnd segmentSize bytesInFlight nextTxSequence lastAckedSeq
    segmentsAcked cWndCnt = Ok (w, c) ->
  exists cnt,
    Binary64.counter pow_rho_2 cWnd segmentSize segmentsAcked cWndCnt = Ok cnt /\
    (Binary64.grows cnt = false /\ w = cWnd /\ c = cnt \/
     Binary64.grows cnt = true /\
     exists inc scale scaledInc,
       Binary64.to_uint32 cnt = Ok inc /\
       Binary64.ComputeScalingFactor inFlightThresh rtoScalingFactor srttSeconds
         sRttSeconds cWnd segmentSize bytesInFlight nextTxSequence lastAckedSeq
       = Ok scale /\
       Binary64.to_uint32 (Binary64.CongestionAvoidance_product inc scale segmentSize)
       = Ok scaledInc /\
       w = ((cWnd + scaledInc) mod U32.modulus)%Z /\
       c = Binary64.remainder cnt inc).
Proof.
  intro H. unfold Binary64.CongestionAvoidance in H.
  bind_inv H as cnt Hcnt. exists cnt. split; [exact Hcnt |].
  unfold Binary64.grows, Binary64.one.
  match type of H with
  | context [PrimFloat.leb ?a cnt] => destruct (PrimFloat.leb a cnt) eqn:Hg
  end.
  - right. split; [reflexivity |].
    bind_inv H as inc Hinc.
    bind_inv H as scale Hsc.
    bind_inv H as scaledInc Hsi.
    inversion H; subst w c. exists inc, scale, scaledInc.
    repeat (split; [assumption || reflexivity |]). reflexivity.
  - left. split; [reflexivity |].
    inversion H; subst w c. split; reflexivity.
Qed.

(** The theorems on [CongestionAvoidance] read the doubles as exact reals;
    the code rounds.  On a fresh controller (rho = 1) with a window of ten
    segments, ten acknowledged segments add the credit 1 / 10 ten times: in
    exact arithmetic the counter reaches 1 and the window grows by a
    segment; on binary64 the sum is 0.99999999999999989, the test
    [m_cWndCnt >= 1.0] fails and the window stays. *)
Lemma CongestionAvoidance_binary64_rounding :
  CongestionAvoidance TcpHyblaI_new (tcb_quiet 10000 65535 1000) 10 =
  Ok (set_cWnd 11000 (tcb_quiet 10000 65535 1000), set_cWndCnt 0 TcpHyblaI_new) /\
  exists cnt,
    Binary64.CongestionAvoidance Binary64.one Binary64.default_inFlightThresh
      Binary64.default_rtoScalingFactor Binary64.zero None
      10000 1000 0 0 0 10 Binary64.zero = Ok (10000%Z, cnt) /\
    Binary64.grows cnt = false.
Proof.
  split; [| eexists; split; vm_compute; reflexivity].
  assert (Hsc : ComputeScalingFactor TcpHyblaI_new (tcb_quiet 10000 65535 1000) = Ok 1).
  { quiet_scale. }
  assert (Hacc : accumulate TcpHyblaI_new (tcb_quiet 10000 65535 1000) (Z.to_nat 10)
                            (m_cWndCnt TcpHyblaI_new) = Ok 1).
  { rewrite accumulate_iter by (vm_compute; discriminate).
    f_equal. rewrite iter_add_closed.
    change (m_cWnd (tcb_quiet 10000 65535 1000) / m_segmentSize (tcb_quiet 10000 65535 1000))%Z
      with 10%Z.
    rewrite INR_IZR_INZ, Z2Nat.id by lia.
    cbn [m_rho m_cWndCnt TcpHyblaI_new]. lra. }
  assert (Hi : Int_part 1 = 1%Z) by (apply Int_part_unique; lra).
  assert (Hf : frac_part 1 = 0) by (unfold frac_part; rewrite Hi; lra).
  assert (Hx : Int_part (IZR 1 * 1 * IZR (m_segmentSize (tcb_quiet 10000 65535 1000)))
               = 1000%Z)
    by (apply Int_part_unique; cbn [m_segmentSize tcb_quiet]; lra).
  rewrite (CongestionAvoidance_grow _ _ _ 1 1 Hacc).
  - rewrite Hi, Hf, Hx. reflexivity.
  - lra.
  - modulus_value. lra.
  - exact Hsc.
  - rewrite Hi. cbn [m_segmentSize tcb_quiet]. modulus_value. lra.
Qed.

(** C3, as stated, fails when the sum leaves uint32_t.  A window of
    4294967000 bytes with segments of 1000 bytes holds 4294967 segments;
    with rho = 1 one acknowledged segment lifts a counter of 0.9999999 to
    1 or more, one segment at scale 1 is 1000 bytes, and the window becomes
    (4294967000 + 1000) mod 2^32 = 704, not 4294968000. *)
Lemma CongestionAvoidance_wrap_counterexample :
  valid_snapshot tcb_large_avoidance /\
  (1 <= segmentsInWindow tcb_large_avoidance)%Z /\
  exists cnt scale tcb' h',
    accumulate (hybla_counter 0.9999999) tcb_large_avoidance 1
               (m_cWndCnt (hybla_counter 0.9999999)) = Ok cnt /\
    1 <= cnt /\
    ComputeScalingFactor (hybla_counter 0.9999999) tcb_large_avoidance = Ok scale /\
    CongestionAvoidance (hybla_counter 0.9999999) tcb_large_avoidance 1 = Ok (tcb', h') /\
    m_cWnd tcb' = 704%Z /\
    (m_cWnd tcb_large_avoidance +
     Int_part (IZR (Int_part cnt) * scale * IZR (m_segmentSize tcb_large_avoidance))
     = 4294968000)%Z /\
    (m_cWnd tcb' <>
     m_cWnd tcb_large_avoidance +
     Int_part (IZR (Int_part cnt) * scale * IZR (m_segmentSize tcb_large_avoidance)))%Z.
Proof.
  destruct CongestionAvoidance_large_window as (Hv & Hseg & Hsc & Hacc & Hsum & h' & Hrun).
  split; [exact Hv |]. split; [exact Hseg |].
  exists (0.9999999 + 1 / 4294967), 1, (set_cWnd 704 tcb_large_avoidance), h'.
  split; [exact Hacc |]. split; [lra |]. split; [exact Hsc |]. split; [exact Hrun |].
  split; [reflexivity |]. split; [exact Hsum |].
  rewrite Hsum. cbn [m_cWnd set_cWnd]. lia.
Qed.

Lemma IZR_max_value : IZR U32.max_value + 1 = IZR U32.modulus.
Proof. unfold U32.max_value. rewrite minus_IZR. lra. Qed.

(** C3, amended. Read in exact arithmetic (the doubles as real numbers):
    for a valid snapshot with segmentsInWindow >= 1, [CongestionAvoidance]
    adds the credit rho^2 / segmentsInWindow to the counter once per
    acknowledged segment; if the counter is then below 1.0 the window is
    unchanged; if it is 1.0 or more, every returning call leaves the window
    at (congestionWindow + floor (floor (counter) * scale * maxSegmentSize))
    mod 2^32 and the counter at its fractional part; with a counter below
    2^32 and a sum that fits uint32_t the call returns and the window has
    grown by exactly that many bytes.  A counter of 0.95 and a credit of
    0.2 give 1.15: one segment, scaled, is added and the counter is left
    at 0.15.  On the doubles of the code the same steps are taken on
    rounded values: a returning call leaves the accumulated counter and
    the window when the counter is below 1.0, and otherwise adds the cast
    of (cast of the counter) * scale * maxSegmentSize modulo 2^32 and
    subtracts the cast from the counter; the rounded sums and products can
    differ from the exact ones ([CongestionAvoidance_binary64_rounding]). *)
Theorem CongestionAvoidance_step (h : TcpHyblaI) (tcb : TcpSocketState)
        (segmentsAcked : Z) :
  valid_config h -> valid_snapshot tcb -> 0 <= m_cWndCnt h ->
  (1 <= segmentsInWindow tcb)%Z ->
  exists cnt scale,
    cnt = Nat.iter (Z.to_nat segmentsAcked) (fun c => c + credit h tcb) (m_cWndCnt h) /\
    accumulate h tcb (Z.to_nat segmentsAcked) (m_cWndCnt h) = Ok cnt /\
    ComputeScalingFactor h tcb = Ok scale /\
    (cnt < 1 ->
     CongestionAvoidance h tcb segmentsAcked = Ok (tcb, set_cWndCnt cnt h)) /\
    (forall tcb' h',
        1 <= cnt -> CongestionAvoidance h tcb segmentsAcked = Ok (tcb', h') ->
        m_cWnd tcb' =
        ((m_cWnd tcb + Int_part (IZR (Int_part cnt) * scale * IZR (m_segmentSize tcb)))
           mod U32.modulus)%Z /\
        m_cWndCnt h' = frac_part cnt) /\
    (1 <= cnt -> cnt < IZR U32.modulus ->
     (m_cWnd tcb + Int_part (IZR (Int_part cnt) * scale * IZR (m_segmentSize tcb))
      <= U32.max_value)%Z ->
     CongestionAvoidance h tcb segmentsAcked =
     Ok (set_cWnd (m_cWnd tcb +
                   Int_part (IZR (Int_part cnt) * scale * IZR (m_segmentSize tcb))) tcb,
         set_cWndCnt (frac_part cnt) h)) /\
    (m_cWndCnt h = 0.95 -> credit h tcb = 0.2 -> segmentsAcked = 1%Z ->
     cnt = 1.15 /\
     ((m_cWnd tcb + Int_part (1 * scale * IZR (m_segmentSize tcb)) <= U32.max_value)%Z ->
      CongestionAvoidance h tcb segmentsAcked =
      Ok (set_cWnd (m_cWnd tcb + Int_part (1 * scale * IZR (m_segmentSize tcb))) tcb,
          set_cWndCnt 0.15 h))) /\
    (forall pow_rho_2 inFlightThresh rtoScalingFactor srttSeconds sRttSeconds cWndCnt w c,
        Binary64.CongestionAvoidance pow_rho_2 inFlightThresh rtoScalingFactor srttSeconds
          sRttSeconds (m_cWnd tcb) (m_segmentSize tcb) (m_bytesInFlight tcb)
          (m_nextTxSequence tcb) (m_lastAckedSeq tcb) segmentsAcked cWndCnt = Ok (w, c) ->
        exists cnt64,
          Binary64.counter pow_rho_2 (m_cWnd tcb) (m_segmentSize tcb) segmentsAcked cWndCnt
          = Ok cnt64 /\
          (Binary64.grows cnt64 = false /\ w = m_cWnd tcb /\ c = cnt64 \/
           Binary64.grows cnt64 = true /\
           exists inc scale64 scaledInc,
             Binary64.to_uint32 cnt64 = Ok inc /\
             Binary64.ComputeScalingFactor inFlightThresh rtoScalingFactor srttSeconds
               sRttSeconds (m_cWnd tcb) (m_segmentSize tcb) (m_bytesInFlight tcb)
               (m_nextTxSequence tcb) (m_lastAckedSeq tcb) = Ok scale64 /\
             Binary64.to_uint32
               (Binary64.CongestionAvoidance_product inc scale64 (m_segmentSize tcb))
             = Ok scaledInc /\
             w = ((m_cWnd tcb + scaledInc) mod U32.modulus)%Z /\
             c = Binary64.remainder cnt64 inc)).
Proof.
  intros Hc Hv H0 Hseg.
  pose proof (accumulate_credit h tcb (Z.to_nat segmentsAcked) (m_cWndCnt h) Hv Hseg)
    as Hacc.
  destruct (ComputeScalingFactor_bounds h tcb Hc Hv) as [scale [Hsc Hsb]].
  exists (Nat.iter (Z.to_nat segmentsAcked) (fun c => c + credit h tcb) (m_cWndCnt h)), scale.
  set (cnt := Nat.iter (Z.to_nat segmentsAcked) (fun c => c + credit h tcb) (m_cWndCnt h))
    in *.
  assert (Hm : (0 < m_segmentSize tcb)%Z /\ (0 <= m_cWnd tcb)%Z)
    by (unfold valid_snapshot, U32.in_range in Hv; lia).
  assert (Hmr : 0 < IZR (m_segmentSize tcb)) by (apply IZR_lt; lia).
  assert (Hgrow : 1 <= cnt -> cnt < IZR U32.modulus ->
     (m_cWnd tcb + Int_part (IZR (Int_part cnt) * scale * IZR (m_segmentSize tcb))
      <= U32.max_value)%Z ->
     CongestionAvoidance h tcb segmentsAcked =
     Ok (set_cWnd (m_cWnd tcb +
                   Int_part (IZR (Int_part cnt) * scale * IZR (m_segmentSize tcb))) tcb,
         set_cWndCnt (frac_part cnt) h)).
  { intros Hge Hlt Hfit.
    pose proof (Int_part_ge_1 cnt Hge) as Hi. apply IZR_le in Hi.
    assert (Hx0 : 0 <= IZR (Int_part cnt) * scale * IZR (m_segmentSize tcb)).
    { apply Rmult_le_pos; [apply Rmult_le_pos |]; lra. }
    pose proof (Int_part_nonneg _ Hx0) as Hxn.
    assert (Hx1 : IZR (Int_part cnt) * scale * IZR (m_segmentSize tcb) < IZR U32.modulus).
    { rewrite <- IZR_max_value. apply IZR_modulus_bound. lia. }
    rewrite (CongestionAvoidance_grow h tcb segmentsAcked cnt scale Hacc Hge Hlt Hsc
               (conj Hx0 Hx1)).
    rewrite U32_add_small by lia. reflexivity. }
  split; [reflexivity |]. split; [exact Hacc |]. split; [exact Hsc |].
  split; [intro Hlt; apply CongestionAvoidance_below; assumption |].
  split.
  { intros tcb' h' Hge H. apply CongestionAvoidance_inv in H.
    destruct H as [cnt' [Hacc' H]]. rewrite Hacc in Hacc'. inversion Hacc' as [Heq].
    rewrite <- Heq in H. clear cnt' Hacc' Heq.
    destruct H as [(Hlt & _) | (_ & inc & scale' & scaledInc & Hinc & Hsc' & Hsi & Htcb & Hh)];
      [lra |].
    rewrite Hsc in Hsc'. inversion Hsc'; subst scale'.
    apply to_uint32_nonneg_inv in Hinc; [| lra]. subst inc.
    pose proof (Int_part_ge_1 cnt Hge) as Hi. apply IZR_le in Hi.
    assert (Hx0 : 0 <= IZR (Int_part cnt) * scale * IZR (m_segmentSize tcb)).
    { apply Rmult_le_pos; [apply Rmult_le_pos |]; lra. }
    apply (to_uint32_nonneg_inv _ _ Hx0) in Hsi. subst scaledInc tcb' h'.
    split; reflexivity. }
  split; [exact Hgrow |].
  split; [| intros p thr k srtt sRtt cWndCnt w c H;
            exact (Binary64_CongestionAvoidance_inv _ _ _ _ _ _ _ _ _ _ _ _ _ _ H)].
  intros Hcnt Hcr Hn.
  assert (Hval : cnt = 1.15).
  { unfold cnt. rewrite Hn, iter_add_closed, Hcnt, Hcr.
    change (Z.to_nat 1) with 1%nat. change (INR 1) with 1. lra. }
  split; [exact Hval |]. intro Hfit.
  assert (Hi : Int_part cnt = 1%Z) by (apply Int_part_unique; rewrite Hval; lra).
  assert (Hf : frac_part cnt = 0.15) by (unfold frac_part; rewrite Hi, Hval; lra).
  rewrite Hgrow.
  - rewrite Hi, Hf. reflexivity.
  - lra.
  - rewrite Hval. modulus_value. lra.
  - rewrite Hi. exact Hfit.
Qed.

Lemma CongestionAvoidance_step_witness :
  CongestionAvoidance (hybla_counter 0.95) (tcb_quiet 5000 4000 1000) 1 =
  Ok (set_cWnd 6000 (tcb_quiet 5000 4000 1000), set_cWndCnt 0.15 (hybla_counter 0.95)).
Proof.
  assert (Hv : valid_snapshot (tcb_quiet 5000 4000 1000))
    by (apply valid_tcb_quiet; u32_range).
  assert (Hc : valid_config (hybla_counter 0.95)) by (unfold valid_config; cbn; lra).
  assert (H0 : 0 <= m_cWndCnt (hybla_counter 0.95)) by (cbn; lra).
  assert (Hseg : (1 <= segmentsInWindow (tcb_quiet 5000 4000 1000))%Z)
    by (vm_compute; discriminate).
  destruct (CongestionAvoidance_step (hybla_counter 0.95) (tcb_quiet 5000 4000 1000) 1
              Hc Hv H0 Hseg) as (cnt & scale & _ & _ & Hsc & _ & _ & _ & Hscen & _).
  assert (Hq : ComputeScalingFactor (hybla_counter 0.95) (tcb_quiet 5000 4000 1000) = Ok 1).
  { quiet_scale. }
  rewrite Hq in Hsc. inversion Hsc; subst scale.
  assert (Hx : Int_part (1 * 1 * IZR (m_segmentSize (tcb_quiet 5000 4000 1000))) = 1000%Z)
    by (apply Int_part_unique; cbn [m_segmentSize tcb_quiet]; lra).
  destruct Hscen as [_ Hca].
  - reflexivity.
  - unfold credit. change (segmentsInWindow (tcb_quiet 5000 4000 1000)) with 5%Z.
    cbn [m_rho hybla_counter set_cWndCnt TcpHyblaI_new]. lra.
  - reflexivity.
  - rewrite Hx in Hca. apply Hca. vm_compute. discriminate.
Defined.

(* ------------------------------------------------------------------ *)
(** ** Slow start *)

Lemma Rpower_2_ge_2 (rho : R) : 1 <= rho -> 2 <= Rpower 2 rho.
Proof.
  intro Hr. rewrite <- (Rpower_1 2) at 1 by lra.
  apply Rle_Rpower; lra.
Qed.

Lemma SlowStart_none (h : TcpHyblaI) (tcb : TcpSocketState) (n : Z) :
  (m_cWnd tcb <= m_ssThresh tcb)%Z -> (n < 1)%Z -> SlowStart h tcb n = Ok (tcb, 0%Z).
Proof.
  intros Hp Hn. unfold SlowStart.
  destruct (Z.leb_spec (m_cWnd tcb) (m_ssThresh tcb)); [| lia]. cbn [NS_ASSERT bind].
  destruct (Z.leb_spec 1 n); [lia | reflexivity].
Qed.

(** Called above the threshold, the assertion stops the call. *)
Lemma SlowStart_precondition (h : TcpHyblaI) (tcb : TcpSocketState) (n : Z) :
  (m_ssThresh tcb < m_cWnd tcb)%Z -> SlowStart h tcb n = Fault AssertionFailed.
Proof.
  intro Hp. unfold SlowStart.
  destruct (Z.leb_spec (m_cWnd tcb) (m_ssThresh tcb)); [lia | reflexivity].
Qed.

Lemma SlowStart_Ok (h : TcpHyblaI) (tcb : TcpSocketState) (n : Z) (scale : R) :
  (m_cWnd tcb <= m_ssThresh tcb)%Z -> (1 <= n)%Z ->
  ComputeScalingFactor h tcb = Ok scale ->
  0 <= (Rpower 2 (m_rho h) - 1) * scale * IZR (m_segmentSize tcb) < IZR U32.modulus ->
  SlowStart h tcb n =
  Ok (set_cWnd (std_min (U32.add (m_cWnd tcb)
                           (Int_part ((Rpower 2 (m_rho h) - 1) * scale *
                                      IZR (m_segmentSize tcb))))
                        (m_ssThresh tcb)) tcb,
      (n - 1)%Z).
Proof.
  intros Hp Hn Hsc [Hx0 Hx1]. unfold SlowStart.
  destruct (Z.leb_spec (m_cWnd tcb) (m_ssThresh tcb)); [| lia]. cbn [NS_ASSERT bind].
  destruct (Z.leb_spec 1 n); [| lia].
  rewrite Hsc. cbn [bind]. rewrite to_uint32_floor by assumption. reflexivity.
Qed.

Lemma SlowStart_inv (h : TcpHyblaI) (tcb tcb' : TcpSocketState) (n r : Z) :
  SlowStart h tcb n = Ok (tcb', r) ->
  (m_cWnd tcb <= m_ssThresh tcb)%Z /\
  ((n < 1)%Z /\ tcb' = tcb /\ r = 0%Z \/
   (1 <= n)%Z /\
   exists scale incr,
     ComputeScalingFactor h tcb = Ok scale /\
     to_uint32 ((Rpower 2 (m_rho h) - 1) * scale * IZR (m_segmentSize tcb)) = Ok incr /\
     tcb' = set_cWnd (std_min (U32.add (m_cWnd tcb) incr) (m_ssThresh tcb)) tcb /\
     r = (n - 1)%Z).
Proof.
  unfold SlowStart. intro H.
  destruct (Z.leb_spec (m_cWnd tcb) (m_ssThresh tcb)) as [Hp | Hp];
    cbn [NS_ASSERT bind] in H; [| discriminate].
  split; [assumption |].
  destruct (Z.leb_spec 1 n) as [Hn | Hn].
  - right. split; [assumption |].
    bind_inv H as scale Hsc.
    bind_inv H as incr Hi.
    inversion H; subst. exists scale, incr. auto.
  - left. inversion H; subst. auto.
Qed.

Lemma SlowStart_increment_nonneg (h : TcpHyblaI) (tcb : TcpSocketState) (scale : R) :
  1 <= m_rho h -> 0.5 <= scale <= 1 -> (0 < m_segmentSize tcb)%Z ->
  0 <= (Rpower 2 (m_rho h) - 1) * scale * IZR (m_segmentSize tcb).
Proof.
  intros Hr Hs Hm. pose proof (Rpower_2_ge_2 _ Hr).
  assert (0 < IZR (m_segmentSize tcb)) by (apply IZR_lt; lia).
  apply Rmult_le_pos; [apply Rmult_le_pos |]; lra.
Qed.

(** A run of [SlowStart] on a window close to 2^32. *)
Lemma SlowStart_large_window :
  valid_snapshot tcb_large_slow_start /\
  (m_cWnd tcb_large_slow_start <= m_ssThresh tcb_large_slow_start)%Z /\
  ComputeScalingFactor TcpHyblaI_new tcb_large_slow_start = Ok 1 /\
  Z.min (m_cWnd tcb_large_slow_start +
         Int_part ((Rpower 2 (m_rho TcpHyblaI_new) - 1) * 1 *
                   IZR (m_segmentSize tcb_large_slow_start)))
        (m_ssThresh tcb_large_slow_start) = 4294967295%Z /\
  SlowStart TcpHyblaI_new tcb_large_slow_start 1 = Ok (set_cWnd 704 tcb_large_slow_start, 0%Z).
Proof.
  assert (Hv : valid_snapshot tcb_large_slow_start)
    by (apply valid_tcb_quiet; u32_range).
  assert (Hsc : ComputeScalingFactor TcpHyblaI_new tcb_large_slow_start = Ok 1).
  { quiet_scale. }
  assert (Hp : Rpower 2 (m_rho TcpHyblaI_new) = 2)
    by (cbn [m_rho TcpHyblaI_new]; apply Rpower_1; lra).
  assert (Hx : Int_part ((Rpower 2 (m_rho TcpHyblaI_new) - 1) * 1 *
                         IZR (m_segmentSize tcb_large_slow_start)) = 1000%Z).
  { rewrite Hp. apply Int_part_unique.
    cbn [m_segmentSize tcb_large_slow_start tcb_quiet]. lra. }
  split; [exact Hv |]. split; [vm_compute; discriminate |]. split; [exact Hsc |].
  split.
  - rewrite Hx. reflexivity.
  - rewrite (SlowStart_Ok TcpHyblaI_new tcb_large_slow_start 1 1).
    + rewrite Hx. reflexivity.
    + vm_compute; discriminate.
    + lia.
    + exact Hsc.
    + rewrite Hp. cbn [m_segmentSize tcb_large_slow_start tcb_quiet].
      modulus_value. lra.
Qed.

(** The scaling factor of a fresh controller for 23300 of 25000 bytes in
    flight, in exact arithmetic: 1 - (0.932 - 0.8) * 0.5 = 0.934. *)
Lemma ComputeScalingFactor_rounding_example :
  ComputeScalingFactor TcpHyblaI_new tcb_rounding = Ok 0.934.
Proof.
  assert (Hir : inflightRatio tcb_rounding = Ok 0.932).
  { unfold inflightRatio. cbn [m_cWnd m_bytesInFlight tcb_rounding].
    destruct (Rlt_dec 0 25000) as [_ | Hn]; [| exfalso; apply Hn; lra].
    rewrite ddiv_Ok by lra. f_equal. lra. }
  assert (Hrr : rtoRatio TcpHyblaI_new tcb_rounding = Ok 1).
  { unfold rtoRatio. cbn [m_sRtt TcpHyblaI_new].
    destruct (IsZero (Seconds 0)) as [_ | Hn]; [| exfalso; apply Hn, Seconds_0].
    cbn [bind]. unfold std_max. destruct (Rlt_dec 1 1); [lra | reflexivity]. }
  assert (Hosf : outstandingFactor tcb_rounding = Ok 1) by reflexivity.
  assert (Hrf : rtoFactor TcpHyblaI_new 1 = Ok 1).
  { unfold rtoFactor. rewrite ddiv_Ok by (cbn [m_rtoScalingFactor TcpHyblaI_new]; lra).
    f_equal. cbn [m_rtoScalingFactor TcpHyblaI_new]. field. }
  unfold ComputeScalingFactor. rewrite Hir, Hrr, Hosf. cbn [bind]. rewrite Hrf. cbn [bind].
  f_equal. unfold inflightFactor, std_max. cbn [m_inFlightThresh TcpHyblaI_new].
  destruct (Rlt_dec 0.8 0.932) as [_ | Hn]; [| exfalso; apply Hn; lra].
  destruct (Rlt_dec (1 - (0.932 - 0.8) * 0.5) 0.5); [lra |].
  destruct (Rlt_dec ((1 - (0.932 - 0.8) * 0.5) * 1 * 1) 0.5); lra.
Qed.

(** The theorems on [SlowStart] read the doubles as exact reals; the code
    rounds.  On a fresh controller (rho = 1, [std::pow (2, 1.0)] = 2.0) with
    23300 of 25000 bytes in flight and segments of 1000 bytes, exact
    arithmetic gives the scale 0.934 and a step of 934 bytes; binary64 gives
    the scale 0.93399999999999994 and the product 933.99999999999989, of
    which the cast keeps 933. *)
Lemma SlowStart_binary64_rounding :
  SlowStart TcpHyblaI_new tcb_rounding 1 = Ok (set_cWnd 25934 tcb_rounding, 0%Z) /\
  Binary64.SlowStart Binary64.two Binary64.default_inFlightThresh
    Binary64.default_rtoScalingFactor Binary64.zero None
    25000 65535 1000 23300 0 0 1 = Ok (25933, 0)%Z.
Proof.
  split; [| vm_compute; reflexivity].
  rewrite (SlowStart_Ok TcpHyblaI_new tcb_rounding 1 0.934).
  - cbn [m_rho TcpHyblaI_new m_cWnd m_segmentSize m_ssThresh tcb_rounding].
    rewrite Rpower_1 by lra.
    rewrite (Int_part_unique ((2 - 1) * 0.934 * 1000) 934) by lra.
    reflexivity.
  - vm_compute. discriminate.
  - lia.
  - exact ComputeScalingFactor_rounding_example.
  - cbn [m_rho TcpHyblaI_new m_segmentSize tcb_rounding]. rewrite Rpower_1 by lra.
    modulus_value. lra.
Qed.

(** C2, as stated, fails when the sum leaves uint32_t.  With a window of
    4294967000 bytes, the threshold 4294967295, segments of 1000 bytes,
    rho = 1 and a scaling factor of 1, the claim gives
    min (4294967000 + 1000, 4294967295) = 4294967295; the code leaves
    min ((4294967000 + 1000) mod 2^32, 4294967295) = 704. *)
Lemma SlowStart_wrap_counterexample :
  valid_snapshot tcb_large_slow_start /\
  (m_cWnd tcb_large_slow_start <= m_ssThresh tcb_large_slow_start)%Z /\
  exists scale tcb' r,
    ComputeScalingFactor TcpHyblaI_new tcb_large_slow_start = Ok scale /\
    SlowStart TcpHyblaI_new tcb_large_slow_start 1 = Ok (tcb', r) /\
    m_cWnd tcb' = 704%Z /\
    Z.min (m_cWnd tcb_large_slow_start +
           Int_part ((Rpower 2 (m_rho TcpHyblaI_new) - 1) * scale *
                     IZR (m_segmentSize tcb_large_slow_start)))
          (m_ssThresh tcb_large_slow_start) = 4294967295%Z /\
    m_cWnd tcb' <>
    Z.min (m_cWnd tcb_large_slow_start +
           Int_part ((Rpower 2 (m_rho TcpHyblaI_new) - 1) * scale *
                     IZR (m_segmentSize tcb_large_slow_start)))
          (m_ssThresh tcb_large_slow_start).
Proof.
  destruct SlowStart_large_window as (Hv & Hp & Hsc & Hmin & Hrun).
  split; [exact Hv |]. split; [exact Hp |].
  exists 1, (set_cWnd 704 tcb_large_slow_start), 0%Z.
  split; [exact Hsc |]. split; [exact Hrun |]. split; [reflexivity |].
  split; [exact Hmin |]. rewrite Hmin. cbn [m_cWnd set_cWnd]. lia.
Qed.

(** C2, amended. Read in exact arithmetic (the doubles as real numbers),
    under the precondition congestionWindow <= slowStartThreshold: with
    segmentsAcked = 0 [SlowStart] changes nothing and returns 0; with
    segmentsAcked >= 1 every returning call leaves
    min ((congestionWindow + incrementBytes) mod 2^32, slowStartThreshold),
    never above the threshold, and returns segmentsAcked - 1, where
    incrementBytes = floor ((2^rho - 1) * scale * maxSegmentSize); provided
    congestionWindow + incrementBytes fits uint32_t the call returns and
    the window is min (congestionWindow + incrementBytes,
    slowStartThreshold).  With rho = 1.0, a scaling factor of 1.0 and
    segmentsAcked = 1 the increment is one maxSegmentSize.  On the doubles
    of the code a returning call leaves the same minimum, never above the
    threshold, and returns segmentsAcked - 1, with incrementBytes the cast
    of the rounded product, which can be a byte less than the exact floor
    ([SlowStart_binary64_rounding]). *)
Theorem SlowStart_step (h : TcpHyblaI) (tcb : TcpSocketState) (segmentsAcked : Z) :
  valid_config h -> valid_snapshot tcb -> 1 <= m_rho h ->
  (m_cWnd tcb <= m_ssThresh tcb)%Z ->
  (segmentsAcked = 0%Z -> SlowStart h tcb segmentsAcked = Ok (tcb, 0%Z)) /\
  exists scale,
    ComputeScalingFactor h tcb = Ok scale /\
    (forall tcb' r,
        (1 <= segmentsAcked)%Z -> SlowStart h tcb segmentsAcked = Ok (tcb', r) ->
        m_cWnd tcb' =
        Z.min ((m_cWnd tcb +
                Int_part ((Rpower 2 (m_rho h) - 1) * scale * IZR (m_segmentSize tcb)))
               mod U32.modulus) (m_ssThresh tcb) /\
        (m_cWnd tcb' <= m_ssThresh tcb)%Z /\ r = (segmentsAcked - 1)%Z) /\
    ((1 <= segmentsAcked)%Z ->
     (m_cWnd tcb + Int_part ((Rpower 2 (m_rho h) - 1) * scale * IZR (m_segmentSize tcb))
      <= U32.max_value)%Z ->
     SlowStart h tcb segmentsAcked =
     Ok (set_cWnd
           (Z.min (m_cWnd tcb +
                   Int_part ((Rpower 2 (m_rho h) - 1) * scale * IZR (m_segmentSize tcb)))
                  (m_ssThresh tcb)) tcb,
         (segmentsAcked - 1)%Z)) /\
    (m_rho h = 1 -> scale = 1 ->
     Int_part ((Rpower 2 (m_rho h) - 1) * scale * IZR (m_segmentSize tcb))
     = m_segmentSize tcb) /\
    (forall pow_2_rho inFlightThresh rtoScalingFactor srttSeconds sRttSeconds w r,
        (1 <= segmentsAcked)%Z ->
        Binary64.SlowStart pow_2_rho inFlightThresh rtoScalingFactor srttSeconds
          sRttSeconds (m_cWnd tcb) (m_ssThresh tcb) (m_segmentSize tcb)
          (m_bytesInFlight tcb) (m_nextTxSequence tcb) (m_lastAckedSeq tcb)
          segmentsAcked = Ok (w, r) ->
        exists scale64 incr,
          Binary64.ComputeScalingFactor inFlightThresh rtoScalingFactor srttSeconds
            sRttSeconds (m_cWnd tcb) (m_segmentSize tcb) (m_bytesInFlight tcb)
            (m_nextTxSequence tcb) (m_lastAckedSeq tcb) = Ok scale64 /\
          Binary64.to_uint32
            (Binary64.SlowStart_product pow_2_rho scale64 (m_segmentSize tcb)) = Ok incr /\
          w = Z.min ((m_cWnd tcb + incr) mod U32.modulus) (m_ssThresh tcb) /\
          (w <= m_ssThresh tcb)%Z /\ r = (segmentsAcked - 1)%Z).
Proof.
  intros Hc Hv Hrho Hpre.
  split; [intro Hn; apply SlowStart_none; [assumption | lia] |].
  destruct (ComputeScalingFactor_bounds h tcb Hc Hv) as [scale [Hsc Hsb]].
  exists scale. split; [exact Hsc |].
  assert (Hm : (0 < m_segmentSize tcb)%Z /\ (0 <= m_cWnd tcb)%Z)
    by (unfold valid_snapshot, U32.in_range in Hv; lia).
  pose proof (SlowStart_increment_nonneg h tcb scale Hrho Hsb (proj1 Hm)) as Hx0.
  split; [| split].
  - intros tcb' r Hn H. apply SlowStart_inv in H.
    destruct H as [_ [(Hlt & _) | (_ & scale' & incr & Hsc' & Hi & Htcb & Hr)]]; [lia |].
    rewrite Hsc in Hsc'. inversion Hsc'; subst scale'.
    apply (to_uint32_nonneg_inv _ _ Hx0) in Hi. subst incr tcb' r.
    cbn [m_cWnd set_cWnd]. rewrite std_min_Zmin. unfold U32.add, U32.wrap.
    split; [reflexivity |]. split; [lia | reflexivity].
  - intros Hn Hfit.
    pose proof (Int_part_nonneg _ Hx0) as Hxn.
    rewrite (SlowStart_Ok h tcb segmentsAcked scale Hpre Hn Hsc).
    + rewrite U32_add_small by lia. rewrite std_min_Zmin. reflexivity.
    + split; [assumption |]. rewrite <- IZR_max_value. apply IZR_modulus_bound. lia.
  - split.
    + intros H1 Hs1. rewrite H1, Hs1, Rpower_1 by lra.
      apply Int_part_unique. lra.
    + intros p thr k srtt sRtt w r Hn H.
      exact (Binary64_SlowStart_inv _ _ _ _ _ _ _ _ _ _ _ _ _ _ Hn H).
Qed.

Lemma SlowStart_step_witness :
  SlowStart TcpHyblaI_new (tcb_quiet 10000 65535 1000) 1 =
  Ok (set_cWnd 11000 (tcb_quiet 10000 65535 1000), 0%Z).
Proof.
  assert (Hv : valid_snapshot (tcb_quiet 10000 65535 1000))
    by (apply valid_tcb_quiet; u32_range).
  assert (Hc : valid_config TcpHyblaI_new) by (unfold valid_config; cbn; lra).
  assert (Hr : 1 <= m_rho TcpHyblaI_new) by (cbn; lra).
  assert (Hp : (m_cWnd (tcb_quiet 10000 65535 1000)
                <= m_ssThresh (tcb_quiet 10000 65535 1000))%Z)
    by (vm_compute; discriminate).
  destruct (SlowStart_step TcpHyblaI_new (tcb_quiet 10000 65535 1000) 1 Hc Hv Hr Hp)
    as (_ & scale & Hsc & _ & Hrun & Hone & _).
  assert (Hq : ComputeScalingFactor TcpHyblaI_new (tcb_quiet 10000 65535 1000) = Ok 1).
  { quiet_scale. }
  rewrite Hq in Hsc. inversion Hsc; subst scale.
  rewrite (Hone eq_refl eq_refl) in Hrun. apply Hrun; vm_compute; discriminate.
Defined.

(* ------------------------------------------------------------------ *)
(** ** Monotony of the window *)

(** C6, as stated, fails: the addition to the window is an unsigned 32-bit
    addition.  From 4294967000 bytes, a growth of 1000 bytes leaves 704
    bytes, in [CongestionAvoidance] and, under its precondition, in
    [SlowStart]. *)
Lemma growth_step_decreases_counterexample :
  (exists tcb' h',
      CongestionAvoidance (hybla_counter 0.9999999) tcb_large_avoidance 1 = Ok (tcb', h') /\
      (m_cWnd tcb' < m_cWnd tcb_large_avoidance)%Z) /\
  (exists tcb' r,
      (m_cWnd tcb_large_slow_start <= m_ssThresh tcb_large_slow_start)%Z /\
      SlowStart TcpHyblaI_new tcb_large_slow_start 1 = Ok (tcb', r) /\
      (m_cWnd tcb' < m_cWnd tcb_large_slow_start)%Z).
Proof.
  split.
  - destruct CongestionAvoidance_large_window as (_ & _ & _ & _ & _ & h' & Hrun).
    exists (set_cWnd 704 tcb_large_avoidance), h'. split; [exact Hrun |].
    vm_compute. reflexivity.
  - destruct SlowStart_large_window as (_ & Hp & _ & _ & Hrun).
    exists (set_cWnd 704 tcb_large_slow_start), 0%Z.
    split; [exact Hp |]. split; [exact Hrun |]. vm_compute. reflexivity.
Qed.

(** C6, amended. A growth step whose sum congestionWindow + increment fits
    uint32_t never decreases congestionWindow: [CongestionAvoidance] leaves
    it at or above its value at entry, and so does [SlowStart] under its
    precondition congestionWindow <= slowStartThreshold. *)
Theorem growth_steps_never_decrease (h : TcpHyblaI) (tcb : TcpSocketState)
        (segmentsAcked : Z) :
  valid_config h -> valid_snapshot tcb -> 1 <= m_rho h ->
  (forall tcb' h' cnt scale,
      accumulate h tcb (Z.to_nat segmentsAcked) (m_cWndCnt h) = Ok cnt ->
      ComputeScalingFactor h tcb = Ok scale ->
      (1 <= cnt ->
       (m_cWnd tcb + Int_part (IZR (Int_part cnt) * scale * IZR (m_segmentSize tcb))
        <= U32.max_value)%Z) ->
      CongestionAvoidance h tcb segmentsAcked = Ok (tcb', h') ->
      (m_cWnd tcb <= m_cWnd tcb')%Z) /\
  (forall tcb' r scale,
      (m_cWnd tcb <= m_ssThresh tcb)%Z ->
      ComputeScalingFactor h tcb = Ok scale ->
      (m_cWnd tcb + Int_part ((Rpower 2 (m_rho h) - 1) * scale * IZR (m_segmentSize tcb))
       <= U32.max_value)%Z ->
      SlowStart h tcb segmentsAcked = Ok (tcb', r) ->
      (m_cWnd tcb <= m_cWnd tcb' <= m_ssThresh tcb)%Z).
Proof.
  intros Hc Hv Hrho.
  assert (Hm : (0 < m_segmentSize tcb)%Z /\ (0 <= m_cWnd tcb)%Z)
    by (unfold valid_snapshot, U32.in_range in Hv; lia).
  assert (Hmr : 0 < IZR (m_segmentSize tcb)) by (apply IZR_lt; lia).
  destruct (ComputeScalingFactor_bounds h tcb Hc Hv) as [scale0 [Hsc0 Hsb]].
  split.
  - intros tcb' h' cnt scale Hacc Hsc Hfit H.
    rewrite Hsc0 in Hsc. inversion Hsc; subst scale0.
    apply CongestionAvoidance_inv in H. destruct H as [cnt' [Hacc' H]].
    rewrite Hacc in Hacc'. inversion Hacc'; subst cnt'.
    destruct H as [(_ & Htcb & _) | (Hge & inc & scale' & scaledInc & Hinc & Hsc' & Hsi & Htcb & _)].
    + subst tcb'. lia.
    + rewrite Hsc0 in Hsc'. inversion Hsc'; subst scale'.
      apply to_uint32_nonneg_inv in Hinc; [| lra]. subst inc.
      pose proof (Int_part_ge_1 cnt Hge) as Hi. apply IZR_le in Hi.
      assert (Hx0 : 0 <= IZR (Int_part cnt) * scale * IZR (m_segmentSize tcb)).
      { apply Rmult_le_pos; [apply Rmult_le_pos |]; lra. }
      apply (to_uint32_nonneg_inv _ _ Hx0) in Hsi. subst scaledInc tcb'.
      pose proof (Int_part_nonneg _ Hx0) as Hxn. specialize (Hfit Hge).
      cbn [m_cWnd set_cWnd]. rewrite U32_add_small by lia. lia.
  - intros tcb' r scale Hpre Hsc Hfit H.
    rewrite Hsc0 in Hsc. inversion Hsc; subst scale0.
    pose proof (SlowStart_increment_nonneg h tcb scale Hrho Hsb (proj1 Hm)) as Hx0.
    pose proof (Int_part_nonneg _ Hx0) as Hxn.
    apply SlowStart_inv in H.
    destruct H as [_ [(_ & Htcb & _) | (_ & scale' & incr & Hsc' & Hi & Htcb & _)]].
    + subst tcb'. lia.
    + rewrite Hsc0 in Hsc'. inversion Hsc'; subst scale'.
      apply (to_uint32_nonneg_inv _ _ Hx0) in Hi. subst incr tcb'.
      cbn [m_cWnd set_cWnd]. rewrite std_min_Zmin, U32_add_small by lia. lia.
Qed.

Lemma growth_steps_never_decrease_witness :
  (m_cWnd (tcb_quiet 10000 65535 1000)
   <= m_cWnd (set_cWnd 11000 (tcb_quiet 10000 65535 1000))
   <= m_ssThresh (tcb_quiet 10000 65535 1000))%Z.
Proof.
  assert (Hv : valid_snapshot (tcb_quiet 10000 65535 1000))
    by (apply valid_tcb_quiet; u32_range).
  assert (Hc : valid_config TcpHyblaI_new) by (unfold valid_config; cbn; lra).
  assert (Hr : 1 <= m_rho TcpHyblaI_new) by (cbn; lra).
  assert (Hq : ComputeScalingFactor TcpHyblaI_new (tcb_quiet 10000 65535 1000) = Ok 1).
  { quiet_scale. }
  assert (Hx : Int_part ((Rpower 2 (m_rho TcpHyblaI_new) - 1) * 1 *
                         IZR (m_segmentSize (tcb_quiet 10000 65535 1000))) = 1000%Z).
  { cbn [m_rho TcpHyblaI_new m_segmentSize tcb_quiet]. rewrite Rpower_1 by lra.
    apply Int_part_unique. lra. }
  destruct (growth_steps_never_decrease TcpHyblaI_new (tcb_quiet 10000 65535 1000) 1
              Hc Hv Hr) as [_ Hss].
  apply (Hss (set_cWnd 11000 (tcb_quiet 10000 65535 1000)) 0%Z 1).
  - vm_compute; discriminate.
  - exact Hq.
  - rewrite Hx. vm_compute; discriminate.
  - rewrite (SlowStart_Ok TcpHyblaI_new (tcb_quiet 10000 65535 1000) 1 1).
    + rewrite Hx. reflexivity.
    + vm_compute; discriminate.
    + lia.
    + exact Hq.
    + cbn [m_rho TcpHyblaI_new m_segmentSize tcb_quiet]. rewrite Rpower_1 by lra.
      modulus_value. lra.
Defined.

(* ================================================================== *)
(** * Two runs, and the invariants on the states they reach *)

(** A first sample of 100 ms that is also the minimum RTT: the smoothed
    RTT becomes 100 ms and rho becomes 100 / 50 = 2. *)
Lemma PktsAcked_first_sample (mul : Time -> R -> Time) :
  PktsAcked mul TcpHyblaI_new tcb_busy 1 (MilliSeconds 100) =
  Ok (tcb_busy, set_rho 2 hybla_100ms).
Proof.
  unfold PktsAcked.
  assert (Hsm : smooth mul TcpHyblaI_new (MilliSeconds 100) = MilliSeconds 100).
  { unfold smooth. cbn [m_sRtt TcpHyblaI_new].
    destruct (Req_dec_T (Seconds 0) (Seconds 0)); [reflexivity | contradiction]. }
  rewrite Hsm. fold hybla_100ms.
  destruct (Req_dec_T (MilliSeconds 100) (m_minRtt tcb_busy)) as [_ | Hne];
    [| exfalso; apply Hne; reflexivity].
  assert (Hc : candidateRho hybla_100ms tcb_busy = Ok (100 / 50)).
  { assert (Hr : GetMilliSeconds (m_rRtt hybla_100ms) = 50%Z)
      by apply GetMilliSeconds_MilliSeconds.
    rewrite candidateRho_Ok by (rewrite Hr; lia). rewrite Hr.
    assert (He : effectiveRtt hybla_100ms tcb_busy = MilliSeconds 100).
    { unfold effectiveRtt, hybla_100ms. cbn [m_sRtt set_sRtt].
      destruct (IsZero (MilliSeconds 100)) as [Hz | _]; [| reflexivity].
      unfold MilliSeconds in Hz. lra. }
    rewrite He, GetMilliSeconds_MilliSeconds. reflexivity. }
  rewrite (HyblaIRecalcParam_Ok _ _ _ Hc). cbn [bind].
  assert (Hm : std_max (100 / 50) 1 = 2)
    by (unfold std_max; destruct (Rlt_dec (100 / 50) 1); lra).
  rewrite Hm. reflexivity.
Qed.

(** One acknowledged segment on a window of five segments, from a counter
    of 0.95: the counter passes 1.0 and the window grows by one segment. *)
Lemma CongestionAvoidance_one_segment :
  CongestionAvoidance (hybla_counter 0.95) (tcb_quiet 5000 4000 1000) 1 =
  Ok (set_cWnd 6000 (tcb_quiet 5000 4000 1000), set_cWndCnt 0.15 (hybla_counter 0.95)).
Proof.
  assert (Hsc : ComputeScalingFactor (hybla_counter 0.95) (tcb_quiet 5000 4000 1000) = Ok 1).
  { quiet_scale. }
  assert (Hacc : accumulate (hybla_counter 0.95) (tcb_quiet 5000 4000 1000) (Z.to_nat 1)
                            (m_cWndCnt (hybla_counter 0.95)) = Ok 1.15).
  { rewrite accumulate_iter by (vm_compute; discriminate).
    f_equal. rewrite iter_add_closed.
    change (m_cWnd (tcb_quiet 5000 4000 1000) / m_segmentSize (tcb_quiet 5000 4000 1000))%Z
      with 5%Z.
    change (Z.to_nat 1) with 1%nat. change (INR 1) with 1.
    cbn [m_rho m_cWndCnt hybla_counter set_cWndCnt TcpHyblaI_new]. lra. }
  assert (Hi : Int_part 1.15 = 1%Z) by (apply Int_part_unique; lra).
  assert (Hf : frac_part 1.15 = 0.15) by (unfold frac_part; rewrite Hi; lra).
  assert (Hx : Int_part (IZR 1 * 1 * IZR (m_segmentSize (tcb_quiet 5000 4000 1000)))
               = 1000%Z)
    by (apply Int_part_unique; cbn [m_segmentSize tcb_quiet]; lra).
  rewrite (CongestionAvoidance_grow _ _ _ 1.15 1 Hacc).
  - rewrite Hi, Hf, Hx. reflexivity.
  - lra.
  - modulus_value. lra.
  - exact Hsc.
  - rewrite Hi. cbn [m_segmentSize tcb_quiet].
    modulus_value. lra.
Qed.

Lemma rho_at_least_one_witness : 1 <= m_rho (set_rho 2 hybla_100ms).
Proof.
  destruct rho_at_least_one as (_ & Hreach & _).
  apply Hreach.
  apply (reach_PktsAcked nearest_product TcpHyblaI_new (set_rho 2 hybla_100ms)
           tcb_busy tcb_busy 1 (MilliSeconds 100)).
  - apply reach_new.
  - exact valid_tcb_busy.
  - exact (PktsAcked_first_sample nearest_product).
Defined.

Lemma fractional_counter_invariant_witness :
  0 <= m_cWndCnt (set_cWndCnt 0.15 (hybla_counter 0.95)) < 1.
Proof.
  destruct fractional_counter_invariant as (_ & _ & Hstep & _).
  apply (Hstep (hybla_counter 0.95) (tcb_quiet 5000 4000 1000) 1%Z
               (set_cWnd 6000 (tcb_quiet 5000 4000 1000))
               (set_cWndCnt 0.15 (hybla_counter 0.95)) 1.15).
  - cbn. lra.
  - apply valid_tcb_quiet; u32_range.
  - rewrite accumulate_iter by (vm_compute; discriminate).
    f_equal. rewrite iter_add_closed.
    change (m_cWnd (tcb_quiet 5000 4000 1000) / m_segmentSize (tcb_quiet 5000 4000 1000))%Z
      with 5%Z.
    change (Z.to_nat 1) with 1%nat. change (INR 1) with 1.
    cbn [m_rho m_cWndCnt hybla_counter set_cWndCnt TcpHyblaI_new]. lra.
  - exact CongestionAvoidance_one_segment.
Defined.

(* ================================================================== *)
(** * Further properties of the controller *)

(** ** The damping factors *)



Lemma inflightFactor_antitone (h : TcpHyblaI) (r1 r2 : R) :
  r1 <= r2 -> inflightFactor h r2 <= inflightFactor h r1.
Proof.
  intro Hle. unfold inflightFactor, std_max.
  destruct (Rlt_dec (m_inFlightThresh h) r1); destruct (Rlt_dec (m_inFlightThresh h) r2);
    repeat match goal with
           | |- context [Rlt_dec ?a ?b] => destruct (Rlt_dec a b)
           end; lra.
Qed.

Lemma std_max_monotone (a b c : R) : a <= b -> std_max a c <= std_max b c.
Proof. intro H. unfold std_max. destruct (Rlt_dec a c); destruct (Rlt_dec b c); lra. Qed.

Lemma inflightRatio_monotone (tcb : TcpSocketState) (b1 b2 : Z) (r1 r2 : R) :
  (b1 <= b2)%Z ->
  inflightRatio (set_bytesInFlight b1 tcb) = Ok r1 ->
  inflightRatio (set_bytesInFlight b2 tcb) = Ok r2 ->
  r1 <= r2.
Proof.
  intro Hb. unfold inflightRatio. cbn [m_cWnd m_bytesInFlight set_bytesInFlight].
  destruct (Rlt_dec 0 (IZR (m_cWnd tcb))) as [Hc | Hc].
  - rewrite !ddiv_Ok by lra. intros H1 H2. inversion H1. inversion H2.
    apply IZR_le in Hb. unfold Rdiv.
    apply Rmult_le_compat_r; [apply Rlt_le, Rinv_0_lt_compat; assumption | assumption].
  - intros H1 H2. inversion H1. inversion H2. lra.
Qed.

(** X2. With everything else fixed, more bytes in flight never raise the
    scaling factor: [ComputeScalingFactor] returns on both snapshots, and
    the factor of the fuller pipe is the smaller or equal one. *)
Theorem ComputeScalingFactor_antitone_inflight (h : TcpHyblaI) (tcb : TcpSocketState)
        (b1 b2 : Z) :
  valid_config h -> valid_snapshot tcb -> (0 <= b1 <= b2)%Z ->
  exists f1 f2,
    ComputeScalingFactor h (set_bytesInFlight b1 tcb) = Ok f1 /\
    ComputeScalingFactor h (set_bytesInFlight b2 tcb) = Ok f2 /\
    f2 <= f1.
Proof.
  intros [_ Hk] Hv Hb.
  assert (Hs : m_segmentSize tcb <> 0%Z) by (unfold valid_snapshot in Hv; lia).
  destruct (ComputeScalingFactor_factors h (set_bytesInFlight b1 tcb) Hk Hs)
    as (ir1 & rr1 & rf1 & osf1 & Hir1 & Hrr1 & Hrf1 & Hosf1 & Hrfb1 & Hosfv1 & Hc1).
  destruct (ComputeScalingFactor_factors h (set_bytesInFlight b2 tcb) Hk Hs)
    as (ir2 & rr2 & rf2 & osf2 & Hir2 & Hrr2 & Hrf2 & Hosf2 & Hrfb2 & Hosfv2 & Hc2).
  (* the RTO ratio and the outstanding data do not read bytesInFlight *)
  change (rtoRatio h (set_bytesInFlight b2 tcb)) with
    (rtoRatio h (set_bytesInFlight b1 tcb)) in Hrr2.
  rewrite Hrr1 in Hrr2. inversion Hrr2; subst rr2.
  rewrite Hrf1 in Hrf2. inversion Hrf2; subst rf2.
  change (outstandingFactor (set_bytesInFlight b2 tcb)) with
    (outstandingFactor (set_bytesInFlight b1 tcb)) in Hosf2.
  rewrite Hosf1 in Hosf2. inversion Hosf2; subst osf2.
  pose proof (inflightRatio_monotone tcb b1 b2 ir1 ir2 (proj2 Hb) Hir1 Hir2) as Hir.
  pose proof (inflightFactor_antitone h ir1 ir2 Hir) as Hif.
  eexists. eexists. split; [exact Hc1 |]. split; [exact Hc2 |].
  apply std_max_monotone.
  assert (0 < osf1) by (destruct Hosfv1; lra).
  apply Rmult_le_compat_r; [lra |]. apply Rmult_le_compat_r; lra.
Qed.

Lemma ComputeScalingFactor_antitone_inflight_witness :
  exists f1 f2,
    ComputeScalingFactor hybla_100ms (set_bytesInFlight 5000 tcb_busy) = Ok f1 /\
    ComputeScalingFactor hybla_100ms (set_bytesInFlight 9000 tcb_busy) = Ok f2 /\
    f2 <= f1.
Proof.
  apply (ComputeScalingFactor_antitone_inflight hybla_100ms tcb_busy 5000 9000).
  - exact valid_hybla_100ms.
  - exact valid_tcb_busy.
  - lia.
Defined.

(** X3. When the attribute RtoScalingFactor is 1 or more (1.0 is the
    default) and the smoothed RTT of the socket is at least the positive
    smoothed RTT of the controller, the RTO ratio is 2 or more, the RTO
    factor is at most 0.5, and [ComputeScalingFactor] returns exactly the
    floor 0.5, whatever is in flight or outstanding. *)
Theorem ComputeScalingFactor_at_floor (h : TcpHyblaI) (tcb : TcpSocketState) :
  valid_snapshot tcb -> 1 <= m_rtoScalingFactor h ->
  0 < m_sRtt h <= m_srtt tcb ->
  exists rr rf,
    rtoRatio h tcb = Ok rr /\ 2 <= rr /\
    rtoFactor h rr = Ok rf /\ rf <= 0.5 /\
    ComputeScalingFactor h tcb = Ok 0.5.
Proof.
  intros Hv Hk [Hs0 Hs1].
  assert (Hs : m_segmentSize tcb <> 0%Z) by (unfold valid_snapshot in Hv; lia).
  assert (Hk0 : 0 <= m_rtoScalingFactor h) by lra.
  destruct (ComputeScalingFactor_factors h tcb Hk0 Hs)
    as (ir & rr & rf & osf & Hir & Hrr & Hrf & Hosf & Hrfb & Hosfv & Hc).
  assert (Hrr2 : 2 <= rr).
  { unfold rtoRatio in Hrr. destruct (IsZero (m_sRtt h)) as [Hz | _]; [lra |].
    rewrite ddiv_Ok in Hrr by (unfold GetSeconds; lra). cbn [bind] in Hrr.
    inversion Hrr as [Heq].
    apply Rle_trans with (m_srtt tcb / 1000000000 * 2 / (m_sRtt h / 1000000000));
      [| unfold GetSeconds; apply std_max_lower_l].
    replace (m_srtt tcb / 1000000000 * 2 / (m_sRtt h / 1000000000))
      with (2 * (m_srtt tcb / m_sRtt h)) by (field; lra).
    assert (1 <= m_srtt tcb / m_sRtt h).
    { apply (Rmult_le_reg_r (m_sRtt h)); [assumption |].
      unfold Rdiv. rewrite Rmult_assoc, Rinv_l by lra. lra. }
    lra. }
  assert (Hrf5 : rf <= 0.5).
  { unfold rtoFactor in Hrf.
    assert (Hd : 2 <= 1 + (rr - 1) * m_rtoScalingFactor h) by nra.
    rewrite ddiv_Ok in Hrf by lra. inversion Hrf as [Heq].
    apply (Rmult_le_reg_r (1 + (rr - 1) * m_rtoScalingFactor h)); [lra |].
    unfold Rdiv. rewrite Rmult_assoc, Rinv_l by lra. lra. }
  exists rr, rf. repeat (split; [assumption |]).
  rewrite Hc. f_equal.
  pose proof (inflightFactor_range h ir) as Hif.
  assert (Hp : inflightFactor h ir * rf * osf <= 0.5) by (destruct Hosfv; subst osf; nra).
  unfold std_max. destruct (Rlt_dec (inflightFactor h ir * rf * osf) 0.5); lra.
Qed.

Lemma ComputeScalingFactor_at_floor_witness :
  exists rr rf,
    rtoRatio hybla_100ms tcb_busy = Ok rr /\ 2 <= rr /\
    rtoFactor hybla_100ms rr = Ok rf /\ rf <= 0.5 /\
    ComputeScalingFactor hybla_100ms tcb_busy = Ok 0.5.
Proof.
  apply (ComputeScalingFactor_at_floor hybla_100ms tcb_busy).
  - exact valid_tcb_busy.
  - unfold hybla_100ms; cbn [m_rtoScalingFactor set_sRtt TcpHyblaI_new]. lra.
  - unfold hybla_100ms, tcb_busy, MilliSeconds; cbn [m_sRtt m_srtt set_sRtt]. lra.
Defined.

(** ** The smoothed RTT and rho *)

(** X4. Once a sample has been taken, [PktsAcked] keeps the smoothed RTT
    between its previous value and the new sample (Alpha is within
    [0, 1]), up to the rounding of the two products to whole ticks: when
    each product of a [Time] and a double is within e of the exact one, the
    new value leaves the interval by at most 2 e. *)
Theorem PktsAcked_sRtt_between (mul : Time -> R -> Time) (e : R)
        (h h' : TcpHyblaI) (tcb tcb' : TcpSocketState)
        (segmentsAcked : Z) (rtt : Time) :
  valid_config h -> accurate e mul ->
  PktsAcked mul h tcb segmentsAcked rtt = Ok (tcb', h') ->
  m_sRtt h <> 0 ->
  Rmin (m_sRtt h) rtt - 2 * e <= m_sRtt h' <= Rmax (m_sRtt h) rtt + 2 * e.
Proof.
  intros [[Ha0 Ha1] _] Hacc H Hnz. rewrite (PktsAcked_sRtt _ _ _ _ _ _ _ H).
  destruct (smooth_cases mul h rtt) as [_ Hs]. rewrite (Hs Hnz).
  pose proof (smooth_accurate mul e (m_sRtt h) rtt (m_alpha h) Hacc) as Hd.
  apply Rabs_le_bounds in Hd.
  assert (Hmid : Rmin (m_sRtt h) rtt
                 <= m_alpha h * m_sRtt h + (1 - m_alpha h) * rtt
                 <= Rmax (m_sRtt h) rtt).
  { unfold Rmin, Rmax. destruct (Rle_dec (m_sRtt h) rtt); split; nra. }
  lra.
Qed.

(** A sample of 200 ms on a smoothed RTT of 100 ms, the products rounded
    to the nearest tick (e = 1/2). *)
Lemma PktsAcked_sRtt_between_witness :
  exists h', PktsAcked nearest_product hybla_100ms tcb_busy 1 (MilliSeconds 200)
             = Ok (tcb_busy, h') /\
             Rmin (MilliSeconds 100) (MilliSeconds 200) - 2 * / 2
             <= m_sRtt h'
             <= Rmax (MilliSeconds 100) (MilliSeconds 200) + 2 * / 2.
Proof.
  destruct (PktsAcked_total nearest_product hybla_100ms tcb_busy 1 (MilliSeconds 200))
    as [h' Hh'].
  - unfold hybla_100ms, TcpHyblaI_new, MilliSeconds; cbn [m_rRtt set_sRtt]; lra.
  - exists h'. split; [exact Hh'|].
    apply (PktsAcked_sRtt_between nearest_product (/ 2) hybla_100ms h' tcb_busy tcb_busy
             1 (MilliSeconds 200) valid_hybla_100ms nearest_product_accurate Hh').
    unfold hybla_100ms, MilliSeconds; cbn [m_sRtt set_sRtt]. lra.
Defined.

Lemma Int_part_monotone (x y : R) : x <= y -> (Int_part x <= Int_part y)%Z.
Proof.
  intro H. destruct (Int_part_bounds x) as [Hx _]. destruct (Int_part_bounds y) as [_ Hy].
  apply Z.lt_succ_r, lt_IZR. rewrite succ_IZR. lra.
Qed.

Lemma GetMilliSeconds_monotone (t1 t2 : Time) :
  0 <= t1 <= t2 -> (0 <= GetMilliSeconds t1 <= GetMilliSeconds t2)%Z.
Proof.
  intros [H0 H1]. unfold GetMilliSeconds.
  rewrite !Rtrunc_nonneg by lra.
  split; [apply Int_part_nonneg; lra | apply Int_part_monotone; lra].
Qed.

(** X5. For a reference RTT of a millisecond or more, the rho that
    [HyblaIRecalcParam] leaves is monotone in the effective RTT, and it
    is exactly 1.0 whenever the effective RTT does not exceed the
    reference RTT: no boost below the reference. *)
Theorem rho_monotone_in_rtt (h1 h2 : TcpHyblaI) (tcb1 tcb2 : TcpSocketState) :
  m_rRtt h1 = m_rRtt h2 -> MilliSeconds 1 <= m_rRtt h1 ->
  0 <= effectiveRtt h1 tcb1 <= effectiveRtt h2 tcb2 ->
  exists h1' h2',
    HyblaIRecalcParam h1 tcb1 = Ok h1' /\ HyblaIRecalcParam h2 tcb2 = Ok h2' /\
    m_rho h1' <= m_rho h2' /\
    (effectiveRtt h1 tcb1 <= m_rRtt h1 -> m_rho h1' = 1).
Proof.
  intros Href Hr He.
  pose proof (GetMilliSeconds_pos _ Hr) as Hpos.
  pose proof (GetMilliSeconds_monotone _ _ He) as [Hm0 Hm].
  assert (Hc1 := candidateRho_Ok h1 tcb1 ltac:(lia)).
  assert (Hc2 := candidateRho_Ok h2 tcb2 ltac:(rewrite <- Href; lia)).
  rewrite <- Href in Hc2.
  exists (set_rho (std_max (IZR (GetMilliSeconds (effectiveRtt h1 tcb1)) /
                            IZR (GetMilliSeconds (m_rRtt h1))) 1) h1),
         (set_rho (std_max (IZR (GetMilliSeconds (effectiveRtt h2 tcb2)) /
                            IZR (GetMilliSeconds (m_rRtt h1))) 1) h2).
  split; [apply HyblaIRecalcParam_Ok; exact Hc1 |].
  split; [apply HyblaIRecalcParam_Ok; exact Hc2 |].
  cbn [m_rho set_rho].
  assert (Hd : 0 < IZR (GetMilliSeconds (m_rRtt h1))) by (apply IZR_lt; lia).
  split.
  - apply std_max_monotone. unfold Rdiv.
    apply Rmult_le_compat_r; [apply Rlt_le, Rinv_0_lt_compat; assumption |].
    apply IZR_le; assumption.
  - intro Hle.
    assert (Hq : IZR (GetMilliSeconds (effectiveRtt h1 tcb1)) /
                 IZR (GetMilliSeconds (m_rRtt h1)) <= 1).
    { apply (Rmult_le_reg_r (IZR (GetMilliSeconds (m_rRtt h1)))); [assumption |].
      unfold Rdiv. rewrite Rmult_assoc, Rinv_l by lra. rewrite Rmult_1_r, Rmult_1_l.
      apply IZR_le. apply GetMilliSeconds_monotone. lra. }
    unfold std_max.
    destruct (Rlt_dec (IZR (GetMilliSeconds (effectiveRtt h1 tcb1)) /
                       IZR (GetMilliSeconds (m_rRtt h1))) 1); lra.
Qed.

Lemma rho_monotone_in_rtt_witness :
  exists h1' h2',
    HyblaIRecalcParam TcpHyblaI_new tcb_short_rtt = Ok h1' /\
    HyblaIRecalcParam hybla_149ms tcb_short_rtt = Ok h2' /\
    m_rho h1' <= m_rho h2' /\
    (effectiveRtt TcpHyblaI_new tcb_short_rtt <= m_rRtt TcpHyblaI_new -> m_rho h1' = 1).
Proof.
  apply (rho_monotone_in_rtt TcpHyblaI_new hybla_149ms tcb_short_rtt tcb_short_rtt).
  - reflexivity.
  - unfold TcpHyblaI_new, MilliSeconds; cbn [m_rRtt]. lra.
  - rewrite effectiveRtt_149. unfold effectiveRtt, TcpHyblaI_new, tcb_short_rtt.
    cbn [m_sRtt m_minRtt].
    destruct (IsZero (Seconds 0)) as [_ | Hn]; [lra | exfalso; apply Hn, Seconds_0].
Defined.

(** X6. In every reachable state rho is a multiple of 1/50 that is at
    least 1: the reference RTT stays the 50 ms of the constructor, and
    rho is only ever set to max (whole milliseconds / 50, 1.0). *)
Theorem rho_quantized (h : TcpHyblaI) :
  reachable h -> exists k : Z, (50 <= k)%Z /\ m_rho h = IZR k / 50.
Proof.
  induction 1 as [| h alpha thresh k Hr IH Ha Hk | h Hr IH
                  | mul h h' tcb tcb' n rtt Hr IH Hv Hp | h h' tcb tcb' n Hr IH Hv Hc].
  - exists 50%Z. split; [lia |]. cbn [m_rho TcpHyblaI_new]. lra.
  - exact IH.
  - exact IH.
  - destruct (reachable_invariant h Hr) as [Href _].
    apply PktsAcked_inv in Hp. destruct Hp as [_ [Hh | [_ [c [Hc Hh]]]]]; subst h'.
    + exact IH.
    + cbn [m_rho set_rho].
      assert (Hms : GetMilliSeconds (m_rRtt (set_sRtt (smooth mul h rtt) h)) = 50%Z)
        by (cbn [m_rRtt set_sRtt]; rewrite Href; apply GetMilliSeconds_MilliSeconds).
      rewrite candidateRho_Ok in Hc by (rewrite Hms; lia).
      rewrite Hms in Hc. inversion Hc as [Heq]. clear Hc.
      set (ms := GetMilliSeconds (effectiveRtt (set_sRtt (smooth mul h rtt) h) tcb)).
      unfold std_max. destruct (Rlt_dec (IZR ms / 50) 1) as [Hlt | Hge].
      * exists 50%Z. split; [lia | lra].
      * exists ms. split; [| reflexivity].
        assert (50 <= IZR ms) by lra. apply le_IZR. assumption.
  - apply CongestionAvoidance_inv in Hc.
    destruct Hc as [cnt [_ [(_ & _ & Hh) | (_ & inc & scale & scaledInc & _ & _ & _ & _ & Hh)]]];
      subst h'; exact IH.
Qed.

Lemma rho_quantized_witness :
  exists k : Z, (50 <= k)%Z /\ m_rho (set_rho 2 hybla_100ms) = IZR k / 50.
Proof.
  apply rho_quantized.
  apply (reach_PktsAcked nearest_product TcpHyblaI_new (set_rho 2 hybla_100ms)
           tcb_busy tcb_busy 1 (MilliSeconds 100)).
  - apply reach_new.
  - exact valid_tcb_busy.
  - exact (PktsAcked_first_sample nearest_product).
Defined.

(** ** The size of a growth step *)

Lemma IZR_half_le (m : Z) : (0 <= m)%Z -> IZR (m / 2) <= 0.5 * IZR m.
Proof.
  intro Hm. assert (H : (2 * (m / 2) <= m)%Z) by (apply Z.mul_div_le; lia).
  apply IZR_le in H. rewrite mult_IZR in H. lra.
Qed.

(** X7. In slow start every acknowledged batch moves the window forward:
    with rho >= 1 and a sum that fits uint32_t, a returning [SlowStart]
    with segmentsAcked >= 1 leaves at least
    min (congestionWindow + maxSegmentSize / 2, slowStartThreshold) and at
    most congestionWindow + (2^rho - 1) * maxSegmentSize. *)
Theorem SlowStart_growth_bounds (h : TcpHyblaI) (tcb tcb' : TcpSocketState)
        (segmentsAcked r : Z) (scale : R) :
  valid_config h -> valid_snapshot tcb -> 1 <= m_rho h ->
  (1 <= segmentsAcked)%Z ->
  ComputeScalingFactor h tcb = Ok scale ->
  (m_cWnd tcb + Int_part ((Rpower 2 (m_rho h) - 1) * scale * IZR (m_segmentSize tcb))
   <= U32.max_value)%Z ->
  SlowStart h tcb segmentsAcked = Ok (tcb', r) ->
  (Z.min (m_cWnd tcb + m_segmentSize tcb / 2) (m_ssThresh tcb) <= m_cWnd tcb')%Z /\
  IZR (m_cWnd tcb') <= IZR (m_cWnd tcb) + (Rpower 2 (m_rho h) - 1) * IZR (m_segmentSize tcb).
Proof.
  intros Hc Hv Hrho Hn Hsc Hfit H.
  assert (Hm : (0 < m_segmentSize tcb)%Z /\ (0 <= m_cWnd tcb)%Z)
    by (unfold valid_snapshot, U32.in_range in Hv; lia).
  assert (Hmr : 0 < IZR (m_segmentSize tcb)) by (apply IZR_lt; lia).
  destruct (ComputeScalingFactor_bounds h tcb Hc Hv) as [scale0 [Hsc0 Hsb]].
  rewrite Hsc in Hsc0. inversion Hsc0; subst scale0.
  pose proof (SlowStart_increment_nonneg h tcb scale Hrho Hsb (proj1 Hm)) as Hx0.
  pose proof (Rpower_2_ge_2 _ Hrho) as Hp.
  apply SlowStart_inv in H.
  destruct H as [_ [(Hlt & _) | (_ & scale' & incr & Hsc' & Hi & Htcb & _)]]; [lia |].
  rewrite Hsc in Hsc'. inversion Hsc'; subst scale'.
  apply (to_uint32_nonneg_inv _ _ Hx0) in Hi. subst incr tcb'.
  pose proof (Int_part_nonneg _ Hx0) as Hxn.
  cbn [m_cWnd set_cWnd]. rewrite std_min_Zmin, U32_add_small by lia.
  set (x := (Rpower 2 (m_rho h) - 1) * scale * IZR (m_segmentSize tcb)) in *.
  assert (Hlow : (m_segmentSize tcb / 2 <= Int_part x)%Z).
  { rewrite <- (Int_part_IZR (m_segmentSize tcb / 2)). apply Int_part_monotone.
    apply Rle_trans with (0.5 * IZR (m_segmentSize tcb)); [apply IZR_half_le; lia |].
    unfold x. assert (0.5 <= (Rpower 2 (m_rho h) - 1) * scale) by nra.
    apply Rmult_le_compat_r; lra. }
  split; [lia |].
  apply Rle_trans with (IZR (m_cWnd tcb + Int_part x)); [apply IZR_le; lia |].
  rewrite plus_IZR. destruct (Int_part_bounds x) as [Hfl _].
  assert (x <= (Rpower 2 (m_rho h) - 1) * IZR (m_segmentSize tcb)).
  { unfold x. assert ((Rpower 2 (m_rho h) - 1) * scale <= Rpower 2 (m_rho h) - 1) by nra.
    apply Rmult_le_compat_r; lra. }
  lra.
Qed.

Lemma SlowStart_growth_bounds_witness :
  (Z.min (m_cWnd (tcb_quiet 10000 65535 1000) + m_segmentSize (tcb_quiet 10000 65535 1000) / 2)
         (m_ssThresh (tcb_quiet 10000 65535 1000))
   <= m_cWnd (set_cWnd 11000 (tcb_quiet 10000 65535 1000)))%Z.
Proof.
  assert (Hv : valid_snapshot (tcb_quiet 10000 65535 1000))
    by (apply valid_tcb_quiet; u32_range).
  assert (Hc : valid_config TcpHyblaI_new) by (unfold valid_config; cbn; lra).
  assert (Hr : 1 <= m_rho TcpHyblaI_new) by (cbn; lra).
  assert (Hq : ComputeScalingFactor TcpHyblaI_new (tcb_quiet 10000 65535 1000) = Ok 1).
  { quiet_scale. }
  assert (Hx : Int_part ((Rpower 2 (m_rho TcpHyblaI_new) - 1) * 1 *
                         IZR (m_segmentSize (tcb_quiet 10000 65535 1000))) = 1000%Z).
  { cbn [m_rho TcpHyblaI_new m_segmentSize tcb_quiet]. rewrite Rpower_1 by lra.
    apply Int_part_unique. lra. }
  apply (SlowStart_growth_bounds TcpHyblaI_new (tcb_quiet 10000 65535 1000)
           (set_cWnd 11000 (tcb_quiet 10000 65535 1000)) 1 0 1 Hc Hv Hr).
  - lia.
  - exact Hq.
  - rewrite Hx. vm_compute; discriminate.
  - rewrite (SlowStart_Ok TcpHyblaI_new (tcb_quiet 10000 65535 1000) 1 1).
    + rewrite Hx. reflexivity.
    + vm_compute; discriminate.
    + lia.
    + exact Hq.
    + cbn [m_rho TcpHyblaI_new m_segmentSize tcb_quiet]. rewrite Rpower_1 by lra.
      modulus_value. lra.
Defined.

(** ** Batches of acknowledgements *)

Lemma accumulate_app (h : TcpHyblaI) (tcb : TcpSocketState) (a b : nat) (cnt : R) :
  accumulate h tcb (a + b) cnt
  = bind (accumulate h tcb a cnt) (fun c => accumulate h tcb b c).
Proof.
  revert cnt. induction a as [| a IH]; intro cnt.
  - reflexivity.
  - cbn [accumulate Nat.add].
    destruct (GetCwndInSegments tcb) as [segCwnd | f]; [| reflexivity]. cbn [bind].
    destruct (ddiv (m_rho h ^ 2) (IZR segCwnd)) as [inc | f]; [| reflexivity]. cbn [bind].
    apply IH.
Qed.

Lemma accumulate_set_cWndCnt (c : R) (h : TcpHyblaI) (tcb : TcpSocketState)
      (n : nat) (cnt : R) :
  accumulate (set_cWndCnt c h) tcb n cnt = accumulate h tcb n cnt.
Proof.
  revert cnt. induction n as [| n IH]; intro cnt; [reflexivity |].
  cbn [accumulate]. destruct (GetCwndInSegments tcb) as [segCwnd | f]; [| reflexivity].
  cbn [bind m_rho set_cWndCnt].
  destruct (ddiv (m_rho h ^ 2) (IZR segCwnd)) as [inc | f]; [| reflexivity]. cbn [bind].
  apply IH.
Qed.

Lemma set_cWndCnt_same (h : TcpHyblaI) : set_cWndCnt (m_cWndCnt h) h = h.
Proof. destruct h; reflexivity. Qed.

(** X9. Acknowledgements may be delivered in batches: when a first batch
    leaves the counter below 1.0 ([CongestionAvoidance] then returns the
    socket as it was), a second batch gives exactly what one call with
    both batches gives.  With no acknowledged segment and a counter below
    1.0 the call changes nothing. *)
Theorem CongestionAvoidance_batches (h : TcpHyblaI) (tcb : TcpSocketState)
        (n1 n2 : Z) (c1 : R) :
  (0 <= n1)%Z -> (0 <= n2)%Z ->
  accumulate h tcb (Z.to_nat n1) (m_cWndCnt h) = Ok c1 -> c1 < 1 ->
  CongestionAvoidance h tcb n1 = Ok (tcb, set_cWndCnt c1 h) /\
  CongestionAvoidance (set_cWndCnt c1 h) tcb n2 = CongestionAvoidance h tcb (n1 + n2) /\
  (m_cWndCnt h < 1 -> CongestionAvoidance h tcb 0 = Ok (tcb, h)).
Proof.
  intros Hn1 Hn2 Hacc Hlt.
  split; [apply CongestionAvoidance_below; assumption |].
  split.
  - unfold CongestionAvoidance.
    rewrite Z2Nat.inj_add, accumulate_app, Hacc by assumption. cbn [bind].
    rewrite accumulate_set_cWndCnt. cbn [m_cWndCnt set_cWndCnt]. reflexivity.
  - intro H0. rewrite <- (set_cWndCnt_same h) at 2.
    apply CongestionAvoidance_below; [reflexivity | assumption].
Qed.

Lemma CongestionAvoidance_batches_witness :
  CongestionAvoidance (set_cWndCnt (0 + 1 / 5) TcpHyblaI_new) (tcb_quiet 5000 4000 1000) 2
  = CongestionAvoidance TcpHyblaI_new (tcb_quiet 5000 4000 1000) (1 + 2).
Proof.
  apply (CongestionAvoidance_batches TcpHyblaI_new (tcb_quiet 5000 4000 1000) 1 2 (0 + 1 / 5)).
  - lia.
  - lia.
  - rewrite accumulate_iter by (vm_compute; discriminate).
    f_equal. rewrite iter_add_closed.
    change (m_cWnd (tcb_quiet 5000 4000 1000) / m_segmentSize (tcb_quiet 5000 4000 1000))%Z
      with 5%Z.
    change (Z.to_nat 1) with 1%nat. change (INR 1) with 1.
    cbn [m_rho m_cWndCnt TcpHyblaI_new]. lra.
  - lra.
Defined.

(* ================================================================== *)
(** * The simulation driver *)

Section TraceContexts.
Import Ascii String List ListNotations Driver.
Local Open Scope string_scope.
Local Open Scope Z_scope.

(** ** Strings *)

Lemma size_nonneg (s : string) : 0 <= size s.
Proof. unfold size. lia. Qed.

Lemma size_String (a : ascii) (s : string) : size (String a s) = 1 + size s.
Proof. unfold size. cbn [String.length]. lia. Qed.

Lemma size_append (a b : string) : size (a ++ b) = size a + size b.
Proof.
  induction a as [|c a IH]; cbn [append].
  - unfold size at 2. cbn. lia.
  - rewrite !size_String, IH. lia.
Qed.

Lemma find_skip_short (q s : string) (c : ascii) (pos i : Z) :
  i + size q <= pos ->
  find_first_of_at (q ++ s) c pos i = find_first_of_at s c pos (i + size q).
Proof.
  revert i. induction q as [|a q IH]; intros i H; cbn [append].
  - unfold size. cbn. f_equal. lia.
  - rewrite size_String in H. pose proof (size_nonneg q).
    cbn [find_first_of_at].
    replace (pos <=? i) with false by (symmetry; apply Z.leb_gt; lia).
    cbn [andb]. rewrite IH by lia. rewrite size_String. f_equal. lia.
Qed.

Lemma find_skip_absent (q s : string) (c : ascii) (pos i : Z) :
  lacks c q = true ->
  find_first_of_at (q ++ s) c pos i = find_first_of_at s c pos (i + size q).
Proof.
  revert i. induction q as [|a q IH]; intros i H; cbn [append].
  - unfold size. cbn. f_equal. lia.
  - cbn [lacks] in H. apply andb_prop in H. destruct H as [Ha Hq].
    apply negb_true_iff in Ha.
    cbn [find_first_of_at]. rewrite Ha, andb_false_r.
    rewrite IH by exact Hq. rewrite size_String. f_equal. lia.
Qed.

Lemma find_hit (s : string) (c : ascii) (pos i : Z) :
  pos <= i -> find_first_of_at (String c s) c pos i = i.
Proof.
  intros H. cbn [find_first_of_at].
  replace (pos <=? i) with true by (symmetry; apply Z.leb_le; exact H).
  rewrite Ascii.eqb_refl. reflexivity.
Qed.

Lemma find_absent (q : string) (c : ascii) (pos i : Z) :
  lacks c q = true -> find_first_of_at q c pos i = npos.
Proof.
  revert i. induction q as [|a q IH]; intros i H; [reflexivity|].
  cbn [lacks] in H. apply andb_prop in H. destruct H as [Ha Hq].
  apply negb_true_iff in Ha.
  cbn [find_first_of_at]. rewrite Ha, andb_false_r. apply IH, Hq.
Qed.

(** A position found lies inside the string, at or after [i]. *)
Lemma find_first_of_at_range (s : string) (c : ascii) (pos i : Z) :
  find_first_of_at s c pos i = npos \/
  (i <= find_first_of_at s c pos i < i + size s).
Proof.
  revert i. induction s as [|a s IH]; intros i; [left; reflexivity|].
  cbn [find_first_of_at]. rewrite size_String. pose proof (size_nonneg s).
  destruct ((pos <=? i) && Ascii.eqb a c).
  - right. lia.
  - destruct (IH (i + 1)) as [E|E]; [left; exact E | right; lia].
Qed.

Lemma substring_skip (q s : string) (m : nat) :
  substring (String.length q) m (q ++ s) = substring 0 m s.
Proof.
  induction q as [|a q IH]; cbn [String.length append]; [reflexivity|].
  cbn [substring]. exact IH.
Qed.

Lemma substring_prefix (d r : string) :
  substring 0 (String.length d) (d ++ r) = d.
Proof.
  induction d as [|a d IH]; cbn [String.length append].
  - destruct r; reflexivity.
  - cbn [substring]. rewrite IH. reflexivity.
Qed.

Lemma substring_all (d : string) (m : nat) :
  (String.length d <= m)%nat -> substring 0 m d = d.
Proof.
  revert m. induction d as [|a d IH]; intros m H.
  - destruct m; reflexivity.
  - cbn [String.length] in H. destruct m as [|m]; [lia|].
    cbn [substring]. rewrite IH by lia. reflexivity.
Qed.

Lemma substring_none (s : string) : substring 0 0 s = "".
Proof. destruct s; reflexivity. Qed.

(** ** Digits *)

Lemma isdigit_cases (a : ascii) :
  isdigit a = true ->
  Ascii.eqb a "/" = false /\ isspace a = false /\
  a <> "-"%char /\ a <> "+"%char /\ 0 <= digit_value a <= 9.
Proof.
  destruct a as [[] [] [] [] [] [] [] []]; intros H;
    try discriminate H;
    (repeat split; try reflexivity; try discriminate;
     unfold digit_value; cbn; lia).
Qed.

Lemma digit_char_spec (d : Z) :
  0 <= d <= 9 -> isdigit (digit_char d) = true /\ digit_value (digit_char d) = d.
Proof.
  intros H.
  assert (E : d = 0 \/ d = 1 \/ d = 2 \/ d = 3 \/ d = 4 \/ d = 5 \/ d = 6 \/
              d = 7 \/ d = 8 \/ d = 9) by lia.
  repeat (destruct E as [E|E]; [subst d; split; reflexivity|]).
  subst d; split; reflexivity.
Qed.

Lemma stoul_digits (ds : string) :
  digits_only ds = true -> ds <> "" ->
  stoul ds = if npos <? digits_value ds 0 then Failed out_of_range
             else Done (digits_value ds 0).
Proof.
  intros Hd Hne. destruct ds as [|a ds]; [congruence|].
  cbn [digits_only] in Hd. apply andb_prop in Hd. destruct Hd as [Ha Hd].
  destruct (isdigit_cases a Ha) as (_ & Hs & Hm & Hp & _).
  unfold stoul. cbn [skip_spaces]. rewrite Hs.
  assert (E : match String a ds with
              | String "-" r => (true, r)
              | String "+" r => (false, r)
              | _ => (false, String a ds)
              end = (false, String a ds)).
  { destruct a as [[] [] [] [] [] [] [] []]; try reflexivity;
      [exfalso; apply Hp; reflexivity | exfalso; apply Hm; reflexivity]. }
  rewrite E. cbn [starts_with_digit]. rewrite Ha. reflexivity.
Qed.

Lemma digits_value_shift (ds : string) (acc : Z) :
  digits_only ds = true ->
  digits_value ds acc = acc * 10 ^ size ds + digits_value ds 0.
Proof.
  revert acc. induction ds as [|a ds IH]; intros acc H.
  - cbn. lia.
  - cbn [digits_only] in H. apply andb_prop in H. destruct H as [Ha Hd].
    cbn [digits_value]. rewrite Ha.
    rewrite (IH (10 * acc + digit_value a) Hd), (IH (10 * 0 + digit_value a) Hd).
    rewrite size_String. pose proof (size_nonneg ds).
    rewrite Z.pow_add_r by lia. lia.
Qed.

Lemma to_string_digits_spec (fuel : nat) (n : Z) (acc : string) :
  0 <= n < 10 ^ Z.of_nat fuel -> (0 < fuel)%nat -> digits_only acc = true ->
  let s := to_string_digits fuel n acc in
  digits_only s = true /\ s <> "" /\
  digits_value s 0 = n * 10 ^ size acc + digits_value acc 0 /\
  size s <= Z.of_nat fuel + size acc.
Proof.
  revert n acc. induction fuel as [|fuel IH]; intros n acc Hn Hf Hacc; [lia|].
  cbn [to_string_digits].
  assert (Hd : 0 <= n mod 10 <= 9) by (pose proof (Z.mod_pos_bound n 10); lia).
  destruct (digit_char_spec (n mod 10) Hd) as [Hdig Hval].
  assert (Hacc' : digits_only (String (digit_char (n mod 10)) acc) = true).
  { cbn [digits_only]. rewrite Hdig, Hacc. reflexivity. }
  assert (Hv' : digits_value (String (digit_char (n mod 10)) acc) 0
                = (n mod 10) * 10 ^ size acc + digits_value acc 0).
  { cbn [digits_value]. rewrite Hdig, Hval.
    rewrite (digits_value_shift acc _ Hacc). lia. }
  pose proof (size_nonneg acc) as Hsz.
  destruct (n / 10 =? 0) eqn:Hq.
  - apply Z.eqb_eq in Hq. cbv zeta. repeat split.
    + exact Hacc'.
    + discriminate.
    + rewrite Hv'. f_equal. f_equal.
      pose proof (Z.div_mod n 10). lia.
    + rewrite size_String. lia.
  - apply Z.eqb_neq in Hq.
    assert (Hfuel : (0 < fuel)%nat).
    { destruct fuel; [|lia]. exfalso. apply Hq.
      apply Z.div_small. cbn in Hn. lia. }
    assert (Hn' : 0 <= n / 10 < 10 ^ Z.of_nat fuel).
    { split; [apply Z.div_pos; lia|].
      apply Z.div_lt_upper_bound; [lia|].
      replace (Z.of_nat (S fuel)) with (1 + Z.of_nat fuel) in Hn by lia.
      rewrite Z.pow_add_r in Hn by lia. lia. }
    destruct (IH (n / 10) _ Hn' Hfuel Hacc') as (H1 & H2 & H3 & H4).
    cbv zeta. repeat split.
    + exact H1.
    + exact H2.
    + rewrite H3, Hv', size_String.
      rewrite Z.pow_add_r by lia.
      pose proof (Z.div_mod n 10). change (10 ^ 1) with 10. nia.
    + rewrite H4, size_String. lia.
Qed.

Lemma to_string_spec (n : Z) :
  0 <= n < 10 ^ 20 ->
  digits_only (to_string n) = true /\ to_string n <> "" /\
  digits_value (to_string n) 0 = n /\ size (to_string n) <= 20.
Proof.
  intros H.
  destruct (to_string_digits_spec 20 n "" H ltac:(lia) eq_refl) as (H1 & H2 & H3 & H4).
  unfold to_string. repeat split; try assumption.
  rewrite H3. cbn. lia.
Qed.

Lemma digits_lack_slash (ds : string) :
  digits_only ds = true -> lacks "/" ds = true.
Proof.
  induction ds as [|a ds IH]; [reflexivity|].
  cbn [digits_only lacks]. intros H. apply andb_prop in H. destruct H as [Ha Hd].
  destruct (isdigit_cases a Ha) as (E & _). rewrite E, (IH Hd). reflexivity.
Qed.

Lemma size_t_small (z : Z) : 0 <= z <= npos -> size_t z = z.
Proof.
  intros H. unfold size_t. apply Z.mod_small.
  unfold npos in H. lia.
Qed.

(** ** GetNodeIdFromContext *)

(** The number between the first slash after position 0 and the next one
    (or the end of the string) is what [stoul] reads. *)
Lemma GetNodeIdFromContext_number (a0 : ascii) (p ds tail : string) :
  lacks "/" p = true ->
  digits_only ds = true -> ds <> "" ->
  tail = "" \/ (exists rest, tail = String "/" rest) ->
  size (String a0 (p ++ String "/" (ds ++ tail))) < npos ->
  GetNodeIdFromContext (String a0 (p ++ String "/" (ds ++ tail)))
  = if npos <? digits_value ds 0 then Failed out_of_range
    else Done (U32.wrap (digits_value ds 0)).
Proof.
  intros Hp Hd Hne Htail Hsize.
  set (context := String a0 (p ++ String "/" (ds ++ tail))) in *.
  assert (Hctx : context = (String a0 (p ++ "/")) ++ (ds ++ tail)).
  { unfold context. cbn [append]. f_equal.
    clear. induction p as [|c p IH]; cbn [append]; [reflexivity | f_equal; exact IH]. }
  pose proof (size_nonneg p) as Hp0. pose proof (size_nonneg ds) as Hd0.
  pose proof (size_nonneg tail) as Ht0.
  assert (Hq : size (String a0 (p ++ "/")) = 2 + size p).
  { rewrite size_String, size_append. change (size "/") with 1. lia. }
  assert (Hsz : size context = 2 + size p + size ds + size tail).
  { rewrite Hctx, size_append, Hq, size_append. lia. }
  assert (Hn1 : find_first_of context "/" 1 = 1 + size p).
  { unfold find_first_of, context. cbn [find_first_of_at].
    change (1 <=? 0) with false. cbn [andb].
    rewrite (find_skip_absent p _ "/" 1 (0 + 1) Hp).
    rewrite find_hit by lia. lia. }
  unfold GetNodeIdFromContext. rewrite Hn1.
  rewrite (size_t_small (1 + size p + 1)) by lia.
  assert (Hsub : substr context (1 + size p + 1)
                   (size_t (find_first_of context "/" (1 + size p + 1) - (1 + size p) - 1))
                 = Done ds).
  { assert (Hfind : find_first_of context "/" (1 + size p + 1)
                    = find_first_of_at tail "/" (1 + size p + 1) (2 + size p + size ds)).
    { unfold find_first_of. rewrite Hctx.
      rewrite find_skip_short by (rewrite Hq; lia).
      rewrite (find_skip_absent ds tail "/" _ _ (digits_lack_slash ds Hd)).
      rewrite Hq. reflexivity. }
    unfold substr.
    replace (size context <? 1 + size p + 1) with false
      by (symmetry; apply Z.ltb_ge; lia).
    assert (Hmin : Z.min (size_t (find_first_of context "/" (1 + size p + 1)
                                  - (1 + size p) - 1))
                         (size context - (1 + size p + 1)) = size ds
                   /\ substring 0 (String.length ds) (ds ++ tail) = ds).
    { rewrite Hfind. destruct Htail as [E | [rest E]]; subst tail.
      - cbn [find_first_of_at]. change (size "") with 0 in Hsz.
        rewrite size_t_small by lia. split; [lia|].
        apply substring_prefix.
      - rewrite find_hit by lia. rewrite size_String in Hsz.
        pose proof (size_nonneg rest).
        rewrite size_t_small by lia. split; [lia|].
        apply substring_prefix. }
    destruct Hmin as [Hmin Hpre]. rewrite Hmin.
    replace (Z.to_nat (1 + size p + 1)) with (String.length (String a0 (p ++ "/")))
      by (unfold size in Hq |- *; lia).
    unfold size. rewrite Nat2Z.id.
    rewrite Hctx, substring_skip, Hpre. reflexivity. }
  rewrite Hsub. cbn [and_then]. rewrite (stoul_digits ds Hd Hne).
  destruct (npos <? digits_value ds 0); reflexivity.
Qed.

Lemma trace_path_shape (nodeId : Z) (suffix : string) :
  trace_path nodeId suffix
  = String "/" ("NodeList" ++ String "/" (to_string nodeId ++ suffix)).
Proof. reflexivity. Qed.

Lemma GetNodeIdFromContext_trace_path (nodeId : Z) (rest : string) :
  U32.in_range nodeId -> size rest < U32.modulus ->
  GetNodeIdFromContext (trace_path nodeId (String "/" rest)) = Done nodeId.
Proof.
  intros Hn Hrest.
  assert (Hr : 0 <= nodeId < 2 ^ 32) by u32_range.
  destruct (to_string_spec nodeId ltac:(lia)) as (Hd & Hne & Hv & Hlen).
  rewrite trace_path_shape.
  rewrite (GetNodeIdFromContext_number "/" "NodeList" (to_string nodeId) (String "/" rest)
             eq_refl Hd Hne).
  - rewrite Hv. replace (npos <? nodeId) with false
      by (symmetry; apply Z.ltb_ge; unfold npos, size_modulus; lia).
    f_equal. unfold U32.wrap. apply Z.mod_small. u32_range.
  - right. exists rest. reflexivity.
  - rewrite size_String, size_append.
    rewrite (size_String "/" (to_string nodeId ++ String "/" rest)), size_append.
    rewrite (size_String "/" rest).
    change (size "NodeList") with 8.
    unfold npos, size_modulus. unfold U32.modulus in Hrest.
    pose proof (size_nonneg (to_string nodeId)). lia.
Qed.

(** X10.  The node id that a [Trace...] function puts into the path it
    connects is what [GetNodeIdFromContext] reads back from the context:
    for every 32-bit node id and every continuation of the path after the
    id, in particular for the paths of [TraceCwnd] and [TraceSsThresh]. *)
Theorem GetNodeIdFromContext_round_trip (nodeId : Z) (rest : string) :
  U32.in_range nodeId -> size rest < U32.modulus ->
  GetNodeIdFromContext (trace_path nodeId (String "/" rest)) = Done nodeId /\
  GetNodeIdFromContext (cwnd_path nodeId) = Done nodeId /\
  GetNodeIdFromContext (ssthresh_path nodeId) = Done nodeId.
Proof.
  intros Hn Hrest. repeat split.
  - apply GetNodeIdFromContext_trace_path; assumption.
  - apply GetNodeIdFromContext_trace_path; [exact Hn | reflexivity].
  - apply GetNodeIdFromContext_trace_path; [exact Hn | reflexivity].
Qed.

Lemma GetNodeIdFromContext_round_trip_witness :
  GetNodeIdFromContext (trace_path 4294967295 "/$ns3::TcpL4Protocol/SocketList/0/RTT")
  = Done 4294967295.
Proof.
  apply (GetNodeIdFromContext_round_trip 4294967295 "$ns3::TcpL4Protocol/SocketList/0/RTT").
  - unfold U32.in_range, U32.max_value, U32.modulus. lia.
  - reflexivity.
Defined.

(** X11.  A context [c p / ds tail], where [p] holds no slash, [ds] is a
    non-empty run of digits and [tail] is empty or starts with a slash:
    the result is the value of [ds] reduced modulo 2^32 when that value
    fits [unsigned long], and [std::out_of_range] otherwise. *)
Theorem GetNodeIdFromContext_reads_second_component
    (a0 : ascii) (p ds tail : string) :
  lacks "/" p = true ->
  digits_only ds = true -> ds <> "" ->
  tail = "" \/ (exists rest, tail = String "/" rest) ->
  size (String a0 (p ++ String "/" (ds ++ tail))) < npos ->
  GetNodeIdFromContext (String a0 (p ++ String "/" (ds ++ tail)))
  = if digits_value ds 0 <=? npos then Done (digits_value ds 0 mod 2 ^ 32)
    else Failed out_of_range.
Proof.
  intros Hp Hd Hne Htail Hsize.
  rewrite (GetNodeIdFromContext_number a0 p ds tail Hp Hd Hne Htail Hsize).
  rewrite Z.ltb_antisym. destruct (digits_value ds 0 <=? npos); reflexivity.
Qed.

Lemma GetNodeIdFromContext_reads_second_component_witness :
  GetNodeIdFromContext "/root/4294967297/otherdata" = Done 1 /\
  GetNodeIdFromContext "/root/18446744073709551616" = Failed out_of_range.
Proof.
  split.
  - apply (GetNodeIdFromContext_reads_second_component
             "/" "root" "4294967297" "/otherdata");
      try reflexivity; [discriminate | right; eexists; reflexivity].
  - apply (GetNodeIdFromContext_reads_second_component
             "/" "root" "18446744073709551616" "");
      try reflexivity; [discriminate | left; reflexivity].
Defined.

(** X12.  A context with no slash after its first character: when the
    first character is a slash the call throws [std::invalid_argument]
    (the position [npos + 1] wraps to 0 and the substring is empty);
    otherwise the whole context is handed to [stoul]. *)
Theorem GetNodeIdFromContext_single_component (a0 : ascii) (w : string) :
  lacks "/" w = true -> size w < npos - 1 ->
  GetNodeIdFromContext (String a0 w)
  = if Ascii.eqb a0 "/" then Failed invalid_argument
    else and_then (stoul (String a0 w)) (fun v => Done (U32.wrap v)).
Proof.
  intros Hw Hsize. pose proof (size_nonneg w) as Hw0.
  assert (Hn1 : find_first_of (String a0 w) "/" 1 = npos).
  { unfold find_first_of. cbn [find_first_of_at].
    change (1 <=? 0) with false. cbn [andb]. apply find_absent, Hw. }
  unfold GetNodeIdFromContext. rewrite Hn1.
  change (size_t (npos + 1)) with 0.
  unfold find_first_of. cbn [find_first_of_at].
  change (0 <=? 0) with true. cbn [andb].
  destruct (Ascii.eqb a0 "/") eqn:Ha.
  - change (size_t (0 - npos - 1)) with 0.
    unfold substr. rewrite size_String.
    replace (1 + size w <? 0) with false by (symmetry; apply Z.ltb_ge; lia).
    rewrite Z.min_l by lia. change (Z.to_nat 0) with 0%nat.
    rewrite substring_none. reflexivity.
  - rewrite (find_absent w "/" 0 (0 + 1) Hw).
    change (size_t (npos - npos - 1)) with npos.
    unfold substr. rewrite size_String.
    replace (1 + size w <? 0) with false by (symmetry; apply Z.ltb_ge; lia).
    rewrite Z.min_r by lia. change (Z.to_nat 0) with 0%nat.
    rewrite substring_all; [reflexivity|].
    unfold size. cbn [String.length]. lia.
Qed.

Lemma GetNodeIdFromContext_single_component_witness :
  GetNodeIdFromContext "/NodeList" = Failed invalid_argument /\
  GetNodeIdFromContext "42" = Done 42.
Proof.
  split.
  - apply (GetNodeIdFromContext_single_component "/" "NodeList"); reflexivity.
  - apply (GetNodeIdFromContext_single_component "4" "2"); reflexivity.
Defined.

End TraceContexts.

Section TraceFiles.
Import Ascii String List ListNotations Driver.
Local Open Scope Z_scope.

Lemma assign_same {A : Type} (m : Z -> A) (k : Z) (v : A) : assign m k v k = v.
Proof. unfold assign. rewrite Z.eqb_refl. reflexivity. Qed.

Lemma assign_other {A : Type} (m : Z -> A) (k k' : Z) (v : A) :
  k' <> k -> assign m k v k' = m k'.
Proof. intros H. unfold assign. apply Z.eqb_neq in H. rewrite H. reflexivity. Qed.

Lemma write_Done (m : stream_map) (n : Z) (l : line) (ls : list line) :
  m n = Some ls -> write m n l = Done (assign m n (Some (ls ++ [l]))).
Proof. intros H. unfold write. rewrite H. reflexivity. Qed.

Lemma well_formed_snoc (ls : list line) (now : R) (v : Z) :
  well_formed ls = true -> well_formed (ls ++ [Sample now v]) = true.
Proof.
  destruct ls as [|[v0|] [|[|t1 v1] rest]]; try discriminate.
  cbn [well_formed app]. intros H. rewrite forallb_app, H. reflexivity.
Qed.

Lemma last_value_snoc (ls : list line) (now : R) (v : Z) :
  last_value (ls ++ [Sample now v]) = Some v.
Proof. unfold last_value. rewrite last_last. reflexivity. Qed.

Lemma file_invariant_first (first : bool) (ls : list line)
    (oldval value : Z) (now : R) (v : Z) :
  file_invariant first (Some ls) value ->
  file_invariant false
    (Some ((if first then ls ++ [Initial oldval] else ls) ++ [Sample now v])) v.
Proof.
  intros (ls' & E & H). injection E as <-.
  exists ((if first then ls ++ [Initial oldval] else ls) ++ [Sample now v]).
  split; [reflexivity|]. split.
  - destruct first.
    + subst ls. reflexivity.
    + apply well_formed_snoc, H.
  - apply last_value_snoc.
Qed.

Lemma file_invariant_repeat (ls : list line) (value : Z) (now : R) :
  file_invariant false (Some ls) value ->
  file_invariant false (Some (ls ++ [Sample now value])) value.
Proof.
  intros (ls' & E & H & _). injection E as <-.
  exists (ls ++ [Sample now value]). split; [reflexivity|]. split.
  - apply well_formed_snoc, H.
  - apply last_value_snoc.
Qed.

Ltac split_match H :=
  match type of H with
  | context [match ?x with _ => _ end] => destruct x eqn:?
  end.

Lemma CwndTracer_invariant (nodeId : Z) (now : R) (context : string)
    (oldval newval : Z) (t t' : traces) :
  trace_invariant nodeId t ->
  CwndTracer now context oldval newval t = Done t' ->
  trace_invariant nodeId t'.
Proof.
  intros [Hc Hs] H. unfold CwndTracer in H.
  destruct (GetNodeIdFromContext context) as [n|]; [|discriminate].
  cbn [and_then] in H.
  destruct (Z.eq_dec n nodeId) as [->|Hne].
  - destruct Hc as (lc & Elc & Hc). destruct Hs as (ls & Els & Hs).
    assert (Hc' : file_invariant (firstCwnd t nodeId) (Some lc) (cWndValue t nodeId))
      by (exists lc; split; [reflexivity | exact Hc]).
    assert (Hs' : file_invariant (firstSshThr t nodeId) (Some ls) (ssThreshValue t nodeId))
      by (exists ls; split; [reflexivity | exact Hs]).
    pose proof (file_invariant_first _ _ oldval _ now newval Hc') as Hnew.
    destruct (firstCwnd t nodeId) eqn:Fc.
    + rewrite (write_Done _ _ _ _ Elc) in H. cbn [and_then fst snd] in H.
      rewrite (write_Done _ _ _ _ (assign_same _ _ _)) in H. cbn [and_then] in H.
      destruct (firstSshThr t nodeId) eqn:Fs; cbn [negb] in H.
      * injection H as <-. split; cbn; rewrite ?assign_same, ?Fs, ?Els.
        -- exact Hnew.
        -- exact Hs'.
      * rewrite (write_Done _ _ _ _ Els) in H. cbn [and_then] in H.
        injection H as <-. split; cbn; rewrite ?assign_same, ?Fs.
        -- exact Hnew.
        -- apply file_invariant_repeat, Hs'.
    + cbn [and_then fst snd] in H.
      rewrite (write_Done _ _ _ _ Elc) in H. cbn [and_then] in H.
      destruct (firstSshThr t nodeId) eqn:Fs; cbn [negb] in H.
      * injection H as <-. split; cbn; rewrite ?assign_same, ?Fc, ?Fs, ?Els.
        -- exact Hnew.
        -- exact Hs'.
      * rewrite (write_Done _ _ _ _ Els) in H. cbn [and_then] in H.
        injection H as <-. split; cbn; rewrite ?assign_same, ?Fc, ?Fs.
        -- exact Hnew.
        -- apply file_invariant_repeat, Hs'.
  - unfold write in H.
    repeat (split_match H; cbn [and_then fst snd negb] in H; try discriminate H);
      injection H as <-; split; cbn;
      rewrite ?(assign_other _ _ _ _ (not_eq_sym Hne)); assumption.
Qed.

Lemma SsThreshTracer_invariant (nodeId : Z) (now : R) (context : string)
    (oldval newval : Z) (t t' : traces) :
  trace_invariant nodeId t ->
  SsThreshTracer now context oldval newval t = Done t' ->
  trace_invariant nodeId t'.
Proof.
  intros [Hc Hs] H. unfold SsThreshTracer in H.
  destruct (GetNodeIdFromContext context) as [n|]; [|discriminate].
  cbn [and_then] in H.
  destruct (Z.eq_dec n nodeId) as [->|Hne].
  - destruct Hc as (lc & Elc & Hc). destruct Hs as (ls & Els & Hs).
    assert (Hc' : file_invariant (firstCwnd t nodeId) (Some lc) (cWndValue t nodeId))
      by (exists lc; split; [reflexivity | exact Hc]).
    assert (Hs' : file_invariant (firstSshThr t nodeId) (Some ls) (ssThreshValue t nodeId))
      by (exists ls; split; [reflexivity | exact Hs]).
    pose proof (file_invariant_first _ _ oldval _ now newval Hs') as Hnew.
    destruct (firstSshThr t nodeId) eqn:Fs.
    + rewrite (write_Done _ _ _ _ Els) in H. cbn [and_then fst snd] in H.
      rewrite (write_Done _ _ _ _ (assign_same _ _ _)) in H. cbn [and_then] in H.
      destruct (firstCwnd t nodeId) eqn:Fc; cbn [negb] in H.
      * injection H as <-. split; cbn; rewrite ?assign_same, ?Fc, ?Elc.
        -- exact Hc'.
        -- exact Hnew.
      * rewrite (write_Done _ _ _ _ Elc) in H. cbn [and_then] in H.
        injection H as <-. split; cbn; rewrite ?assign_same, ?Fc.
        -- apply file_invariant_repeat, Hc'.
        -- exact Hnew.
    + cbn [and_then fst snd] in H.
      rewrite (write_Done _ _ _ _ Els) in H. cbn [and_then] in H.
      destruct (firstCwnd t nodeId) eqn:Fc; cbn [negb] in H.
      * injection H as <-. split; cbn; rewrite ?assign_same, ?Fc, ?Fs, ?Elc.
        -- exact Hc'.
        -- exact Hnew.
      * rewrite (write_Done _ _ _ _ Elc) in H. cbn [and_then] in H.
        injection H as <-. split; cbn; rewrite ?assign_same, ?Fc, ?Fs.
        -- apply file_invariant_repeat, Hc'.
        -- exact Hnew.
  - unfold write in H.
    repeat (split_match H; cbn [and_then fst snd negb] in H; try discriminate H);
      injection H as <-; split; cbn;
      rewrite ?(assign_other _ _ _ _ (not_eq_sym Hne)); assumption.
Qed.

Lemma fire_invariant (nodeId : Z) (e : event) (t t' : traces) :
  trace_invariant nodeId t -> reconnects nodeId e = false ->
  fire e t = Done t' -> trace_invariant nodeId t'.
Proof.
  intros Hinv Hre H. destruct e as [n | n | now c o v | now c o v]; cbn [fire] in H.
  - cbn [reconnects] in Hre. apply Z.eqb_neq in Hre.
    injection H as <-. destruct Hinv as [Hc Hs]. split; cbn.
    + rewrite (assign_other _ _ _ _ (not_eq_sym Hre)). exact Hc.
    + exact Hs.
  - cbn [reconnects] in Hre. apply Z.eqb_neq in Hre.
    injection H as <-. destruct Hinv as [Hc Hs]. split; cbn.
    + exact Hc.
    + rewrite (assign_other _ _ _ _ (not_eq_sym Hre)). exact Hs.
  - exact (CwndTracer_invariant nodeId now c o v t t' Hinv H).
  - exact (SsThreshTracer_invariant nodeId now c o v t t' Hinv H).
Qed.

Lemma run_invariant (nodeId : Z) (es : list event) (t t' : traces) :
  trace_invariant nodeId t -> existsb (reconnects nodeId) es = false ->
  run es t = Done t' -> trace_invariant nodeId t'.
Proof.
  revert t. induction es as [|e es IH]; intros t Hinv Hre H.
  - injection H as <-. exact Hinv.
  - cbn [existsb] in Hre. apply orb_false_elim in Hre. destruct Hre as [He Hes].
    cbn [run] in H. destruct (fire e t) as [t1|] eqn:E; [|discriminate].
    cbn [and_then] in H.
    exact (IH t1 (fire_invariant nodeId e t t1 Hinv He E) Hes H).
Qed.

Lemma connected_invariant (nodeId : Z) (t : traces) :
  firstCwnd t nodeId = true -> firstSshThr t nodeId = true ->
  trace_invariant nodeId (TraceSsThresh nodeId (TraceCwnd nodeId t)).
Proof.
  intros Fc Fs. split; cbn; rewrite ?assign_same.
  - exists []. rewrite Fc. split; reflexivity.
  - exists []. rewrite Fs. split; reflexivity.
Qed.

(** X13.  The files of a node, once [TraceCwnd] and [TraceSsThresh] have
    opened them with the flags that [main] sets: whatever callbacks and
    connections of other nodes run afterwards, each file of the node is empty
    until its first change, and from then on holds one initial line followed
    by samples only, the last sample being the tracked value. *)
Theorem trace_files_well_formed (nodeId : Z) (es : list event) (t t' : traces) :
  firstCwnd t nodeId = true -> firstSshThr t nodeId = true ->
  existsb (reconnects nodeId) es = false ->
  run (ConnectCwnd nodeId :: ConnectSsThresh nodeId :: es) t = Done t' ->
  trace_invariant nodeId t'.
Proof.
  intros Fc Fs Hre H. cbn [run fire and_then] in H.
  exact (run_invariant nodeId es _ t' (connected_invariant nodeId t Fc Fs) Hre H).
Qed.

Lemma CwndTracer_returns (nodeId : Z) (now : R) (context : string)
    (oldval newval : Z) (t : traces) :
  trace_invariant nodeId t -> GetNodeIdFromContext context = Done nodeId ->
  exists t', CwndTracer now context oldval newval t = Done t'.
Proof.
  intros [(lc & Elc & _) (ls & Els & _)] Hctx.
  unfold CwndTracer. rewrite Hctx. cbn [and_then].
  destruct (firstCwnd t nodeId).
  - rewrite (write_Done _ _ _ _ Elc). cbn [and_then fst snd].
    rewrite (write_Done _ _ _ _ (assign_same _ _ _)). cbn [and_then].
    destruct (firstSshThr t nodeId); cbn [negb]; [eexists; reflexivity|].
    rewrite (write_Done _ _ _ _ Els). eexists; reflexivity.
  - cbn [and_then fst snd]. rewrite (write_Done _ _ _ _ Elc). cbn [and_then].
    destruct (firstSshThr t nodeId); cbn [negb]; [eexists; reflexivity|].
    rewrite (write_Done _ _ _ _ Els). eexists; reflexivity.
Qed.

Lemma SsThreshTracer_returns (nodeId : Z) (now : R) (context : string)
    (oldval newval : Z) (t : traces) :
  trace_invariant nodeId t -> GetNodeIdFromContext context = Done nodeId ->
  exists t', SsThreshTracer now context oldval newval t = Done t'.
Proof.
  intros [(lc & Elc & _) (ls & Els & _)] Hctx.
  unfold SsThreshTracer. rewrite Hctx. cbn [and_then].
  destruct (firstSshThr t nodeId).
  - rewrite (write_Done _ _ _ _ Els). cbn [and_then fst snd].
    rewrite (write_Done _ _ _ _ (assign_same _ _ _)). cbn [and_then].
    destruct (firstCwnd t nodeId); cbn [negb]; [eexists; reflexivity|].
    rewrite (write_Done _ _ _ _ Elc). eexists; reflexivity.
  - cbn [and_then fst snd]. rewrite (write_Done _ _ _ _ Els). cbn [and_then].
    destruct (firstCwnd t nodeId); cbn [negb]; [eexists; reflexivity|].
    rewrite (write_Done _ _ _ _ Elc). eexists; reflexivity.
Qed.

Lemma reported_by_not_reconnect (nodeId : Z) (e : event) :
  reported_by nodeId e = true -> reconnects nodeId e = false.
Proof. destruct e; cbn; congruence. Qed.

Lemma run_reported (nodeId : Z) (es : list event) (t : traces) :
  U32.in_range nodeId -> trace_invariant nodeId t ->
  forallb (reported_by nodeId) es = true ->
  exists t', run es t = Done t' /\ trace_invariant nodeId t'.
Proof.
  intros Hid. revert t. induction es as [|e es IH]; intros t Hinv Hes.
  - exists t. split; [reflexivity | exact Hinv].
  - cbn [forallb] in Hes. apply andb_prop in Hes. destruct Hes as [He Hes].
    assert (Hfire : exists t1, fire e t = Done t1).
    { destruct e as [n | n | now c o v | now c o v]; cbn [reported_by] in He;
        try discriminate He; apply String.eqb_eq in He; subst c; cbn [fire].
      - apply (CwndTracer_returns nodeId); [exact Hinv|].
        apply GetNodeIdFromContext_trace_path; [exact Hid | reflexivity].
      - apply (SsThreshTracer_returns nodeId); [exact Hinv|].
        apply GetNodeIdFromContext_trace_path; [exact Hid | reflexivity]. }
    destruct Hfire as [t1 E].
    pose proof (fire_invariant nodeId e t t1 Hinv
                  (reported_by_not_reconnect nodeId e He) E) as Hinv1.
    destruct (IH t1 Hinv1 Hes) as (t' & Hrun & Hinv').
    exists t'. split; [|exact Hinv'].
    cbn [run]. rewrite E. exact Hrun.
Qed.

Lemma trace_files_well_formed_witness :
  exists t', run (ConnectCwnd 1 :: ConnectSsThresh 1 :: first_changes) flows_marked
             = Done t' /\ trace_invariant 1 t'.
Proof.
  eexists. split; [reflexivity|].
  apply (trace_files_well_formed 1 first_changes flows_marked); reflexivity.
Defined.

(** X14.  After [TraceCwnd] and [TraceSsThresh] for a 32-bit node id whose
    flags [main] has set, every sequence of window and threshold changes
    that come with the node's own paths is written without a failure: no
    exception of [GetNodeIdFromContext], no null stream. *)
Theorem trace_run_returns (nodeId : Z) (es : list event) (t : traces) :
  U32.in_range nodeId ->
  firstCwnd t nodeId = true -> firstSshThr t nodeId = true ->
  forallb (reported_by nodeId) es = true ->
  exists t', run (ConnectCwnd nodeId :: ConnectSsThresh nodeId :: es) t = Done t'.
Proof.
  intros Hid Fc Fs Hes. cbn [run fire and_then].
  destruct (run_reported nodeId es _ Hid (connected_invariant nodeId t Fc Fs) Hes)
    as (t' & Hrun & _).
  exists t'. exact Hrun.
Qed.

Lemma trace_run_returns_witness :
  exists t', run (ConnectCwnd 1 :: ConnectSsThresh 1 ::
                  [CwndChange 0 (cwnd_path 1) 0 340;
                   SsThreshChange 1 (ssthresh_path 1) 4294967295 680])
                 flows_marked = Done t'.
Proof.
  apply (trace_run_returns 1 _ flows_marked); try reflexivity.
  unfold U32.in_range, U32.max_value, U32.modulus. lia.
Defined.

(** X15.  An event leaves the entries of every node other than its target
    as they are: flags, files and tracked values. *)
Theorem fire_isolated (nodeId : Z) (e : event) (t t' : traces) :
  target e <> Done nodeId -> fire e t = Done t' ->
  firstCwnd t' nodeId = firstCwnd t nodeId /\
  firstSshThr t' nodeId = firstSshThr t nodeId /\
  cWndStream t' nodeId = cWndStream t nodeId /\
  ssThreshStream t' nodeId = ssThreshStream t nodeId /\
  cWndValue t' nodeId = cWndValue t nodeId /\
  ssThreshValue t' nodeId = ssThreshValue t nodeId.
Proof.
  intros Ht H.
  destruct e as [n | n | now c o v | now c o v]; cbn [target fire] in Ht, H.
  - assert (Hne : nodeId <> n) by congruence.
    injection H as <-. cbn. rewrite (assign_other _ _ _ _ Hne). repeat split.
  - assert (Hne : nodeId <> n) by congruence.
    injection H as <-. cbn. rewrite (assign_other _ _ _ _ Hne). repeat split.
  - unfold CwndTracer in H.
    destruct (GetNodeIdFromContext c) as [n|]; [|discriminate].
    assert (Hne : nodeId <> n) by congruence.
    cbn [and_then] in H. unfold write in H.
    repeat (split_match H; cbn [and_then fst snd negb] in H; try discriminate H);
      injection H as <-; cbn; rewrite ?(assign_other _ _ _ _ Hne); repeat split.
  - unfold SsThreshTracer in H.
    destruct (GetNodeIdFromContext c) as [n|]; [|discriminate].
    assert (Hne : nodeId <> n) by congruence.
    cbn [and_then] in H. unfold write in H.
    repeat (split_match H; cbn [and_then fst snd negb] in H; try discriminate H);
      injection H as <-; cbn; rewrite ?(assign_other _ _ _ _ Hne); repeat split.
Qed.

Lemma fire_isolated_witness :
  exists t', fire (CwndChange 2 (cwnd_path 2) 0 340)
                  (TraceCwnd 2 (TraceCwnd 1 flows_marked)) = Done t' /\
             cWndStream t' 1 = Some [] /\ firstCwnd t' 1 = true.
Proof.
  eexists. split; [reflexivity|].
  destruct (fire_isolated 1 (CwndChange 2 (cwnd_path 2) 0 340)
              (TraceCwnd 2 (TraceCwnd 1 flows_marked)) _
              ltac:(discriminate) eq_refl) as (H1 & _ & H3 & _).
  rewrite H1, H3. split; reflexivity.
Defined.

End TraceFiles.

(* ================================================================== *)
(** * The file server *)

Section RequestLines.
Import Ascii String List ListNotations Http.
Local Open Scope string_scope.

Lemma append_empty (s : string) : s ++ "" = s.
Proof. induction s as [|a s IH]; cbn [append]; [reflexivity | rewrite IH; reflexivity]. Qed.

Lemma append_assoc (a b c : string) : (a ++ b) ++ c = a ++ (b ++ c).
Proof. induction a as [|x a IH]; cbn [append]; [reflexivity | rewrite IH; reflexivity]. Qed.

Lemma fields_nonempty (s : string) (c : ascii) : fields s c <> [].
Proof.
  destruct s as [|a s]; cbn [fields]; [discriminate|].
  destruct (Ascii.eqb a c); [discriminate|].
  destruct (fields s c); discriminate.
Qed.

Lemma fields_absent (s : string) (c : ascii) :
  contains s c = false -> fields s c = [s].
Proof.
  induction s as [|a s IH]; [reflexivity|].
  cbn [contains fields]. intros H. apply orb_false_elim in H. destruct H as [Ha Hs].
  rewrite Ha, (IH Hs). reflexivity.
Qed.

Lemma fields_app_sep (p s : string) (c : ascii) :
  contains p c = false -> fields (p ++ String c s) c = p :: fields s c.
Proof.
  induction p as [|a p IH]; cbn [append contains fields].
  - intros _. rewrite Ascii.eqb_refl. reflexivity.
  - intros H. apply orb_false_elim in H. destruct H as [Ha Hp].
    rewrite Ha, (IH Hp). reflexivity.
Qed.

Lemma fields_app_end (p s : string) (c : ascii) :
  contains p c = false ->
  fields (p ++ s) c = (p ++ hd "" (fields s c)) :: tl (fields s c).
Proof.
  induction p as [|a p IH]; cbn [append contains].
  - intros _. pose proof (fields_nonempty s c).
    destruct (fields s c); [congruence | reflexivity].
  - intros H. apply orb_false_elim in H. destruct H as [Ha Hp].
    cbn [fields]. rewrite Ha, (IH Hp). reflexivity.
Qed.

Lemma drop_trailing_empty_cons (x : string) (l : list string) :
  x <> "" -> exists kept, drop_trailing_empty (x :: l) = x :: kept.
Proof.
  intros Hx. cbn [drop_trailing_empty].
  destruct (drop_trailing_empty l) as [|y kept].
  - apply String.eqb_neq in Hx. rewrite Hx. exists []. reflexivity.
  - exists (y :: kept). reflexivity.
Qed.

Lemma drop_trailing_empty_last (l : list string) (x : string) :
  x <> "" -> drop_trailing_empty (l ++ [x]) = (l ++ [x])%list.
Proof.
  intros Hx. induction l as [|y l IH].
  - cbn. apply String.eqb_neq in Hx. rewrite Hx. reflexivity.
  - cbn [app drop_trailing_empty]. rewrite IH.
    destruct (l ++ [x])%list eqn:E; [destruct l; discriminate E | reflexivity].
Qed.

Lemma drop_trailing_empty_repeat (n : nat) :
  drop_trailing_empty (repeat "" n) = [].
Proof. induction n as [|n IH]; [reflexivity|]. cbn [repeat drop_trailing_empty]. rewrite IH. reflexivity. Qed.

Lemma fields_spaces (n : nat) : fields (spaces n) " " = repeat "" (S n).
Proof. induction n as [|n IH]; [reflexivity|]. cbn [spaces fields]. cbn [Ascii.eqb Bool.eqb]. rewrite IH. reflexivity. Qed.

Lemma endsWith_nonempty (s suffix : string) :
  endsWith s suffix = true -> suffix <> "" -> s <> "".
Proof. intros H Hs ->. cbn in H. destruct suffix; [congruence | discriminate]. Qed.

(** Two suffixes of one string: one is a suffix of the other. *)
Lemma endsWith_comparable (s u v : string) :
  endsWith s u = true -> endsWith s v = true ->
  endsWith u v = true \/ endsWith v u = true.
Proof.
  induction s as [|a s IH]; cbn [endsWith]; intros Hu Hv.
  - rewrite orb_false_r in Hu, Hv. apply String.eqb_eq in Hu, Hv. subst.
    left. reflexivity.
  - apply orb_prop in Hu. apply orb_prop in Hv.
    destruct Hu as [Hu|Hu], Hv as [Hv|Hv].
    + apply String.eqb_eq in Hu, Hv. subst. left.
      cbn [endsWith]. rewrite String.eqb_refl. reflexivity.
    + apply String.eqb_eq in Hu. subst u. left.
      cbn [endsWith]. rewrite Hv. apply orb_true_r.
    + apply String.eqb_eq in Hv. subst v. right.
      cbn [endsWith]. rewrite Hu. apply orb_true_r.
    + exact (IH Hu Hv).
Qed.

Lemma endsWith_exclusive (s u v : string) :
  endsWith u v = false -> endsWith v u = false ->
  endsWith s u = true -> endsWith s v = false.
Proof.
  intros Huv Hvu Hu. destruct (endsWith s v) eqn:Hv; [|reflexivity].
  destruct (endsWith_comparable s u v Hu Hv); congruence.
Qed.

(** ** UPLOAD *)

Lemma split_upload (w tail : string) :
  contains w " " = false -> w <> "" ->
  tail = "" \/ (exists rest, tail = String " " rest) ->
  nth_error (split (upload_request (w ++ tail)) " ") 1 = Some w.
Proof.
  intros Hw Hne Htail. unfold split, upload_request.
  change (contains ("UPLOAD " ++ w ++ tail) " ") with true. cbv iota.
  change ("UPLOAD " ++ w ++ tail) with ("UPLOAD" ++ String " " (w ++ tail)).
  rewrite (fields_app_sep "UPLOAD" (w ++ tail) " " eq_refl).
  assert (Hf : exists l, fields (w ++ tail) " " = w :: l).
  { destruct Htail as [-> | [rest ->]].
    - rewrite append_empty, (fields_absent w " " Hw). exists []. reflexivity.
    - rewrite (fields_app_sep w rest " " Hw). eexists. reflexivity. }
  destruct Hf as [l ->].
  destruct (drop_trailing_empty_cons w l Hne) as [kept E].
  cbn [drop_trailing_empty] in E |- *. rewrite E. reflexivity.
Qed.

Lemma substring_from_upload (name : string) :
  substring_from (upload_request name) 7 = Returned name.
Proof.
  unfold substring_from, upload_request. cbn [append String.length].
  replace (_ <? 7)%nat with false by (symmetry; apply Nat.ltb_ge; lia).
  cbn [substring Nat.sub]. rewrite substring_all; [reflexivity | lia].
Qed.

Lemma upload_first_word (uploadPath w tail : string) :
  contains w " " = false -> w <> "" ->
  tail = "" \/ (exists rest, tail = String " " rest) ->
  upload uploadPath (upload_request (w ++ tail))
  = Returned (if valid_name w
              then valid (uploadPath ++ backslash ++ w ++ tail)
              else invalid).
Proof.
  intros Hw Hne Htail. unfold upload.
  rewrite (split_upload w tail Hw Hne Htail), substring_from_upload.
  destruct (valid_name w); reflexivity.
Qed.

(** X16.  An upload request of the client for a name [w tail], where [w] is
    the name up to its first space: the server judges [w] alone, and when it
    accepts, it stores the body under the whole name.  For a name without a
    space the two agree. *)
Theorem upload_judged_by_first_word (uploadPath w tail : string) :
  contains w " " = false -> w <> "" ->
  tail = "" \/ (exists rest, tail = String " " rest) ->
  upload uploadPath (upload_request (w ++ tail))
  = Returned (if valid_name w
              then valid (uploadPath ++ backslash ++ w ++ tail)
              else invalid).
Proof.
  intros Hw Hne Htail. unfold upload.
  rewrite (split_upload w tail Hw Hne Htail), substring_from_upload.
  destruct (valid_name w); reflexivity.
Qed.

Lemma upload_judged_by_first_word_witness :
  upload "D:" (upload_request "notes.txt setup.exe")
  = Returned (valid ("D:" ++ backslash ++ "notes.txt setup.exe")) /\
  upload "D:" (upload_request "my notes.txt") = Returned invalid.
Proof.
  split.
  - apply (upload_judged_by_first_word "D:" "notes.txt" " setup.exe");
      [reflexivity | discriminate | right; eexists; reflexivity].
  - apply (upload_judged_by_first_word "D:" "my" " notes.txt");
      [reflexivity | discriminate | right; eexists; reflexivity].
Defined.

(** X17.  An upload request for an empty name or a name of spaces only, and
    the bare word UPLOAD: [split(" ")[1]] throws
    [ArrayIndexOutOfBoundsException], which [run] does not catch. *)
Theorem upload_without_name (uploadPath : string) (n : nat) :
  upload uploadPath (upload_request (spaces n))
  = Thrown ArrayIndexOutOfBoundsException /\
  upload uploadPath "UPLOAD" = Thrown ArrayIndexOutOfBoundsException.
Proof.
  split; [|reflexivity].
  unfold upload, split, upload_request.
  change (contains ("UPLOAD " ++ spaces n) " ") with true. cbv iota.
  change ("UPLOAD " ++ spaces n) with ("UPLOAD" ++ String " " (spaces n)).
  rewrite (fields_app_sep "UPLOAD" (spaces n) " " eq_refl), fields_spaces.
  cbn [drop_trailing_empty]. rewrite (drop_trailing_empty_repeat (S n)).
  reflexivity.
Qed.

(** ** Content types *)

Lemma content_type_download (name : string) :
  endsWith name "png" = true \/ endsWith name "mp4" = true ->
  content_type name = "application/x-force-download".
Proof.
  intros [H | H]; unfold content_type.
  - rewrite (endsWith_exclusive name "png" "txt" eq_refl eq_refl H).
    rewrite (endsWith_exclusive name "png" "jpg" eq_refl eq_refl H).
    rewrite (endsWith_exclusive name "png" "jpeg" eq_refl eq_refl H).
    rewrite (endsWith_exclusive name "png" "PNG" eq_refl eq_refl H).
    reflexivity.
  - rewrite (endsWith_exclusive name "mp4" "txt" eq_refl eq_refl H).
    rewrite (endsWith_exclusive name "mp4" "jpg" eq_refl eq_refl H).
    rewrite (endsWith_exclusive name "mp4" "jpeg" eq_refl eq_refl H).
    rewrite (endsWith_exclusive name "mp4" "PNG" eq_refl eq_refl H).
    reflexivity.
Qed.

Lemma valid_name_content_type (name : string) :
  valid_name name = true -> content_type name <> "image/png".
Proof.
  unfold valid_name. intros H.
  destruct (endsWith name "png") eqn:Hpng;
    [rewrite (content_type_download name (or_introl Hpng)); discriminate |].
  destruct (endsWith name "mp4") eqn:Hmp4;
    [rewrite (content_type_download name (or_intror Hmp4)); discriminate |].
  unfold content_type.
  destruct (endsWith name "txt"); [discriminate |].
  destruct (endsWith name "jpg"); [discriminate |].
  destruct (endsWith name "jpeg"); [discriminate |].
  discriminate H.
Qed.

Lemma endsWith_app (p r suffix : string) :
  endsWith r suffix = true -> endsWith (p ++ r) suffix = true.
Proof.
  intros H. induction p as [| a p IH]; [exact H |].
  cbn [append endsWith]. rewrite IH. apply orb_true_r.
Qed.

(** X18.  The server checks the first word of an upload request, stores the
    body under the whole name and serves a file by the end of its name.  A
    name that ends in png or in mp4 is served as
    [application/x-force-download].  A name without a space that the upload
    accepts is stored under that name and is never served as [image/png].
    A name [w rest] in two words, with [w] accepted and [rest] ending in
    upper-case PNG, is accepted all the same, stored under the whole name and
    served as [image/png]. *)
Theorem accepted_names_content_type (uploadPath : string) :
  (forall name,
      endsWith name "png" = true \/ endsWith name "mp4" = true ->
      content_type name = "application/x-force-download") /\
  (forall name file,
      contains name " " = false ->
      upload uploadPath (upload_request name) = Returned (valid file) ->
      file = uploadPath ++ backslash ++ name /\
      content_type name <> "image/png") /\
  (forall w rest,
      contains w " " = false -> valid_name w = true -> endsWith rest "PNG" = true ->
      upload uploadPath (upload_request (w ++ " " ++ rest))
      = Returned (valid (uploadPath ++ backslash ++ w ++ " " ++ rest)) /\
      content_type (w ++ " " ++ rest) = "image/png").
Proof.
  split; [exact content_type_download |]. split.
  - intros name file Hsp H.
    destruct name as [| a name'] eqn:En.
    + vm_compute in H. discriminate H.
    + rewrite <- En in *.
      assert (Hne : name <> "") by (rewrite En; discriminate).
      pose proof (upload_first_word uploadPath name "" Hsp Hne (or_introl eq_refl)) as Hu.
      rewrite append_empty in Hu. rewrite Hu in H.
      destruct (valid_name name) eqn:Hv; [| discriminate H].
      injection H as <-. split; [reflexivity |].
      apply valid_name_content_type, Hv.
  - intros w rest Hsp Hv Hpng.
    assert (Hne : w <> "") by (intros ->; discriminate Hv).
    split.
    + change (w ++ " " ++ rest) with (w ++ String " " rest).
      rewrite (upload_first_word uploadPath w (String " " rest) Hsp Hne
                 (or_intror (ex_intro _ rest eq_refl))).
      rewrite Hv. reflexivity.
    + assert (H : endsWith (w ++ " " ++ rest) "PNG" = true)
        by (apply endsWith_app, endsWith_app, Hpng).
      unfold content_type.
      rewrite (endsWith_exclusive _ "PNG" "txt" eq_refl eq_refl H).
      rewrite (endsWith_exclusive _ "PNG" "jpg" eq_refl eq_refl H).
      rewrite (endsWith_exclusive _ "PNG" "jpeg" eq_refl eq_refl H).
      rewrite H. reflexivity.
Qed.

Lemma accepted_names_content_type_witness :
  upload "D:" (upload_request "a.txt b.PNG")
  = Returned (valid ("D:" ++ backslash ++ "a.txt b.PNG")) /\
  content_type "a.txt b.PNG" = "image/png".
Proof.
  apply (proj2 (proj2 (accepted_names_content_type "D:")) "a.txt" "b.PNG"); reflexivity.
Defined.

(** ** GET *)

Lemma plain_inv (c : string) :
  plain c = true -> contains c "/" = false /\ contains c " " = false.
Proof.
  unfold plain. intros H. apply andb_prop in H. destruct H as [H1 H2].
  apply negb_true_iff in H1, H2. split; assumption.
Qed.

Lemma fields_request (cs : list string) :
  forallb plain cs = true ->
  fields (String.concat "/" cs ++ " HTTP/1.1") "/" = pieces cs.
Proof.
  induction cs as [|x cs IH]; [reflexivity|].
  cbn [forallb]. intros H. apply andb_prop in H. destruct H as [Hx Hcs].
  destruct (plain_inv x Hx) as [Hslash _].
  destruct cs as [|y cs].
  - cbn [String.concat pieces].
    rewrite (fields_app_end x " HTTP/1.1" "/" Hslash). reflexivity.
  - change (pieces (x :: y :: cs)) with (x :: pieces (y :: cs)).
    rewrite <- (IH Hcs).
    change (String.concat "/" (x :: y :: cs))
      with (x ++ "/" ++ String.concat "/" (y :: cs)).
    rewrite append_assoc.
    change (("/" ++ String.concat "/" (y :: cs)) ++ " HTTP/1.1")
      with (String "/" (String.concat "/" (y :: cs) ++ " HTTP/1.1")).
    apply fields_app_sep, Hslash.
Qed.

Lemma pieces_shape (cs : list string) :
  (exists a b l, pieces cs = a :: b :: l) /\
  (exists l, pieces cs = (l ++ ["1.1"])%list).
Proof.
  induction cs as [|x cs IH].
  - split; [do 3 eexists; reflexivity | exists [" HTTP"]; reflexivity].
  - destruct cs as [|y cs].
    + split; [do 3 eexists; reflexivity | exists [x ++ " HTTP"]; reflexivity].
    + destruct IH as [(a & b & l & E) (l' & E')]. cbn [pieces] in E, E' |- *.
      split.
      * rewrite E. do 3 eexists; reflexivity.
      * rewrite E'. exists (x :: l'). reflexivity.
Qed.

Lemma replace_HTTP (x : string) :
  contains x " " = false -> replace (x ++ " HTTP") " HTTP" "" = x.
Proof.
  unfold replace. induction x as [|a x IH]; [reflexivity|].
  cbn [contains]. intros H. apply orb_false_elim in H. destruct H as [Ha Hx].
  cbn [append replace_from String.prefix].
  destruct (ascii_dec " " a) as [E|_].
  - subst a. discriminate Ha.
  - rewrite (IH Hx). reflexivity.
Qed.

Lemma pathExtract_pieces (cs : list string) :
  forallb plain cs = true ->
  pathExtract (pieces cs) = String.concat backslash cs.
Proof.
  induction cs as [|x cs IH]; [reflexivity|].
  cbn [forallb]. intros H. apply andb_prop in H. destruct H as [Hx Hcs].
  destruct (plain_inv x Hx) as [_ Hspace].
  destruct cs as [|y cs].
  - cbn [pieces pathExtract String.concat]. apply replace_HTTP, Hspace.
  - specialize (IH Hcs).
    destruct (pieces_shape (y :: cs)) as [(a & b & l & E) _].
    change (pieces (x :: y :: cs)) with (x :: pieces (y :: cs)).
    rewrite E in IH |- *.
    change (pathExtract (x :: a :: b :: l))
      with (x ++ backslash ++ pathExtract (a :: b :: l)).
    rewrite IH. reflexivity.
Qed.

(** X19.  The request line of a browser for the path components [cs], none
    of which holds a slash or a space: the extracted path is the components
    joined by backslashes, and without components the file is the root
    directory itself. *)
Theorem extractedPath_of_request (rootPath : string) (cs : list string) :
  forallb plain cs = true ->
  extractedPath (get_request cs) = String.concat backslash cs /\
  requested_file rootPath (get_request cs)
  = if String.eqb (String.concat backslash cs) "" then rootPath
    else rootPath ++ backslash ++
         (replace (String.concat backslash cs) "%20" " " ++ backslash).
Proof.
  intros H.
  assert (E : extractedPath (get_request cs) = String.concat backslash cs).
  { unfold extractedPath, split, get_request.
    change (contains ("GET /" ++ String.concat "/" cs ++ " HTTP/1.1") "/") with true.
    cbv iota.
    change ("GET /" ++ String.concat "/" cs ++ " HTTP/1.1")
      with ("GET " ++ String "/" (String.concat "/" cs ++ " HTTP/1.1")).
    rewrite (fields_app_sep "GET " _ "/" eq_refl), (fields_request cs H).
    destruct (pieces_shape cs) as [_ (l & El)].
    rewrite El.
    change ("GET " :: (l ++ ["1.1"])%list) with ((("GET " :: l) ++ ["1.1"])%list).
    rewrite drop_trailing_empty_last by discriminate.
    cbn [app tl]. rewrite <- El. apply pathExtract_pieces, H. }
  split; [exact E|].
  unfold requested_file. rewrite E. reflexivity.
Qed.

Lemma extractedPath_of_request_witness :
  extractedPath "GET /docs/img/logo.PNG HTTP/1.1"
  = "docs" ++ backslash ++ "img" ++ backslash ++ "logo.PNG" /\
  requested_file "D:" "GET /my%20docs HTTP/1.1"
  = "D:" ++ backslash ++ "my docs" ++ backslash.
Proof.
  split.
  - apply (extractedPath_of_request "D:" ["docs"; "img"; "logo.PNG"]). reflexivity.
  - apply (extractedPath_of_request "D:" ["my%20docs"]). reflexivity.
Defined.

End RequestLines.
